(** * The Cloud Foundry application resource: lifecycle reconciler

    A shallow embedding of [cloudfoundry/resource_cf_app.go] and the
    properties of its create, read, update, blue-green and delete paths,
    with the destroy check of the acceptance tests of
    [cloudfoundry/resource_cf_service_instance_test.go].

    Conventions of the embedding:
    - a Go [error] is the text of its [Error()]; [option error] is a nilable
      error, [None] being [nil];
    - a Go function returning [(T, error)] returns a pair, the value is
      there also when the error is not nil, as in Go;
    - a [map[string]interface{}] whose values the schema types as strings
      is a [gmap string string]; a nil map is the empty map on reads;
    - a pointer field of [cfapi.CCApp] is an [option]; dereferencing [None]
      panics;
    - remote calls go through the capability records [AppManager] and
      [RouteManager]; every call is appended, with its answer, to a trace,
      and the answer of a call may depend on everything that happened
      before it;
    - Go [int] values are [Z]; no operation of this file can overflow
      (counters only move towards a bound read from an [int]);
    - [d.Set] of a value of the type the schema gives the attribute does
      not fail; logging, printing and pauses are left out;
    - a function or a call that the code uses and this file does not
      define is a [Variable] of the section that embeds its caller. *)

From Stdlib Require Import ZArith.
From stdpp Require Import base option list strings gmap.

#[local] Set Warnings "-clear-no-such-hyp".

Local Open Scope string_scope.
Local Open Scope Z_scope.
Local Open Scope list_scope.

(** ** Strings *)

(** [strings.HasPrefix s p] *)
Fixpoint strings_HasPrefix (s p : string) : bool :=
  match p with
  | EmptyString => true
  | String c p' =>
      match s with
      | EmptyString => false
      | String c' s' => if Ascii.eqb c' c then strings_HasPrefix s' p' else false
      end
  end.

(** [strings.Contains s sub] *)
Fixpoint strings_Contains (s sub : string) : bool :=
  strings_HasPrefix s sub ||
  match s with
  | EmptyString => false
  | String _ s' => strings_Contains s' sub
  end.

(** [s[n:]] for [n] within the string *)
Fixpoint string_drop (n : nat) (s : string) : string :=
  match n, s with
  | O, _ => s
  | S n', String _ s' => string_drop n' s'
  | S _, EmptyString => EmptyString
  end.

(** [len(s) > 0] *)
Definition nonempty (s : string) : bool :=
  match s with EmptyString => false | String _ _ => true end.

Definition error := string.

(** [strings.Contains(err.Error(), "status code: 404")] *)
Definition is404 (e : error) : bool := strings_Contains e "status code: 404".

(** [fmt.Errorf] of [validateRoute] *)
Definition errRouteAlreadyMapped (routeID : string) : error :=
  "route with id " +:+ routeID +:+
  " is already mapped. routes specificed in the 'route' argument can only be mapped to one 'cloudfoundry_app' resource".

Definition errStageLiveBoth : error :=
  "both 'stage_route' and 'live_route' need to be provided to deploy the app using blue-green routing".

Definition errStageRouteUndefined : error :=
  "stage_route is not defined, blue/green deployment failed".

Definition errClientNil : error := "client is nil".

(** ** Data *)

(** Modelled from the spec: [cfapi.CCApp], the record of an application,
    is declared outside this file. Its fields are those this file reads
    and writes, with the types of their uses; a pointer is an [option]. *)
Record CCApp := {
  ID : string;
  Name : string;
  SpaceGUID : string;
  Ports : option (list Z);
  Instances : option Z;
  Memory : option Z;
  DiskQuota : option Z;
  StackGUID : option string;
  Buildpack : option string;
  Command : option string;
  EnableSSH : option bool;
  HealthCheckHTTPEndpoint : option string;
  HealthCheckType : option string;
  HealthCheckTimeout : option Z;
  Environment : option (gmap string string);
  DockerImage : option string;
  Diego : option bool;
  DockerCredentials : option (gmap string string);
  State : option string;
  PackageState : option string;
}.

(** [cfapi.CCApp{}] *)
Definition CCApp_zero : CCApp :=
  {| ID := ""; Name := ""; SpaceGUID := ""; Ports := None; Instances := None;
     Memory := None; DiskQuota := None; StackGUID := None; Buildpack := None;
     Command := None; EnableSSH := None; HealthCheckHTTPEndpoint := None;
     HealthCheckType := None; HealthCheckTimeout := None; Environment := None;
     DockerImage := None; Diego := None; DockerCredentials := None;
     State := None; PackageState := None |}.

(** [cfapi.CCApp{ID: id, Name: name, Instances: instances}] *)
Definition CCApp_scale (id name : string) (instances : option Z) : CCApp :=
  {| ID := id; Name := name; SpaceGUID := ""; Ports := None;
     Instances := instances;
     Memory := None; DiskQuota := None; StackGUID := None; Buildpack := None;
     Command := None; EnableSSH := None; HealthCheckHTTPEndpoint := None;
     HealthCheckType := None; HealthCheckTimeout := None; Environment := None;
     DockerImage := None; Diego := None; DockerCredentials := None;
     State := None; PackageState := None |}.

(** [app.Instances = instances] *)
Definition CCApp_withInstances (instances : option Z) (app : CCApp) : CCApp :=
  {| ID := ID app; Name := Name app; SpaceGUID := SpaceGUID app;
     Ports := Ports app; Instances := instances;
     Memory := Memory app; DiskQuota := DiskQuota app;
     StackGUID := StackGUID app; Buildpack := Buildpack app;
     Command := Command app; EnableSSH := EnableSSH app;
     HealthCheckHTTPEndpoint := HealthCheckHTTPEndpoint app;
     HealthCheckType := HealthCheckType app;
     HealthCheckTimeout := HealthCheckTimeout app;
     Environment := Environment app; DockerImage := DockerImage app;
     Diego := Diego app; DockerCredentials := DockerCredentials app;
     State := State app; PackageState := PackageState app |}.

(** An element of the [service_binding] list. The schema gives every
    element the three keys; [params] is kept with its presence. *)
Record ServiceBinding := {
  service_instance : string;
  params : option (gmap string string);
  binding_id : string;
}.

(** [b["binding_id"] = bindingID] *)
Definition withBindingID (bindingID : string) (b : ServiceBinding) : ServiceBinding :=
  {| service_instance := service_instance b; params := params b;
     binding_id := bindingID |}.

(** An element of [add_content]. *)
Record AddContent := { source : string; destination : string }.

(** An element of the [routes] set. *)
Record RouteEntry := { re_route : string; re_port : Z; re_mapping_id : string }.

(** The [blue_green] block. *)
Record BlueGreen := { enable : bool; validation_script : string }.

#[global] Instance ServiceBinding_eq_dec : EqDecision ServiceBinding.
Proof. solve_decision. Defined.
#[global] Instance AddContent_eq_dec : EqDecision AddContent.
Proof. solve_decision. Defined.
#[global] Instance RouteEntry_eq_dec : EqDecision RouteEntry.
Proof. solve_decision. Defined.
#[global] Instance BlueGreen_eq_dec : EqDecision BlueGreen.
Proof. solve_decision. Defined.

(** Modelled from the spec: [cfapi.CCRouteMapping] is declared outside this
    file, which reads its [AppPort] only. *)
Record CCRouteMapping := { AppPort : Z }.

(** ** Remote calls and their trace *)

Inductive event :=
| EvCreateApp (app : CCApp) (res : CCApp * option error)
| EvReadApp (appID : string) (res : CCApp * option error)
| EvUpdateApp (app : CCApp) (res : CCApp * option error)
| EvDeleteApp (appID : string) (deleteServiceBindings : bool) (res : option error)
| EvUploadApp (app : CCApp) (path : string) (addContent : list AddContent)
    (res : option error)
| EvStartApp (appID : string) (timeout : Z) (res : option error)
| EvStopApp (appID : string) (timeout : Z) (res : option error)
| EvStartDockerApp (appID : string) (timeout : Z) (res : option error)
| EvWaitForAppToStart (app : CCApp) (timeout : Z) (res : option error)
| EvRestageApp (appID : string) (timeout : Z) (res : option error)
| EvCreateServiceBinding (appID serviceInstanceID : string)
    (params : option (gmap string string)) (res : string * option error)
| EvDeleteServiceBinding (bindingID : string) (res : option error)
| EvReadRouteMappingsByRoute (routeID : string)
    (res : list (gmap string string) * option error)
| EvReadRouteMapping (mappingID : string) (res : CCRouteMapping * option error)
| EvCreateRouteMapping (routeID appID : string) (res : string * option error)
| EvDeleteRouteMapping (mappingID : string) (res : option error)
| EvDownload (url : string) (res : string * option error)
| EvGetRepository (res : string * option error)
| EvPrepare (res : option error)
| EvRemoveAll (path : string) (res : option error).

Abbreviation trace := (list event).

(** Modelled from the spec: [cfapi.AppManager], the capability interface
    of the applications, is declared outside this file; its calls have the
    signatures of their uses here. A field is the answer of the platform
    to a call, given what happened so far. *)
Record AppManager := {
  am_CreateApp : trace -> CCApp -> CCApp * option error;
  am_ReadApp : trace -> string -> CCApp * option error;
  am_UpdateApp : trace -> CCApp -> CCApp * option error;
  am_DeleteApp : trace -> string -> bool -> option error;
  am_UploadApp : trace -> CCApp -> string -> list AddContent -> option error;
  am_StartApp : trace -> string -> Z -> option error;
  am_StopApp : trace -> string -> Z -> option error;
  am_StartDockerApp : trace -> string -> Z -> option error;
  am_WaitForAppToStart : trace -> CCApp -> Z -> option error;
  am_RestageApp : trace -> string -> Z -> option error;
  am_CreateServiceBinding :
    trace -> string -> string -> option (gmap string string) ->
    string * option error;
  am_DeleteServiceBinding : trace -> string -> option error;
}.

(** Modelled from the spec: [cfapi.RouteManager], the capability interface
    of the route mappings, declared outside this file. *)
Record RouteManager := {
  rm_ReadRouteMappingsByRoute :
    trace -> string -> list (gmap string string) * option error;
  rm_ReadRouteMapping : trace -> string -> CCRouteMapping * option error;
  rm_CreateRouteMapping : trace -> string -> string -> string * option error;
  rm_DeleteRouteMapping : trace -> string -> option error;
}.

(** The local side of a session: the download of [prepareApp] (temporary
    file, [http.Get], copy, close: the name of the file and the first
    error), the repository of [getRepositoryFromConfig] (its [GetPath()]
    and the error), [filepath.Dir], the value received from the [prepare]
    channel by [resourceAppCreateCfApp], and [os.RemoveAll]. *)
Record Local := {
  lc_download : trace -> string -> string * option error;
  lc_getRepository : trace -> string * option error;
  lc_Dir : string -> string;
  lc_prepare : trace -> option error;
  lc_RemoveAll : trace -> string -> option error;
}.

(** [cfapi.Session] *)
Record Session := {
  AppManager_ : AppManager;
  RouteManager_ : RouteManager;
  Local_ : Local;
}.

(** ** The monad of the operations: a trace is threaded, a panic stops. *)

Inductive outcome (A : Type) : Type :=
| Done (a : A)
| Panic.
Arguments Done {A} a.
Arguments Panic {A}.

Definition M (A : Type) : Type := trace -> outcome A * trace.

#[global] Instance M_ret : MRet M := fun A a t => (Done a, t).
#[global] Instance M_bind : MBind M := fun A B k m t =>
  match m t with
  | (Done a, t') => k a t'
  | (Panic, t') => (Panic, t')
  end.

Definition panic {A : Type} : M A := fun t => (Panic, t).

(** One remote call: ask, and record the call with its answer. *)
Definition perform {A : Type} (ask : trace -> A) (ev : A -> event) : M A :=
  fun t => let r := ask t in (Done r, t ++ [ev r]).

Definition CreateApp (am : AppManager) app : M (CCApp * option error) :=
  perform (fun t => am_CreateApp am t app) (EvCreateApp app).
Definition ReadApp (am : AppManager) appID : M (CCApp * option error) :=
  perform (fun t => am_ReadApp am t appID) (EvReadApp appID).
Definition UpdateApp (am : AppManager) app : M (CCApp * option error) :=
  perform (fun t => am_UpdateApp am t app) (EvUpdateApp app).
Definition DeleteApp (am : AppManager) appID del : M (option error) :=
  perform (fun t => am_DeleteApp am t appID del) (EvDeleteApp appID del).
Definition UploadApp (am : AppManager) app path addContent : M (option error) :=
  perform (fun t => am_UploadApp am t app path addContent)
          (EvUploadApp app path addContent).
Definition StartApp (am : AppManager) appID timeout : M (option error) :=
  perform (fun t => am_StartApp am t appID timeout) (EvStartApp appID timeout).
Definition StopApp (am : AppManager) appID timeout : M (option error) :=
  perform (fun t => am_StopApp am t appID timeout) (EvStopApp appID timeout).
Definition StartDockerApp (am : AppManager) appID timeout : M (option error) :=
  perform (fun t => am_StartDockerApp am t appID timeout)
          (EvStartDockerApp appID timeout).
Definition WaitForAppToStart (am : AppManager) app timeout : M (option error) :=
  perform (fun t => am_WaitForAppToStart am t app timeout)
          (EvWaitForAppToStart app timeout).
Definition RestageApp (am : AppManager) appID timeout : M (option error) :=
  perform (fun t => am_RestageApp am t appID timeout) (EvRestageApp appID timeout).
Definition CreateServiceBinding (am : AppManager) appID siID ps
  : M (string * option error) :=
  perform (fun t => am_CreateServiceBinding am t appID siID ps)
          (EvCreateServiceBinding appID siID ps).
Definition DeleteServiceBinding (am : AppManager) bindingID : M (option error) :=
  perform (fun t => am_DeleteServiceBinding am t bindingID)
          (EvDeleteServiceBinding bindingID).
Definition ReadRouteMappingsByRoute (rm : RouteManager) routeID
  : M (list (gmap string string) * option error) :=
  perform (fun t => rm_ReadRouteMappingsByRoute rm t routeID)
          (EvReadRouteMappingsByRoute routeID).
Definition ReadRouteMapping (rm : RouteManager) mappingID
  : M (CCRouteMapping * option error) :=
  perform (fun t => rm_ReadRouteMapping rm t mappingID)
          (EvReadRouteMapping mappingID).
Definition CreateRouteMapping (rm : RouteManager) routeID appID
  : M (string * option error) :=
  perform (fun t => rm_CreateRouteMapping rm t routeID appID)
          (EvCreateRouteMapping routeID appID).
Definition DeleteRouteMapping (rm : RouteManager) mappingID : M (option error) :=
  perform (fun t => rm_DeleteRouteMapping rm t mappingID)
          (EvDeleteRouteMapping mappingID).
Definition RemoveAll (lc : Local) path : M (option error) :=
  perform (fun t => lc_RemoveAll lc t path) (EvRemoveAll path).
Definition download (lc : Local) url : M (string * option error) :=
  perform (fun t => lc_download lc t url) (EvDownload url).
Definition getRepositoryFromConfig (lc : Local) : M (string * option error) :=
  perform (fun t => lc_getRepository lc t) EvGetRepository.
Definition receivePrepare (lc : Local) : M (option error) :=
  perform (fun t => lc_prepare lc t) EvPrepare.

(** ** Route validation *)

(** [validateRoute(routeConfig, route, appID, rm)] *)
Definition validateRoute (routeConfig : gmap string string) (route : string)
    (appID : string) (rm : RouteManager) : M (string * option error) :=
  match routeConfig !! route with
  | Some routeID =>
      '(mappings, err) ← ReadRouteMappingsByRoute rm routeID;
      match err, mappings with
      | None, m0 :: rest =>
          if bool_decide (rest = []) && bool_decide (m0 !! "app" = Some appID)
          then mret (routeID, None)
          else mret (routeID, Some (errRouteAlreadyMapped routeID))
      | _, _ => mret (routeID, err)
      end
  | None => mret ("", None)
  end.

(** ** Legacy route slots *)

(** [updateAppRouteMappings(old, new, route, appID, rm)] *)
Definition updateAppRouteMappings (old new : gmap string string)
    (route appID : string) (rm : RouteManager) : M (string * option error) :=
  let oldRouteID := default "" (old !! route) in
  let newRouteID := default "" (new !! route) in
  if bool_decide (oldRouteID ≠ newRouteID) then
    '(mappingID, err) ←
      (if nonempty newRouteID then CreateRouteMapping rm newRouteID appID
       else mret ("", None));
    match err with
    | Some e => mret ("", Some e)
    | None =>
        if nonempty oldRouteID then
          match old !! (route +:+ "_mapping_id") with
          | Some v =>
              err ← DeleteRouteMapping rm v;
              match err with
              | Some e =>
                  if is404 e then mret (mappingID, None) else mret ("", Some e)
              | None => mret (mappingID, None)
              end
          | None => mret (mappingID, None)
          end
        else mret (mappingID, None)
    end
  else mret ("", None).

(** ** Service bindings *)

(** The loop of [addServiceBindings]; [bindings] is the list built so far. *)
Fixpoint addServiceBindings_loop (id : string) (add : list ServiceBinding)
    (am : AppManager) (bindings : list ServiceBinding)
  : M (list ServiceBinding * option error) :=
  match add with
  | [] => mret (bindings, None)
  | b :: add' =>
      '(bindingID, err) ←
        CreateServiceBinding am id (service_instance b) (params b);
      match err with
      | Some e => mret (bindings, Some e)
      | None =>
          addServiceBindings_loop id add' am
            (bindings ++ [withBindingID bindingID b])
      end
  end.

(** [addServiceBindings(id, add, am, log)] *)
Definition addServiceBindings (id : string) (add : list ServiceBinding)
    (am : AppManager) : M (list ServiceBinding * option error) :=
  addServiceBindings_loop id add am [].

(** [removeServiceBindings(delete, am, log)] *)
Fixpoint removeServiceBindings (delete : list ServiceBinding) (am : AppManager)
  : M (option error) :=
  match delete with
  | [] => mret None
  | b :: delete' =>
      let bindingID := binding_id b in
      if nonempty bindingID then
        err ← DeleteServiceBinding am bindingID;
        match err with
        | Some e => mret (Some e)
        | None => removeServiceBindings delete' am
        end
      else removeServiceBindings delete' am
  end.

(** ** The resource data *)

(** The attributes of the schema of [resourceApp], typed as the schema
    types them. A [TypeSet] of integers is a [gset]; the [routes] set is
    the list its [List()] yields. *)
Record Attrs := {
  name : string;
  space : string;
  ports : gset Z;
  instances : Z;
  memory : Z;
  disk_quota : Z;
  stack : string;
  buildpack : string;
  command : string;
  enable_ssh : bool;
  timeout : Z;
  stopped : bool;
  url : string;
  docker_image : string;
  docker_credentials : gmap string string;
  git : list (gmap string string);
  github_release : list (gmap string string);
  add_content : list AddContent;
  service_binding : list ServiceBinding;
  route : list (gmap string string);
  routes : list RouteEntry;
  environment : gmap string string;
  health_check_http_endpoint : string;
  health_check_type : string;
  health_check_timeout : Z;
  blue_green : list BlueGreen;
  deposed : gmap string string;
}.

(** [*schema.ResourceData]: the id, the attributes of the prior state, the
    attributes [d.Get] returns (the plan, overwritten by [d.Set]), and the
    book-keeping of partial mode. [rdImport] is what [IsImportState(d)]
    answers. *)
Record ResourceData := {
  rdId : string;
  rdOld : Attrs;
  rdNew : Attrs;
  rdPartial : bool;
  rdPartialKeys : list string;
  rdImport : bool;
}.

(** [d.SetId(id)] *)
Definition SetId (id : string) (d : ResourceData) : ResourceData :=
  {| rdId := id; rdOld := rdOld d; rdNew := rdNew d; rdPartial := rdPartial d;
     rdPartialKeys := rdPartialKeys d; rdImport := rdImport d |}.

(** [d.Partial(on)] *)
Definition Partial (on : bool) (d : ResourceData) : ResourceData :=
  {| rdId := rdId d; rdOld := rdOld d; rdNew := rdNew d; rdPartial := on;
     rdPartialKeys := rdPartialKeys d; rdImport := rdImport d |}.

(** [d.SetPartial(k)] *)
Definition SetPartial (k : string) (d : ResourceData) : ResourceData :=
  {| rdId := rdId d; rdOld := rdOld d; rdNew := rdNew d;
     rdPartial := rdPartial d; rdPartialKeys := k :: rdPartialKeys d;
     rdImport := rdImport d |}.

(** [d.Set] of several attributes at once: [f] rewrites what [d.Get] returns. *)
Definition SetAttrs (f : Attrs -> Attrs) (d : ResourceData) : ResourceData :=
  {| rdId := rdId d; rdOld := rdOld d; rdNew := f (rdNew d);
     rdPartial := rdPartial d; rdPartialKeys := rdPartialKeys d;
     rdImport := rdImport d |}.

(** [d.Set("deposed", m)] *)
Definition set_deposed (m : gmap string string) (a : Attrs) : Attrs :=
  {| name := name a; space := space a; ports := ports a;
     instances := instances a; memory := memory a;
     disk_quota := disk_quota a; stack := stack a; buildpack := buildpack a;
     command := command a; enable_ssh := enable_ssh a; timeout := timeout a;
     stopped := stopped a; url := url a; docker_image := docker_image a;
     docker_credentials := docker_credentials a; git := git a;
     github_release := github_release a; add_content := add_content a;
     service_binding := service_binding a; route := route a;
     routes := routes a; environment := environment a;
     health_check_http_endpoint := health_check_http_endpoint a;
     health_check_type := health_check_type a;
     health_check_timeout := health_check_timeout a;
     blue_green := blue_green a; deposed := m |}.

(** [d.HasChange(key)], for the attribute read by [f] *)
Definition HasChange {A : Type} `{EqDecision A} (f : Attrs -> A)
    (d : ResourceData) : bool :=
  bool_decide (f (rdOld d) ≠ f (rdNew d)).

(** The [ok] of [d.GetOk(key)]: the value is not the zero value of its type. *)
Definition okString (s : string) : bool := nonempty s.
Definition okInt (z : Z) : bool := bool_decide (z ≠ 0).
Definition okBool (b : bool) : bool := b.
Definition okList {A : Type} (l : list A) : bool :=
  match l with [] => false | _ :: _ => true end.
Definition okMap (m : gmap string string) : bool := bool_decide (m ≠ ∅).
Definition okSet (s : gset Z) : bool := bool_decide (s ≠ ∅).

(** ** Delete *)

(** The loop of [resourceAppDelete] over the mapping ids of the legacy
    [route] block. *)
Fixpoint deleteLegacyMappings (rm : RouteManager)
    (routeConfig : gmap string string) (keys : list string)
  : M (option error) :=
  match keys with
  | [] => mret None
  | r :: keys' =>
      match routeConfig !! r with
      | Some mappingID =>
          if nonempty mappingID then
            err ← DeleteRouteMapping rm mappingID;
            match err with
            | Some e =>
                if negb (is404 e) then mret (Some e)
                else deleteLegacyMappings rm routeConfig keys'
            | None => deleteLegacyMappings rm routeConfig keys'
            end
          else deleteLegacyMappings rm routeConfig keys'
      | None => deleteLegacyMappings rm routeConfig keys'
      end
  end.

(** The loop of [resourceAppDelete] over the [routes] set. *)
Fixpoint deleteRoutesMappings (rm : RouteManager) (routesList : list RouteEntry)
  : M (option error) :=
  match routesList with
  | [] => mret None
  | data :: rest =>
      let mappingID := re_mapping_id data in
      if nonempty mappingID then
        err ← DeleteRouteMapping rm mappingID;
        match err with
        | Some e =>
            if negb (is404 e) then mret (Some e)
            else deleteRoutesMappings rm rest
        | None => deleteRoutesMappings rm rest
        end
      else deleteRoutesMappings rm rest
  end.

Definition legacyMappingKeys : list string :=
  ["default_route_mapping_id"; "stage_route_mapping_id"; "live_route_mapping_id"].

(** [resourceAppDelete(d, meta)]; [meta] is [None] for a nil session. *)
Definition resourceAppDelete (d : ResourceData) (meta : option Session)
  : M (option error) :=
  match meta with
  | None => mret (Some errClientNil)
  | Some session =>
      let am := AppManager_ session in
      let rm := RouteManager_ session in
      err ← (if okList (service_binding (rdNew d))
             then removeServiceBindings (service_binding (rdNew d)) am
             else mret None);
      match err with
      | Some e => mret (Some e)
      | None =>
          err ← match route (rdNew d) with
                | routeConfig :: _ =>
                    deleteLegacyMappings rm routeConfig legacyMappingKeys
                | [] => mret None
                end;
          match err with
          | Some e => mret (Some e)
          | None =>
              err ← (if okList (routes (rdNew d))
                     then deleteRoutesMappings rm (routes (rdNew d))
                     else mret None);
              match err with
              | Some e => mret (Some e)
              | None =>
                  _ ← DeleteApp am (rdId d) false;
                  mret None
              end
          end
      end
  end.

(** ** Create *)

(** [cfAppConfig] *)
Record cfAppConfig := {
  cfg_app : CCApp;
  cfg_routeConfig : gmap string string;
  cfg_serviceBindings : list ServiceBinding;
}.

(** [prepareApp(app, d, log)] *)
Definition prepareApp (lc : Local) (app : CCApp) (d : ResourceData)
  : M (string * option error) :=
  let u := url (rdNew d) in
  if okString u then
    if strings_HasPrefix u "file://" then mret (string_drop 7 u, None)
    else
      '(path, err) ← download lc u;
      match err with
      | Some e => mret ("", Some e)
      | None => mret (path, None)
      end
  else
    '(path, err) ← getRepositoryFromConfig lc;
    match err with
    | Some e => mret ("", Some e)
    | None =>
        if okList (github_release (rdNew d)) then mret (lc_Dir lc path, None)
        else mret (path, None)
    end.

(** The body of the goroutine of [resourceAppCreateCfApp]: what it sends on
    the [upload] channel. The task is run where it is dispatched and its
    value is read at the join; its assignments to the variable [err] of the
    function stay inside the task. *)
Definition uploadTask (am : AppManager) (lc : Local) (d : ResourceData)
    (app : CCApp) (appPath : string) (addContent : list AddContent)
  : M (option error) :=
  err ← UploadApp am app appPath addContent;
  match err with
  | Some e => mret (Some e)
  | None =>
      if okString (url (rdNew d)) then
        if negb (strings_HasPrefix (url (rdNew d)) "file://")
        then RemoveAll lc appPath
        else mret None
      else RemoveAll lc appPath
  end.

(** [rm.CreateRouteMapping(routeID, appID, nil)] followed by
    [routeConfig[key] = mappingID] *)
Definition bindRoute (rm : RouteManager) (routeID appID key : string)
    (routeConfig : gmap string string)
  : M (gmap string string * option error) :=
  '(mappingID, err) ← CreateRouteMapping rm routeID appID;
  match err with
  | Some e => mret (routeConfig, Some e)
  | None => mret (<[key := mappingID]> routeConfig, None)
  end.

(** The route block of [resourceAppCreateCfApp] after the bindings. *)
Definition createBindRoutes (rm : RouteManager) (d : ResourceData)
    (appID defaultRoute stageRoute liveRoute : string)
    (routeConfig : gmap string string)
  : M (gmap string string * option error) :=
  if bool_decide (rdId d ≠ "") then
    if nonempty stageRoute
    then bindRoute rm stageRoute appID "stage_route_mapping_id" routeConfig
    else mret (routeConfig, Some errStageRouteUndefined)
  else
    '(routeConfig, err) ←
      (if nonempty defaultRoute
       then bindRoute rm defaultRoute appID "default_route_mapping_id" routeConfig
       else mret (routeConfig, None));
    match err with
    | Some e => mret (routeConfig, Some e)
    | None =>
        if nonempty liveRoute
        then bindRoute rm liveRoute appID "live_route_mapping_id" routeConfig
        else mret (routeConfig, None)
    end.

(** The start of the application at the end of [resourceAppCreateCfApp]. *)
Definition createStart (am : AppManager) (d : ResourceData) (appID : string)
  : M (option error) :=
  let timeout := timeout (rdNew d) in
  let stopped := stopped (rdNew d) in
  if okString (docker_image (rdNew d)) then
    if negb stopped then StartDockerApp am appID timeout else mret None
  else if negb stopped then StartApp am appID timeout
  else mret None.

(** [resourceAppCreateCfApp] from the statement after the [defer] to its
    last [return]: the value of the variable [app], the configuration and
    the value of [err] on return. The [hasRouteConfig] read at the end is
    the one declared at the top of the function, which is never assigned
    (the [if] of the route block declares its own), hence [false]. *)
Definition createAfterCreateApp (d : ResourceData) (session : Session)
    (appConfig : cfAppConfig) (app : CCApp) (appPath : string)
    (routeConfig : gmap string string)
    (defaultRoute stageRoute liveRoute : string)
  : M (CCApp * cfAppConfig * option error) :=
  let am := AppManager_ session in
  let rm := RouteManager_ session in
  let lc := Local_ session in
  let docker := okString (docker_image (rdNew d)) in
  let addContent := add_content (rdNew d) in
  err ← receivePrepare lc;
  match err with
  | Some e => mret (app, appConfig, Some e)
  | None =>
      upload ← (if negb docker then uploadTask am lc d app appPath addContent
                else mret None);
      let hasServiceBindings := okList (service_binding (rdNew d)) in
      '(serviceBindings, err) ←
        (if hasServiceBindings
         then addServiceBindings (ID app) (service_binding (rdNew d)) am
         else mret ([], None));
      match err with
      | Some e => mret (app, appConfig, Some e)
      | None =>
          '(routeConfig, err) ←
            createBindRoutes rm d (ID app) defaultRoute stageRoute liveRoute
              routeConfig;
          match err with
          | Some e => mret (app, appConfig, Some e)
          | None =>
              match (if negb docker then upload else None) with
              | Some e => mret (app, appConfig, Some e)
              | None =>
                  err ← createStart am d (ID app);
                  match err with
                  | Some e => mret (app, appConfig, Some e)
                  | None =>
                      '(app, err) ← ReadApp am (ID app);
                      match err with
                      | Some e => mret (app, appConfig, Some e)
                      | None =>
                          let hasRouteConfig := false in
                          mret (app,
                                {| cfg_app := app;
                                   cfg_routeConfig :=
                                     if hasRouteConfig then routeConfig
                                     else cfg_routeConfig appConfig;
                                   cfg_serviceBindings :=
                                     if hasServiceBindings then serviceBindings
                                     else cfg_serviceBindings appConfig |},
                                None)
                      end
                  end
              end
          end
      end
  end.

(** The route block of [resourceAppCreateCfApp] before the creation: the
    route configuration and the three validated route ids. *)
Definition createValidateRoutes (rm : RouteManager) (d : ResourceData)
  : M (gmap string string * (string * string * string) * option error) :=
  match route (rdNew d) with
  | [] => mret (∅, ("", "", ""), None)
  | routeConfig :: _ =>
      '(defaultRoute, err) ←
        validateRoute routeConfig "default_route" (rdId d) rm;
      match err with
      | Some e => mret (routeConfig, (defaultRoute, "", ""), Some e)
      | None =>
          '(stageRoute, err) ← validateRoute routeConfig "stage_route" "" rm;
          match err with
          | Some e => mret (routeConfig, (defaultRoute, stageRoute, ""), Some e)
          | None =>
              '(liveRoute, err) ←
                validateRoute routeConfig "live_route" (rdId d) rm;
              match err with
              | Some e =>
                  mret (routeConfig, (defaultRoute, stageRoute, liveRoute), Some e)
              | None =>
                  if nonempty stageRoute && nonempty liveRoute then
                    mret (routeConfig, (defaultRoute, stageRoute, liveRoute), None)
                  else if nonempty stageRoute || nonempty liveRoute then
                    mret (routeConfig, (defaultRoute, stageRoute, liveRoute),
                          Some errStageLiveBoth)
                  else
                    mret (routeConfig, (defaultRoute, stageRoute, liveRoute), None)
              end
          end
      end
  end.

(** The deferred function of [resourceAppCreateCfApp]: [app] and [err] are
    the variables as the returning statement left them. *)
Definition createDeferred (am : AppManager) (app : CCApp) (err : option error)
  : M (option error) :=
  match err with
  | None => mret None
  | Some e =>
      err2 ← DeleteApp am (ID app) true;
      match err2 with
      | Some e2 => mret (Some e2)
      | None => mret (Some e)
      end
  end.

(** What [resourceAppCreateCfApp] holds when it reaches its [defer]: the
    created application, the path of its files, the route configuration
    and the validated ids of the default, stage and live routes. *)
Record Created := {
  cr_app : CCApp;
  cr_appPath : string;
  cr_routeConfig : gmap string string;
  cr_defaultRoute : string;
  cr_stageRoute : string;
  cr_liveRoute : string;
}.

(** [resourceAppCreateCfApp] from the session to the creation of the
    application: an error returned here is returned as it is, nothing is
    deferred yet. *)
Definition createUpToCreateApp (d : ResourceData) (session : Session)
    (appConfig : cfAppConfig) : M (Created * option error) :=
  let am := AppManager_ session in
  let rm := RouteManager_ session in
  let lc := Local_ session in
  let app := cfg_app appConfig in
  let nothing (e : error) :=
    ({| cr_app := app; cr_appPath := ""; cr_routeConfig := ∅;
        cr_defaultRoute := ""; cr_stageRoute := ""; cr_liveRoute := "" |},
     Some e) in
  '(appPath, err) ←
    (if negb (okString (docker_image (rdNew d))) then prepareApp lc app d
     else mret ("", None));
  match err with
  | Some e => mret (nothing e)
  | None =>
      '(routeConfig, (defaultRoute, stageRoute, liveRoute), err) ←
        createValidateRoutes rm d;
      match err with
      | Some e => mret (nothing e)
      | None =>
          '(app, err) ← CreateApp am app;
          mret ({| cr_app := app; cr_appPath := appPath;
                   cr_routeConfig := routeConfig;
                   cr_defaultRoute := defaultRoute;
                   cr_stageRoute := stageRoute;
                   cr_liveRoute := liveRoute |}, err)
      end
  end.

(** [resourceAppCreateCfApp(d, meta, appConfig)]: the configuration as the
    call leaves it behind the pointer, and the error. *)
Definition resourceAppCreateCfApp (d : ResourceData) (meta : option Session)
    (appConfig : cfAppConfig) : M (cfAppConfig * option error) :=
  match meta with
  | None => mret (appConfig, Some errClientNil)
  | Some session =>
      '(created, err) ← createUpToCreateApp d session appConfig;
      match err with
      | Some e => mret (appConfig, Some e)
      | None =>
          '(app, appConfig, err) ←
            createAfterCreateApp d session appConfig (cr_app created)
              (cr_appPath created) (cr_routeConfig created)
              (cr_defaultRoute created) (cr_stageRoute created)
              (cr_liveRoute created);
          err ← createDeferred (AppManager_ session) app err;
          mret (appConfig, err)
      end
  end.

(** ** Writing an application back to the resource data *)

(** The value [d.Set(key, p)] leaves for a pointer [p], under the guard
    [p != nil || IsImportState(d)]: a nil pointer sets the zero value. *)
Definition setPtr {A : Type} (imp : bool) (p : option A) (zero cur : A) : A :=
  match p with
  | Some v => v
  | None => if imp then zero else cur
  end.

(** The [d.Set] calls of [setAppArguments(app, d)]; [stoppedNow] and
    [portsNow] are [*app.State != "STARTED"] and [*app.Ports]. *)
Definition appArguments (app : CCApp) (imp : bool) (stoppedNow : bool)
    (portsNow : list Z) (a : Attrs) : Attrs :=
  {| name := Name app;
     space := SpaceGUID app;
     ports := list_to_set portsNow;
     instances := setPtr imp (Instances app) 0 (instances a);
     memory := setPtr imp (Memory app) 0 (memory a);
     disk_quota := setPtr imp (DiskQuota app) 0 (disk_quota a);
     stack := setPtr imp (StackGUID app) "" (stack a);
     buildpack := setPtr imp (Buildpack app) "" (buildpack a);
     command := setPtr imp (Command app) "" (command a);
     enable_ssh := setPtr imp (EnableSSH app) false (enable_ssh a);
     timeout := timeout a;
     stopped := stoppedNow;
     url := url a;
     docker_image := docker_image a;
     docker_credentials := docker_credentials a;
     git := git a;
     github_release := github_release a;
     add_content := add_content a;
     service_binding := service_binding a;
     route := route a;
     routes := routes a;
     environment := setPtr imp (Environment app) ∅ (environment a);
     health_check_http_endpoint :=
       setPtr imp (HealthCheckHTTPEndpoint app) "" (health_check_http_endpoint a);
     health_check_type :=
       setPtr imp (HealthCheckType app) "" (health_check_type a);
     health_check_timeout :=
       setPtr imp (HealthCheckTimeout app) 0 (health_check_timeout a);
     blue_green := blue_green a;
     deposed := deposed a |}.

(** [setAppArguments(app, d)] *)
Definition setAppArguments (app : CCApp) (d : ResourceData) : M ResourceData :=
  match State app, Ports app with
  | Some state, Some ps =>
      mret (SetAttrs
              (appArguments app (rdImport d)
                 (bool_decide (state ≠ "STARTED")) ps)
              (SetPartial "timeout" d))
  | _, _ => panic
  end.

(** ** Blue-green update *)

(** The number of rounds the scaling loop can still make: every round
    moves at least one of the two counters one step towards its bound. *)
Definition exchangeRounds (desired new venerable : Z) : nat :=
  Z.to_nat (Z.max 0 (desired - new) + Z.max 0 (venerable - 1)).

(** [if *(appConfig.app.State) != "STOPPED" { ...; am.WaitForAppToStart(...) }]:
    the answer of the wait is dropped. The pauses are not calls. *)
Definition waitUnlessStopped (am : AppManager) (state : option string)
    (newAppScale : CCApp) (timeoutDuration : Z) : M unit :=
  match state with
  | None => panic
  | Some s =>
      if bool_decide (s ≠ "STOPPED")
      then _ ← WaitForAppToStart am newAppScale timeoutDuration; mret tt
      else mret tt
  end.

(** [if *venerableApp.State != "STOPPED" { time.Sleep(...) }] *)
Definition pauseUnlessStopped (state : option string) : M unit :=
  match state with
  | None => panic
  | Some _ => mret tt
  end.

(** "scale up new": the first [if] of the body of the scaling loop; the
    new value of [*newAppScale.Instances] and the error returned, if any. *)
Definition scaleUpNew (am : AppManager) (newID newName : string)
    (newState : option string) (timeoutDuration : Z) (desired new : Z)
  : M (Z * option error) :=
  if new <? desired then
    let new' := new + 1 in
    let newAppScale := CCApp_scale newID newName (Some new') in
    '(_, err) ← UpdateApp am newAppScale;
    match err with
    | Some e => mret (new', Some e)
    | None =>
        _ ← waitUnlessStopped am newState newAppScale timeoutDuration;
        mret (new', None)
    end
  else mret (new, None).

(** "scale down old": the second [if] of the body of the scaling loop. *)
Definition scaleDownVenerable (am : AppManager)
    (venerableID venerableName : string) (venerableState : option string)
    (venerable : Z) : M (Z * option error) :=
  if 1 <? venerable then
    let venerable' := venerable - 1 in
    '(_, err) ←
      UpdateApp am (CCApp_scale venerableID venerableName (Some venerable'));
    match err with
    | Some e => mret (venerable', Some e)
    | None =>
        _ ← pauseUnlessStopped venerableState;
        mret (venerable', None)
    end
  else mret (venerable, None).

(** The scaling loop of [resourceAppBlueGreenUpdate]. [new] and
    [venerable] are [*newAppScale.Instances] and
    [*venerableAppScale.Instances]; [desired] is [*newApp.Instances].
    The result is [None] when the rounds are used up with the loop
    condition still true, [Some err] when the loop is left: by a [return]
    ([inl err]) or by its condition ([inr] of the final counters). *)
Fixpoint scalingExchange (rounds : nat) (am : AppManager)
    (newID newName venerableID venerableName : string)
    (newState venerableState : option string) (timeoutDuration : Z)
    (desired new venerable : Z) : M (option (error + Z * Z)) :=
  if (new <? desired) || (1 <? venerable) then
    match rounds with
    | O => mret None
    | S rounds' =>
        '(new', err) ←
          scaleUpNew am newID newName newState timeoutDuration desired new;
        match err with
        | Some e => mret (Some (inl e))
        | None =>
            '(venerable', err) ←
              scaleDownVenerable am venerableID venerableName venerableState
                venerable;
            match err with
            | Some e => mret (Some (inl e))
            | None =>
                scalingExchange rounds' am newID newName venerableID
                  venerableName newState venerableState timeoutDuration
                  desired new' venerable'
            end
        end
    end
  else mret (Some (inr (new, venerable))).

(** [validateRoute] of a slot against the venerable application, then the
    mapping of the route to the new application. *)
Definition blueGreenBindRoute (rm : RouteManager) (slot : string)
    (venerableID newID : string) (routeConfig : gmap string string)
  : M (gmap string string * option error) :=
  '(routeID, err) ← validateRoute routeConfig slot venerableID rm;
  match err with
  | Some e => mret (routeConfig, Some e)
  | None =>
      if nonempty routeID
      then bindRoute rm routeID newID (slot +:+ "_mapping_id") routeConfig
      else mret (routeConfig, None)
  end.

(** [resourceAppBlueGreenUpdate] from the scaling loop to the end. *)
Definition blueGreenExchange (am : AppManager) (d : ResourceData)
    (newApp venerableApp : CCApp) (appConfig : cfAppConfig)
  : M (ResourceData * option error) :=
  let timeoutDuration :=
    if okInt (timeout (rdNew d)) then timeout (rdNew d) else 0 in
  match Instances newApp, Instances venerableApp with
  | Some desired, Some venerable =>
      r ← scalingExchange (exchangeRounds desired 1 venerable) am
            (ID (cfg_app appConfig)) (Name (cfg_app appConfig))
            (ID venerableApp) (Name venerableApp)
            (State (cfg_app appConfig)) (State venerableApp)
            timeoutDuration desired 1 venerable;
      match r with
      | None => panic
      | Some (inl e) => mret (d, Some e)
      | Some (inr _) =>
          err ← DeleteApp am (ID venerableApp) true;
          match err with
          | Some e => mret (d, Some e)
          | None =>
              mret (SetAttrs
                      (set_deposed (delete (ID venerableApp) (deposed (rdNew d))))
                      d,
                    None)
          end
      end
  | _, _ => panic
  end.

(** [resourceAppBlueGreenUpdate(d, meta, newApp)]: the resource data as the
    call leaves it, and the error. *)
Definition resourceAppBlueGreenUpdate (d : ResourceData) (meta : option Session)
    (newApp : CCApp) : M (ResourceData * option error) :=
  match meta with
  | None => mret (d, Some errClientNil)
  | Some session =>
      let am := AppManager_ session in
      let rm := RouteManager_ session in
      '(venerableApp, err) ← ReadApp am (rdId d);
      match err with
      | Some e => mret (d, Some e)
      | None =>
          '(venerableApp, err) ←
            UpdateApp am
              (CCApp_scale (rdId d) (Name venerableApp +:+ "-venerable") None);
          match err with
          | Some e => mret (d, Some e)
          | None =>
              let appConfig :=
                {| cfg_app := CCApp_withInstances (Some 1) newApp;
                   cfg_routeConfig := ∅; cfg_serviceBindings := [] |} in
              '(appConfig, err) ← resourceAppCreateCfApp d meta appConfig;
              match err with
              | Some e => mret (d, Some e)
              | None =>
                  let appConfig :=
                    {| cfg_app :=
                         CCApp_withInstances (Instances newApp) (cfg_app appConfig);
                       cfg_routeConfig := cfg_routeConfig appConfig;
                       cfg_serviceBindings := cfg_serviceBindings appConfig |} in
                  let d := SetId (ID (cfg_app appConfig)) d in
                  let d :=
                    SetPartial "service_binding"
                      (SetPartial "add_content"
                         (SetPartial "github_release"
                            (SetPartial "git" (SetPartial "url" d)))) in
                  d ← setAppArguments (cfg_app appConfig) d;
                  let d :=
                    SetAttrs
                      (set_deposed
                         (<[ID venerableApp := "application"]> (deposed (rdNew d))))
                      d in
                  '(routeConfig, err) ←
                    blueGreenBindRoute rm "default_route" (ID venerableApp)
                      (ID (cfg_app appConfig)) (cfg_routeConfig appConfig);
                  match err with
                  | Some e => mret (d, Some e)
                  | None =>
                      '(routeConfig, err) ←
                        blueGreenBindRoute rm "live_route" (ID venerableApp)
                          (ID (cfg_app appConfig)) routeConfig;
                      match err with
                      | Some e => mret (d, Some e)
                      | None =>
                          let d := SetPartial "route" d in
                          blueGreenExchange am d newApp venerableApp appConfig
                      end
                  end
              end
          end
      end
  end.

(** ** Read: the deposed resources *)

(** The loop of [resourceAppRead] over the deposed map. Go ranges over the
    keys in an order of its choosing and visits every key once (only the
    key at hand is ever deleted); [keys] is that order. *)
Fixpoint readDeposedLoop (am : AppManager) (keys : list string)
    (deposedResources : gmap string string) : M (gmap string string) :=
  match keys with
  | [] => mret deposedResources
  | r :: keys' =>
      '(_, err) ← ReadApp am r;
      match err with
      | Some e =>
          if is404 e
          then readDeposedLoop am keys' (delete r deposedResources)
          else readDeposedLoop am keys' deposedResources
      | None => readDeposedLoop am keys' (delete r deposedResources)
      end
  end.

(** The block of [resourceAppRead] that checks the deposed resources. *)
Definition readDeposed (am : AppManager) (d : ResourceData) : M ResourceData :=
  let deposedResources := deposed (rdNew d) in
  if okMap deposedResources then
    m ← readDeposedLoop am (map_to_list deposedResources).*1 deposedResources;
    mret (SetAttrs (set_deposed m) d)
  else mret d.

(** ** Update: classification of the changes *)

(** Modelled from the spec: the helpers [getChangedValueString], [..Int],
    [..Bool], [..IntList] and [..Map] are not in this file. A changed
    attribute raises the flag it is given and yields its new value; an
    unchanged one leaves the flag as it is and yields the attribute when
    it is set, nil otherwise. [ok] is the [ok] of [d.GetOk]. *)
Definition getChangedValue {A : Type} `{EqDecision A} (ok : A -> bool)
    (f : Attrs -> A) (updated : bool) (d : ResourceData) : option A * bool :=
  if HasChange f d then (Some (f (rdNew d)), updated || true)
  else if ok (f (rdNew d)) then (Some (f (rdNew d)), updated)
  else (None, updated).

Definition getChangedValueString := getChangedValue okString.
Definition getChangedValueInt := getChangedValue okInt.
Definition getChangedValueBool := getChangedValue okBool.
Definition getChangedValueMap := getChangedValue okMap.
Definition getChangedValueIntList (f : Attrs -> gset Z) (updated : bool)
    (d : ResourceData) : option (list Z) * bool :=
  let '(v, updated) := getChangedValue okSet f updated d in
  (elements <$> v, updated).

(** The three flags of [resourceAppUpdate]. *)
Record ChangeFlags := { update : bool; restart : bool; restage : bool }.

(** [resourceAppUpdate] from [app := cfapi.CCApp{}] to the last
    [getChangedValue...]: the application to push and the flags. The two
    dereferences panic on nil. *)
Definition changedApp (d : ResourceData) : M (CCApp * ChangeFlags) :=
  let update := false in
  let '(vName, update) := getChangedValueString name update d in
  match vName with
  | None => panic
  | Some vName =>
  let '(vSpace, update) := getChangedValueString space update d in
  match vSpace with
  | None => panic
  | Some vSpace =>
  let '(vInstances, update) := getChangedValueInt instances update d in
  let '(vEnableSSH, update) := getChangedValueBool enable_ssh update d in
  let restart := false in
  let '(vPorts, restart) := getChangedValueIntList ports restart d in
  let '(vMemory, restart) := getChangedValueInt memory restart d in
  let '(vDiskQuota, restart) := getChangedValueInt disk_quota restart d in
  let '(vCommand, restart) := getChangedValueString command restart d in
  let '(vHTTPEndpoint, restart) :=
    getChangedValueString health_check_http_endpoint restart d in
  let '(vHealthType, restart) :=
    getChangedValueString health_check_type restart d in
  let '(vHealthTimeout, restart) :=
    getChangedValueInt health_check_timeout restart d in
  let restage := false in
  let '(vBuildpack, restage) := getChangedValueString buildpack restage d in
  let '(vStack, restage) := getChangedValueString stack restage d in
  let '(vEnvironment, restage) := getChangedValueMap environment restage d in
  let '(vDockerImage, update) := getChangedValueString docker_image update d in
  let '(vDockerCredentials, update) :=
    getChangedValueMap docker_credentials update d in
  mret ({| ID := ""; Name := vName; SpaceGUID := vSpace; Ports := vPorts;
           Instances := vInstances; Memory := vMemory; DiskQuota := vDiskQuota;
           StackGUID := vStack; Buildpack := vBuildpack; Command := vCommand;
           EnableSSH := vEnableSSH;
           HealthCheckHTTPEndpoint := vHTTPEndpoint;
           HealthCheckType := vHealthType;
           HealthCheckTimeout := vHealthTimeout;
           Environment := vEnvironment; DockerImage := vDockerImage;
           Diego := None; DockerCredentials := vDockerCredentials;
           State := None; PackageState := None |},
        {| update := update; restart := restart; restage := restage |})
  end
  end.

(** The value of the variable [blueGreen] of [resourceAppUpdate]. *)
Definition blueGreenSelected (d : ResourceData) (restart restage : bool) : bool :=
  match blue_green (rdNew d) with
  | [] => false
  | blueGreenConfig :: _ =>
      if enable blueGreenConfig then
        restart || restage || HasChange service_binding d ||
        HasChange url d || HasChange git d || HasChange github_release d ||
        HasChange add_content d
      else false
  end.

(** The [d.SetPartial] calls of [resourceAppUpdate] after the push. *)
Definition updatePartialKeys : list string :=
  ["name"; "space"; "ports"; "instances"; "memory"; "disk_quota"; "command";
   "enable_ssh"; "health_check_http_endpoint"; "health_check_type";
   "health_check_timeout"; "buildpack"; "environment"].

(** The push of [resourceAppUpdate]: [am.UpdateApp] when a flag is up. *)
Definition updatePush (am : AppManager) (d : ResourceData) (app : CCApp)
    (flags : ChangeFlags) : M (CCApp * ResourceData * option error) :=
  if update flags || restart flags || restage flags then
    '(app, err) ← UpdateApp am app;
    match err with
    | Some e => mret (app, d, Some e)
    | None =>
        d ← setAppArguments app d;
        mret (app, foldl (fun d k => SetPartial k d) d updatePartialKeys, None)
    end
  else mret (app, d, None).

Section Update.

(** [resourceAppStandardUpdate] calls helpers that are not in this file
    ([validateRouteLegacy], [getListChangedSchemaLists],
    [hashRouteMappingSet]); the update is stated over any such function. *)
Variable resourceAppStandardUpdate :
  ResourceData -> option Session -> CCApp -> bool -> bool -> bool ->
  M (ResourceData * option error).

(** [resourceAppUpdate(d, meta)] *)
Definition resourceAppUpdate (d : ResourceData) (meta : option Session)
  : M (ResourceData * option error) :=
  let d := SetAttrs (set_deposed (deposed (rdOld d))) d in
  match meta with
  | None => mret (d, Some errClientNil)
  | Some session =>
      let am := AppManager_ session in
      let d := Partial true d in
      '(app, flags) ← changedApp d;
      '(app, d, err) ← updatePush am d app flags;
      match err with
      | Some e => mret (d, Some e)
      | None =>
          '(d, err) ←
            (if blueGreenSelected d (restart flags) (restage flags)
             then resourceAppBlueGreenUpdate d meta app
             else resourceAppStandardUpdate d meta app
                    (update flags) (restart flags) (restage flags));
          match err with
          | None => mret (Partial false d, None)
          | Some e => mret (d, Some e)
          end
      end
  end.

End Update.

(** ** The diff customisation of the schema *)

(** [*schema.ResourceDiff]: the attributes before and after. *)
Record ResourceDiff := { diffOld : Attrs; diffNew : Attrs }.

(** [diff.HasChange(key)] for the attribute read by [f] *)
Definition DiffHasChange {A : Type} `{EqDecision A} (f : Attrs -> A)
    (diff : ResourceDiff) : bool :=
  bool_decide (f (diffOld diff) ≠ f (diffNew diff)).

(** [diff.HasChange(v)] for the keys the customisation ranges over *)
Definition DiffHasChangeKey (v : string) (diff : ResourceDiff) : bool :=
  if bool_decide (v = "docker_image") then DiffHasChange docker_image diff
  else if bool_decide (v = "docker_credentials")
       then DiffHasChange docker_credentials diff
  else if bool_decide (v = "git") then DiffHasChange git diff
  else if bool_decide (v = "github_release") then DiffHasChange github_release diff
  else if bool_decide (v = "url") then DiffHasChange url diff
  else false.

Definition sourceKeys : list string :=
  ["docker_image"; "docker_credentials"; "git"; "github_release"; "url"].

(** [CustomizeDiff] of [resourceApp]: the keys given to [diff.ForceNew],
    in order. *)
Definition CustomizeDiff (diff : ResourceDiff) : list string :=
  if (DiffHasChange docker_image diff || DiffHasChange docker_credentials diff) &&
     (DiffHasChange git diff || DiffHasChange github_release diff ||
      DiffHasChange url diff)
  then filter (fun v => DiffHasChangeKey v diff = true) sourceKeys
  else [].

(** ** Standard update: removal of the mappings of the [routes] set *)

Section RoutesSet.

(** [updatedRoutes.Remove(r)]; the hash of the set
    ([hashRouteMappingSet]) is not in this file. *)
Variable setRemove : RouteEntry -> list RouteEntry -> list RouteEntry.

(** The loop "mappings to remove" of [resourceAppStandardUpdate]:
    [toRemove] is [os.Difference(ns).List()], the result is the set last
    given to [d.Set("routes", ...)] and the error returned, if any. *)
Fixpoint removeRouteMappings (rm : RouteManager) (toRemove : list RouteEntry)
    (updatedRoutes : list RouteEntry) : M (list RouteEntry * option error) :=
  match toRemove with
  | [] => mret (updatedRoutes, None)
  | r :: rest =>
      let mappingID := re_mapping_id r in
      if nonempty mappingID then
        err ← DeleteRouteMapping rm mappingID;
        match err with
        | Some e =>
            if negb (is404 e) then mret (updatedRoutes, Some e)
            else removeRouteMappings rm rest (setRemove r updatedRoutes)
        | None => removeRouteMappings rm rest (setRemove r updatedRoutes)
        end
      else removeRouteMappings rm rest updatedRoutes
  end.

End RoutesSet.

(** ** Validation functions of the schema *)

(** The double quote that [%q] puts around a string. *)
Definition dquote : string := String (Ascii.ascii_of_nat 34) EmptyString.

(** [fmt.Sprintf("%q", k)] for a key [k] that needs no escape. *)
Definition fmt_q (k : string) : string := dquote +:+ k +:+ dquote.

(** [validateAppHealthCheckType(v, k)]: the warnings and the errors. *)
Definition validateAppHealthCheckType (value k : string)
  : list string * list error :=
  if bool_decide (value ≠ "port") && bool_decide (value ≠ "process") &&
     bool_decide (value ≠ "http") && bool_decide (value ≠ "none")
  then ([], [fmt_q k +:+ " must be one of 'port', 'process', 'http' or 'none'"])
  else ([], []).

(** [validateAppDeposedMapEmpty(v, k)] *)
Definition validateAppDeposedMapEmpty (v : gmap string string) (k : string)
  : list string * list error :=
  if bool_decide (size v ≠ 0%nat)
  then ([], [fmt_q k +:+ " must not be set by the user"])
  else ([], []).

(** ** Create: the entry point *)

(** [if v, ok := d.GetOk(key); ok { vv := v; p = &vv }] *)
Definition getOk {A : Type} (ok : A -> bool) (v : A) : option A :=
  if ok v then Some v else None.

(** The application [resourceAppCreate] fills in from the resource data. *)
Definition appOfData (d : ResourceData) : CCApp :=
  let a := rdNew d in
  {| ID := "";
     Name := name a;
     SpaceGUID := space a;
     Ports := elements <$> getOk okSet (ports a);
     Instances := getOk okInt (instances a);
     Memory := getOk okInt (memory a);
     DiskQuota := getOk okInt (disk_quota a);
     StackGUID := getOk okString (stack a);
     Buildpack := getOk okString (buildpack a);
     Command := getOk okString (command a);
     EnableSSH := getOk okBool (enable_ssh a);
     HealthCheckHTTPEndpoint := getOk okString (health_check_http_endpoint a);
     HealthCheckType := getOk okString (health_check_type a);
     HealthCheckTimeout := getOk okInt (health_check_timeout a);
     Environment := getOk okMap (environment a);
     DockerImage := getOk okString (docker_image a);
     Diego := if okString (docker_image a) then Some true else None;
     DockerCredentials := getOk okMap (docker_credentials a);
     State := None;
     PackageState := None |}.

(** [d.Set("service_binding", l)] and [d.Set("route", l)] together *)
Definition set_bindings_route (sb : list ServiceBinding)
    (rt : list (gmap string string)) (a : Attrs) : Attrs :=
  {| name := name a; space := space a; ports := ports a;
     instances := instances a; memory := memory a;
     disk_quota := disk_quota a; stack := stack a; buildpack := buildpack a;
     command := command a; enable_ssh := enable_ssh a; timeout := timeout a;
     stopped := stopped a; url := url a; docker_image := docker_image a;
     docker_credentials := docker_credentials a; git := git a;
     github_release := github_release a; add_content := add_content a;
     service_binding := sb; route := rt;
     routes := routes a; environment := environment a;
     health_check_http_endpoint := health_check_http_endpoint a;
     health_check_type := health_check_type a;
     health_check_timeout := health_check_timeout a;
     blue_green := blue_green a; deposed := deposed a |}.

(** [resourceAppCreate(d, meta)]: the resource data as the call leaves it,
    and the error. The route block written at the end is the one of the
    configuration, as given to [d.Set]. *)
Definition resourceAppCreate (d : ResourceData) (meta : option Session)
  : M (ResourceData * option error) :=
  match meta with
  | None => mret (d, Some errClientNil)
  | Some session =>
      let appConfig :=
        {| cfg_app := appOfData d; cfg_routeConfig := ∅;
           cfg_serviceBindings := [] |} in
      '(appConfig, err) ← resourceAppCreateCfApp d meta appConfig;
      match err with
      | Some e => mret (d, Some e)
      | None =>
          let d := SetId (ID (cfg_app appConfig)) d in
          d ← setAppArguments (cfg_app appConfig) d;
          mret (SetAttrs
                  (set_bindings_route (cfg_serviceBindings appConfig)
                     [cfg_routeConfig appConfig]) d,
                None)
      end
  end.

(** ** Read *)

(** A value of a [map[string]interface{}] of a route mapping: a string or
    an integer. *)
Inductive value :=
| VString (s : string)
| VInt (z : Z).

#[global] Instance value_eq_dec : EqDecision value.
Proof. solve_decision. Defined.

(** The inner loop of the refresh of the legacy route block: the first
    mapping whose ["route"] equals the route of the state, [want]. *)
Fixpoint firstMapping (routeMappings : list (gmap string value))
    (want : option value) : option (gmap string value) :=
  match routeMappings with
  | [] => None
  | mapping :: rest =>
      if bool_decide (mapping !! "route" = want) then Some mapping
      else firstMapping rest want
  end.

(** The outer loop of the refresh of the legacy route block, over the
    slots [slots]: [currentRouteMappings] (a value is [None] when the
    mapping holds nil there) and [mappingFound]. *)
Fixpoint refreshLegacyRoute (routeMappings : list (gmap string value))
    (stateRouteMappings : gmap string string) (slots : list string)
    (currentRouteMappings : gmap string (option value)) (mappingFound : bool)
  : gmap string (option value) * bool :=
  match slots with
  | [] => (currentRouteMappings, mappingFound)
  | r :: slots' =>
      let current :=
        <[r +:+ "_mapping_id" := Some (VString "")]>
          (<[r := Some (VString "")]> currentRouteMappings) in
      match firstMapping routeMappings (VString <$> stateRouteMappings !! r) with
      | Some mapping =>
          refreshLegacyRoute routeMappings stateRouteMappings slots'
            (<[r +:+ "_mapping_id" := mapping !! "mapping_id"]>
               (<[r := mapping !! "route"]> current))
            true
      | None =>
          refreshLegacyRoute routeMappings stateRouteMappings slots' current
            mappingFound
      end
  end.

Definition legacyRouteSlots : list string :=
  ["default_route"; "stage_route"; "live_route"].

(** [refreshedData] of the refresh of the [routes] set; [None] when a type
    assertion fails. *)
Definition refreshedData (mapping : gmap string value) : option RouteEntry :=
  match mapping !! "mapping_id", mapping !! "port", mapping !! "route" with
  | Some (VString mappingID), Some (VInt port), Some (VString routeID) =>
      Some {| re_route := routeID; re_port := port; re_mapping_id := mappingID |}
  | _, _, _ => None
  end.

(** [d.Set("routes", l)] *)
Definition set_routes (l : list RouteEntry) (a : Attrs) : Attrs :=
  {| name := name a; space := space a; ports := ports a;
     instances := instances a; memory := memory a;
     disk_quota := disk_quota a; stack := stack a; buildpack := buildpack a;
     command := command a; enable_ssh := enable_ssh a; timeout := timeout a;
     stopped := stopped a; url := url a; docker_image := docker_image a;
     docker_credentials := docker_credentials a; git := git a;
     github_release := github_release a; add_content := add_content a;
     service_binding := service_binding a; route := route a;
     routes := l; environment := environment a;
     health_check_http_endpoint := health_check_http_endpoint a;
     health_check_type := health_check_type a;
     health_check_timeout := health_check_timeout a;
     blue_green := blue_green a; deposed := deposed a |}.

Section Read.

(** [rm.ReadRouteMappingsByApp(appID)], a call of the route manager whose
    answers hold values of several types. *)
Variable ReadRouteMappingsByApp :
  RouteManager -> string -> M (list (gmap string value) * option error).

(** [d.Set("route", []map[string]interface{}{currentRouteMappings})]: what
    the schema library makes of the values is outside this file. *)
Variable setRoute : gmap string (option value) -> ResourceData -> ResourceData.

(** [stateRoutes.Contains(refreshedData)] and [schema.NewSet(
    hashRouteMappingSet, updatedRoutes).List()]; the hash is not in this
    file. *)
Variable setContains : RouteEntry -> list RouteEntry -> bool.
Variable newSet : list RouteEntry -> list RouteEntry.

(** The loop of the refresh of the [routes] set; [None] when a type
    assertion fails. *)
Fixpoint refreshRoutes (currentRouteMappings : list (gmap string value))
    (stateRoutes : list RouteEntry) (updatedRoutes : list RouteEntry)
  : option (list RouteEntry) :=
  match currentRouteMappings with
  | [] => Some updatedRoutes
  | mapping :: rest =>
      match refreshedData mapping with
      | None => None
      | Some data =>
          refreshRoutes rest stateRoutes
            (if setContains data stateRoutes then updatedRoutes ++ [data]
             else updatedRoutes)
      end
  end.

(** [resourceAppRead] up to the check of the deposed resources: the
    resource data, the value of [err], and whether the function has
    returned. *)
Definition readApplication (d : ResourceData) (session : Session)
  : M (ResourceData * option error * bool) :=
  let am := AppManager_ session in
  let rm := RouteManager_ session in
  '(app, err) ← ReadApp am (rdId d);
  match err with
  | Some e =>
      if is404 e then mret (SetId "" d, None, false)
      else mret (d, Some e, false)
  | None =>
      d ← setAppArguments app d;
      if okList (route (rdNew d)) then
        '(routeMappings, err) ← ReadRouteMappingsByApp rm (ID app);
        match err with
        | Some e => mret (d, Some e, true)
        | None =>
            let stateRouteMappings :=
              match route (rdNew d) with
              | [m] => m
              | _ => ∅
              end in
            let '(currentRouteMappings, mappingFound) :=
              refreshLegacyRoute routeMappings stateRouteMappings
                legacyRouteSlots ∅ false in
            mret (if mappingFound then setRoute currentRouteMappings d else d,
                  None, false)
        end
      else if okList (routes (rdNew d)) then
        '(currentRouteMappings, err) ← ReadRouteMappingsByApp rm (ID app);
        match err with
        | Some e => mret (d, Some e, true)
        | None =>
            match refreshRoutes currentRouteMappings (routes (rdNew d)) [] with
            | None => panic
            | Some updatedRoutes =>
                mret (SetAttrs (set_routes (newSet updatedRoutes)) d, None, false)
            end
        end
      else mret (d, None, false)
  end.

(** [resourceAppRead(d, meta)] *)
Definition resourceAppRead (d : ResourceData) (meta : option Session)
  : M (ResourceData * option error) :=
  match meta with
  | None => mret (d, Some errClientNil)
  | Some session =>
      '(d, err, returned) ← readApplication d session;
      if (returned : bool) then mret (d, err)
      else
        d ← readDeposed (AppManager_ session) d;
        mret (d, err)
  end.

End Read.

(** ** Standard update *)

(** [app.ID = id] *)
Definition CCApp_withID (id : string) (app : CCApp) : CCApp :=
  {| ID := id; Name := Name app; SpaceGUID := SpaceGUID app;
     Ports := Ports app; Instances := Instances app; Memory := Memory app;
     DiskQuota := DiskQuota app; StackGUID := StackGUID app;
     Buildpack := Buildpack app; Command := Command app;
     EnableSSH := EnableSSH app;
     HealthCheckHTTPEndpoint := HealthCheckHTTPEndpoint app;
     HealthCheckType := HealthCheckType app;
     HealthCheckTimeout := HealthCheckTimeout app;
     Environment := Environment app; DockerImage := DockerImage app;
     Diego := Diego app; DockerCredentials := DockerCredentials app;
     State := State app; PackageState := PackageState app |}.

(** [d.Set("service_binding", l)] *)
Definition set_service_binding (l : list ServiceBinding) (a : Attrs) : Attrs :=
  set_bindings_route l (route a) a.

(** The push of [resourceAppStandardUpdate]. *)
Definition standardPush (am : AppManager) (d : ResourceData) (app : CCApp)
    (update restart restage : bool) : M (CCApp * ResourceData * option error) :=
  if update || restart || restage then
    '(app, err) ← UpdateApp am app;
    match err with
    | Some e => mret (app, d, Some e)
    | None =>
        d ← setAppArguments app d;
        mret (app, d, None)
    end
  else mret (app, d, None).

(** The loops over [new] and [added] of [resourceAppStandardUpdate]: a
    binding of [new] takes the binding id of the first added binding of
    the same service instance. *)
Fixpoint stampAdded (added : list ServiceBinding) (bb : ServiceBinding)
  : ServiceBinding :=
  match added with
  | [] => bb
  | a :: added' =>
      if bool_decide (service_instance bb = service_instance a)
      then withBindingID (binding_id a) bb
      else stampAdded added' bb
  end.

(** The last block of [resourceAppStandardUpdate]: "now set the final
    started/stopped state", then the end of partial mode. *)
Definition standardFinalState (am : AppManager) (d : ResourceData) (app : CCApp)
  : M (ResourceData * option error) :=
  let timeout := timeout (rdNew d) in
  err ←
    (if HasChange stopped d then
       if stopped (rdNew d) then StopApp am (ID app) timeout
       else StartApp am (ID app) timeout
     else mret None);
  match err with
  | Some e => mret (d, Some e)
  | None => mret (Partial false d, None)
  end.

(** The restage or restart at the end of [resourceAppStandardUpdate], from
    the read of the application to the last [return]. *)
Definition standardFinish (am : AppManager) (d : ResourceData) (app : CCApp)
    (binaryUpdated restart restage : bool) : M (ResourceData * option error) :=
  let timeout := timeout (rdNew d) in
  '(curApp, readErr) ← ReadApp am (ID app);
  match readErr with
  | Some e => mret (d, Some e)
  | None =>
      '(restart, restage) ←
        (if binaryUpdated || restage then
           match PackageState curApp with
           | None => panic
           | Some packageState =>
               if bool_decide (packageState ≠ "PENDING")
               then mret (restart, true)
               else mret (true, false)
           end
         else mret (restart, restage));
      err ←
        (if (restage : bool) then
           err ← RestageApp am (ID app) timeout;
           match err with
           | Some e => mret (Some e)
           | None =>
               match State curApp with
               | None => panic
               | Some state =>
                   if bool_decide (state = "STARTED")
                   then WaitForAppToStart am app timeout
                   else mret None
               end
           end
         else if (restart : bool) && negb (stopped (rdNew d)) then
           err ← StopApp am (ID app) timeout;
           match err with
           | Some e => mret (Some e)
           | None => StartApp am (ID app) timeout
           end
         else mret None);
      match err with
      | Some e => mret (d, Some e)
      | None => standardFinalState am d app
      end
  end.

(** [defer func() { os.RemoveAll(appPath) }()]: the removal runs when the
    rest of the function, [m], is over, however it ends; its answer is
    dropped. *)
Definition deferRemoveAll {A : Type} (lc : Local) (appPath : string) (m : M A)
  : M A :=
  fun t =>
    let '(o, t') := m t in
    (o, t' ++ [EvRemoveAll appPath (lc_RemoveAll lc t' appPath)]).

(** [resourceAppStandardUpdate] from [binaryUpdated := false] to the end. *)
Definition standardBinary (am : AppManager) (lc : Local) (d : ResourceData)
    (app : CCApp) (restart restage : bool) : M (ResourceData * option error) :=
  if HasChange url d || HasChange git d || HasChange github_release d ||
     HasChange add_content d then
    '(appPath, err) ← prepareApp lc app d;
    match err with
    | Some e => mret (d, Some e)
    | None =>
        deferRemoveAll lc appPath
          (err ← UploadApp am app appPath (add_content (rdNew d));
           match err with
           | Some e => mret (d, Some e)
           | None => standardFinish am d app true restart restage
           end)
    end
  else standardFinish am d app false restart restage.

Section StandardUpdate.

(** [getListChangedSchemaLists(old, new)], not in this file: the bindings
    to delete and the bindings to add. *)
Variable getListChangedSchemaLists :
  list ServiceBinding -> list ServiceBinding ->
  list ServiceBinding * list ServiceBinding.

(** The three branches of the block of [resourceAppStandardUpdate] on
    [route] and [routes]: the update of the legacy block, the migration
    from the block to the set, the update of the set. They call
    [validateRouteLegacy], the [validateRoute] of three arguments and
    [hashRouteMappingSet], which are not in this file. *)
Variable standardLegacyRoutes :
  ResourceData -> Session -> CCApp -> M (ResourceData * option error).
Variable standardMigrateRoutes :
  ResourceData -> Session -> CCApp -> M (ResourceData * option error).
Variable standardRoutesSet :
  ResourceData -> Session -> CCApp -> M (ResourceData * option error).

(** The block of [resourceAppStandardUpdate] on [route] and [routes]. *)
Definition standardRoutes (d : ResourceData) (session : Session) (app : CCApp)
  : M (ResourceData * option error) :=
  if HasChange route d then
    if negb (HasChange routes d) then standardLegacyRoutes d session app
    else standardMigrateRoutes d session app
  else if HasChange routes d then standardRoutesSet d session app
  else mret (d, None).

(** The block of [resourceAppStandardUpdate] on the service bindings: the
    resource data, [restage] and the error returned, if any. [new], a list
    read from the resource data, is not nil. *)
Definition standardBindings (am : AppManager) (d : ResourceData) (app : CCApp)
    (restage : bool) : M (ResourceData * bool * option error) :=
  if HasChange service_binding d then
    let old := service_binding (rdOld d) in
    let new := service_binding (rdNew d) in
    let '(bindingsToDelete, bindingsToAdd) := getListChangedSchemaLists old new in
    err ← removeServiceBindings bindingsToDelete am;
    match err with
    | Some e => mret (d, restage, Some e)
    | None =>
        '(added, err) ← addServiceBindings (ID app) bindingsToAdd am;
        match err with
        | Some e => mret (d, restage, Some e)
        | None =>
            let d :=
              if okList added
              then SetAttrs (set_service_binding (stampAdded added <$> new)) d
              else d in
            mret (SetPartial "service_binding" d, true, None)
        end
    end
  else mret (d, restage, None).

(** [resourceAppStandardUpdate(d, meta, app, update, restart, restage)] *)
Definition resourceAppStandardUpdate (d : ResourceData) (meta : option Session)
    (app : CCApp) (update restart restage : bool)
  : M (ResourceData * option error) :=
  match meta with
  | None => mret (d, Some errClientNil)
  | Some session =>
      let am := AppManager_ session in
      let app := CCApp_withID (rdId d) app in
      '(app, d, err) ← standardPush am d app update restart restage;
      match err with
      | Some e => mret (d, Some e)
      | None =>
          '(d, restage, err) ← standardBindings am d app restage;
          match err with
          | Some e => mret (d, Some e)
          | None =>
              '(d, err) ← standardRoutes d session app;
              match err with
              | Some e => mret (d, Some e)
              | None => standardBinary am (Local_ session) d app restart restage
              end
          end
      end
  end.

End StandardUpdate.

(** ** The checks of the acceptance tests of the service instances *)

(** The error of [FindServiceInstance], by its type. *)
Inductive findError :=
| ModelNotFoundError
| OtherError (msg : string).

(** The loop of [testAccCheckServiceInstanceDestroyed]. [find] is
    [session.ServiceManager().FindServiceInstance], given the look-ups
    made so far with their answers; the result is the error of the check
    and the look-ups made. *)
Fixpoint destroyedLoop
    (find : list (string * option findError) -> string -> string ->
            option findError)
    (spaceID : string) (names : list string)
    (asked : list (string * option findError))
  : option error * list (string * option findError) :=
  match names with
  | [] => (None, asked)
  | n :: names' =>
      let answer := find asked n spaceID in
      match answer with
      | Some ModelNotFoundError => (None, asked ++ [(n, answer)])
      | Some (OtherError _) =>
          destroyedLoop find spaceID names' (asked ++ [(n, answer)])
      | None =>
          (Some ("service instance with name '" +:+ n +:+
                 "' still exists in cloud foundry"),
           asked ++ [(n, answer)])
      end
  end.

(** [testAccCheckServiceInstanceDestroyed(names, spaceResource)] on the
    state [resources], the primary id of each resource of the root
    module. *)
Definition testAccCheckServiceInstanceDestroyed
    (find : list (string * option findError) -> string -> string ->
            option findError)
    (names : list string) (spaceResource : string)
    (resources : gmap string string)
  : option error * list (string * option findError) :=
  match resources !! spaceResource with
  | None =>
      (Some ("space '" +:+ spaceResource +:+ "' not found in terraform state"),
       [])
  | Some spaceID => destroyedLoop find spaceID names []
  end.

(** ** Readings of a trace *)

(** The answers of the route-mapping deletes of a trace, in order. *)
Definition mappingDeletes (evs : trace) : list (string * option error) :=
  omap (fun ev => match ev with
                  | EvDeleteRouteMapping mappingID res => Some (mappingID, res)
                  | _ => None
                  end) evs.

(** The answers of the service-binding deletes of a trace, in order. *)
Definition bindingDeletes (evs : trace) : list (string * option error) :=
  omap (fun ev => match ev with
                  | EvDeleteServiceBinding bindingID res => Some (bindingID, res)
                  | _ => None
                  end) evs.

(** The application deletes of a trace, in order. *)
Definition appDeletes (evs : trace) : list (string * bool * option error) :=
  omap (fun ev => match ev with
                  | EvDeleteApp appID del res => Some (appID, del, res)
                  | _ => None
                  end) evs.

(** The instance counts asked for by the [UpdateApp] calls of a trace. *)
Definition instanceUpdates (evs : trace) : list (string * Z) :=
  omap (fun ev => match ev with
                  | EvUpdateApp app _ =>
                      n ← Instances app; Some (ID app, n)
                  | _ => None
                  end) evs.

(** Whether a trace holds a start call ([StartApp] or [StartDockerApp]). *)
Definition isStart (ev : event) : bool :=
  match ev with
  | EvStartApp _ _ _ | EvStartDockerApp _ _ _ => true
  | _ => false
  end.

(** The error sent on the [upload] channel by the upload task of a trace:
    the error of [UploadApp] or of the [RemoveAll] that follows it. *)
Fixpoint uploadError (evs : trace) : option error :=
  match evs with
  | [] => None
  | EvUploadApp _ _ _ (Some e) :: _ => Some e
  | EvRemoveAll _ (Some e) :: _ => Some e
  | _ :: rest => uploadError rest
  end.

(** The upload task of a trace has run to its end without an error. *)
Definition uploadJoined (evs : trace) : Prop :=
  uploadError evs = None ∧ ∃ app path addContent,
    EvUploadApp app path addContent None ∈ evs.

(** An event of the upload task. *)
Definition isUpload (ev : event) : bool :=
  match ev with
  | EvUploadApp _ _ _ _ | EvRemoveAll _ _ => true
  | _ => false
  end.

(** A delete of an application. *)
Definition isAppDelete (ev : event) : bool :=
  match ev with
  | EvDeleteApp _ _ _ => true
  | _ => false
  end.

(** An event that is no start, no upload, no removal of files and no
    delete of an application. *)
Definition quiet (ev : event) : bool :=
  match ev with
  | EvStartApp _ _ _ | EvStartDockerApp _ _ _ | EvUploadApp _ _ _ _
  | EvRemoveAll _ _ | EvDeleteApp _ _ _ => false
  | _ => true
  end.

(** A computation that returns, whatever the trace it starts from, and
    whose events all satisfy [P]. *)
Definition emits {A : Type} (P : event -> Prop) (m : M A) : Prop :=
  ∀ t, ∃ a evs, m t = (Done a, t ++ evs) ∧ Forall P evs.

(** The first error that counts ([hard]) among the answers of deletes. *)
Fixpoint firstErrorBy (hard : error -> bool)
    (answers : list (string * option error)) : option error :=
  match answers with
  | [] => None
  | (_, Some e) :: rest => if hard e then Some e else firstErrorBy hard rest
  | (_, None) :: rest => firstErrorBy hard rest
  end.

(** Every error counts. *)
Definition anyError : error -> bool := fun _ => true.

(** A 404 does not count. *)
Definition not404 : error -> bool := fun e => negb (is404 e).

(** A loop of deletes that stops at the first error that counts: the
    deletes made are those of [ids], in order, up to that error (all of
    them when there is none), and no delete but the last met such an
    error. *)
Definition deletesUpToFirst (hard : error -> bool) (ids : list string)
    (answers : list (string * option error)) : Prop :=
  (∃ rest, ids = answers.*1 ++ rest ∧
           (firstErrorBy hard answers = None → rest = [])) ∧
  firstErrorBy hard (removelast answers) = None.

(** The non-empty ids of a list of ids. *)
Definition nonemptyIDs (ids : list string) : list string :=
  filter (fun s => nonempty s = true) ids.

(** ** A platform to run the operations on *)

Module Demo.

(** The attributes of an application ["web"] with [n] instances, sources
    [u] and [g], bindings [sb], legacy routes [rt], blue-green block [bg]
    and deposed map [dep]. *)
Definition attrsWith (n : Z) (u : string) (g : list (gmap string string))
    (sb : list ServiceBinding) (rt : list (gmap string string))
    (bg : list BlueGreen) (dep : gmap string string) : Attrs :=
  {| name := "web"; space := "space-1"; ports := ∅; instances := n;
     memory := 0; disk_quota := 0; stack := ""; buildpack := "";
     command := ""; enable_ssh := false; timeout := 60; stopped := false;
     url := u; docker_image := "";
     docker_credentials := ∅; git := g; github_release := [];
     add_content := []; service_binding := sb; route := rt; routes := [];
     environment := ∅; health_check_http_endpoint := "";
     health_check_type := "port"; health_check_timeout := 0;
     blue_green := bg; deposed := dep |}.

Definition attrs : Attrs := attrsWith 1 "file:///tmp/web.zip" [] [] [] [] ∅.

Definition data (id : string) (old new : Attrs) : ResourceData :=
  {| rdId := id; rdOld := old; rdNew := new; rdPartial := false;
     rdPartialKeys := []; rdImport := false |}.

(** An application as the platform reports it. *)
Definition reported (id nm : string) (n : Z) : CCApp :=
  {| ID := id; Name := nm; SpaceGUID := "space-1"; Ports := Some [8080];
     Instances := Some n; Memory := Some 256; DiskQuota := Some 1024;
     StackGUID := Some "stack-1"; Buildpack := None; Command := None;
     EnableSSH := Some true; HealthCheckHTTPEndpoint := None;
     HealthCheckType := Some "port"; HealthCheckTimeout := None;
     Environment := None; DockerImage := None; Diego := None;
     DockerCredentials := None; State := Some "STARTED";
     PackageState := Some "STAGED" |}.

(** A platform holding the application ["app-old"] with [n] instances:
    a created application gets the id ["app-new"]; [upload], [start],
    [delete] and [bind] are the answers of the upload, of the start, of
    every application delete and of every binding delete. *)
Definition am (n : Z) (upload start delete : option error)
    (bind : string -> option error) : AppManager :=
  {| am_CreateApp := fun _ app => (reported "app-new" (Name app) 1, None);
     am_ReadApp := fun _ id =>
       if bool_decide (id = "app-old") then (reported id "web" n, None)
       else (reported id "web" 1, None);
     am_UpdateApp := fun _ app =>
       (reported (ID app) (Name app) (default n (Instances app)), None);
     am_DeleteApp := fun _ _ _ => delete;
     am_UploadApp := fun _ _ _ _ => upload;
     am_StartApp := fun _ _ _ => start;
     am_StopApp := fun _ _ _ => None;
     am_StartDockerApp := fun _ _ _ => start;
     am_WaitForAppToStart := fun _ _ _ => None;
     am_RestageApp := fun _ _ _ => None;
     am_CreateServiceBinding := fun _ _ si _ => ("binding-" +:+ si, None);
     am_DeleteServiceBinding := fun _ id => bind id |}.

(** Routes: [mappings] are the mappings every route reports, [unmap] the
    answer of a mapping delete. *)
Definition rm (mappings : list (gmap string string))
    (unmap : string -> option error) : RouteManager :=
  {| rm_ReadRouteMappingsByRoute := fun _ _ => (mappings, None);
     rm_ReadRouteMapping := fun _ _ => ({| AppPort := 8080 |}, None);
     rm_CreateRouteMapping := fun _ routeID _ => ("mapping-" +:+ routeID, None);
     rm_DeleteRouteMapping := fun _ id => unmap id |}.

Definition lc (prepare : option error) : Local :=
  {| lc_download := fun _ _ => ("/tmp/cfapp", None);
     lc_getRepository := fun _ => ("/tmp/repo", None);
     lc_Dir := fun p => p;
     lc_prepare := fun _ => prepare;
     lc_RemoveAll := fun _ _ => None |}.

Definition session (am : AppManager) (rm : RouteManager) (lc : Local) : Session :=
  {| AppManager_ := am; RouteManager_ := rm; Local_ := lc |}.

Definition noError : string -> option error := fun _ => None.

(** A standard update that only reports that it ran. *)
Definition standardUpdate (d : ResourceData) (meta : option Session)
    (app : CCApp) (update restart restage : bool)
  : M (ResourceData * option error) :=
  mret (d, Some "standard update").

Definition blueGreenOn : list BlueGreen :=
  [ {| enable := true; validation_script := "" |} ].

(** A legacy route block with the two routes of a blue-green rollout. *)
Definition routeBlock : gmap string string :=
  {[ "stage_route" := "route-stage"; "live_route" := "route-live" ]}.

(** Everything succeeds. *)
Definition healthy (n : Z) : Session :=
  session (am n None None None noError) (rm [] noError) (lc None).

(** The healthy platform, except that every read of an application fails
    and returns the zero application with the error. *)
Definition unreadable : Session :=
  let base := am 1 None None None noError in
  session
    {| am_CreateApp := am_CreateApp base;
       am_ReadApp := fun _ _ => (CCApp_zero, Some "status code: 500");
       am_UpdateApp := am_UpdateApp base;
       am_DeleteApp := am_DeleteApp base;
       am_UploadApp := am_UploadApp base;
       am_StartApp := am_StartApp base;
       am_StopApp := am_StopApp base;
       am_StartDockerApp := am_StartDockerApp base;
       am_WaitForAppToStart := am_WaitForAppToStart base;
       am_RestageApp := am_RestageApp base;
       am_CreateServiceBinding := am_CreateServiceBinding base;
       am_DeleteServiceBinding := am_DeleteServiceBinding base |}
    (rm [] noError) (lc None).

Definition config (app : CCApp) : cfAppConfig :=
  {| cfg_app := app; cfg_routeConfig := ∅; cfg_serviceBindings := [] |}.

(** The application [resourceAppCreate] builds from [attrs]. *)
Definition desired (n : Z) : CCApp :=
  {| ID := ""; Name := "web"; SpaceGUID := "space-1"; Ports := None;
     Instances := Some n; Memory := None; DiskQuota := None;
     StackGUID := None; Buildpack := None; Command := None;
     EnableSSH := None; HealthCheckHTTPEndpoint := None;
     HealthCheckType := Some "port"; HealthCheckTimeout := None;
     Environment := None; DockerImage := None; Diego := None;
     DockerCredentials := None; State := None; PackageState := None |}.

End Demo.

(** ** The conditions of the specification, in its words *)

(** The route has a mapping to an application other than [appID]. *)
Definition mappedToOther (appID : string) (mappings : list (gmap string string))
  : Prop :=
  ∃ m, m ∈ mappings ∧ m !! "app" ≠ Some appID.

(** The route has exactly one mapping, and it is to [appID]. *)
Definition mappedOnceTo (appID : string) (mappings : list (gmap string string))
  : Prop :=
  ∃ m, mappings = [m] ∧ m !! "app" = Some appID.

(** The answers of the route-mapping creations of a trace, in order. *)
Definition mappingCreates (evs : trace) : list (string * option error) :=
  omap (fun ev => match ev with
                  | EvCreateRouteMapping routeID _ res => Some (routeID, res.2)
                  | _ => None
                  end) evs.

(** The mapping ids [resourceAppDelete] goes through: those of the legacy
    block, then those of the [routes] set. *)
Definition mappingIDsToDelete (d : ResourceData) : list string :=
  match route (rdNew d) with
  | routeConfig :: _ => omap (fun r => routeConfig !! r) legacyMappingKeys
  | [] => []
  end ++ (re_mapping_id <$> routes (rdNew d)).

(** The events of a list of answered deletes. *)
Definition bindingDeleteEvents (answers : list (string * option error)) : trace :=
  (fun a => EvDeleteServiceBinding a.1 a.2) <$> answers.
Definition mappingDeleteEvents (answers : list (string * option error)) : trace :=
  (fun a => EvDeleteRouteMapping a.1 a.2) <$> answers.

(** What makes a run of deletes abort: an error of a binding delete, or an
    error other than a 404 of a mapping delete. *)
Definition abortOf (bindings mappings : list (string * option error))
  : option error :=
  match firstErrorBy anyError bindings with
  | Some e => Some e
  | None => firstErrorBy not404 mappings
  end.

(** The mapping ids the route-mapping creations of a trace returned. *)
Definition createdMappings (evs : trace) : list string :=
  omap (fun ev => match ev with
                  | EvCreateRouteMapping _ _ res => Some res.1
                  | _ => None
                  end) evs.

(** [d.Set("instances", n)] *)
Definition set_instances (n : Z) (a : Attrs) : Attrs :=
  {| name := name a; space := space a; ports := ports a;
     instances := n; memory := memory a;
     disk_quota := disk_quota a; stack := stack a; buildpack := buildpack a;
     command := command a; enable_ssh := enable_ssh a; timeout := timeout a;
     stopped := stopped a; url := url a; docker_image := docker_image a;
     docker_credentials := docker_credentials a; git := git a;
     github_release := github_release a; add_content := add_content a;
     service_binding := service_binding a; route := route a;
     routes := routes a; environment := environment a;
     health_check_http_endpoint := health_check_http_endpoint a;
     health_check_type := health_check_type a;
     health_check_timeout := health_check_timeout a;
     blue_green := blue_green a; deposed := deposed a |}.

(** The tiers of the specification are the three flags of the update:
    [update] is the in-place tier, [restart] the restart tier, [restage]
    the restage tier. These are the flags the attributes that changed
    raise. *)
Definition flagsOfChanges (d : ResourceData) : ChangeFlags :=
  {| update :=
       HasChange name d || HasChange space d || HasChange instances d ||
       HasChange enable_ssh d || HasChange docker_image d ||
       HasChange docker_credentials d;
     restart :=
       HasChange ports d || HasChange memory d || HasChange disk_quota d ||
       HasChange command d || HasChange health_check_http_endpoint d ||
       HasChange health_check_type d || HasChange health_check_timeout d;
     restage :=
       HasChange buildpack d || HasChange stack d || HasChange environment d |}.

(** The dereferences of [changedApp] that meet nil. *)
Definition derefsNil (d : ResourceData) : bool :=
  negb (HasChange name d || okString (name (rdNew d))) ||
  negb (HasChange space d || okString (space (rdNew d))).

(** The blue-green block is there and enabled. *)
Definition blueGreenEnabled (d : ResourceData) : bool :=
  match blue_green (rdNew d) with
  | blueGreenConfig :: _ => enable blueGreenConfig
  | [] => false
  end.

(** A change of the binary (url, git, github release, added content) or
    of the service bindings. *)
Definition binaryOrBindingsChanged (d : ResourceData) : bool :=
  HasChange service_binding d || HasChange url d || HasChange git d ||
  HasChange github_release d || HasChange add_content d.

(** The end of [resourceAppUpdate], after either update. *)
Definition updateFinish (r : ResourceData * option error)
  : M (ResourceData * option error) :=
  match r.2 with
  | None => mret (Partial false r.1, None)
  | Some e => mret (r.1, Some e)
  end.

(** [diff] of a resource data. *)
Definition diffOf (d : ResourceData) : ResourceDiff :=
  {| diffOld := rdOld d; diffNew := rdNew d |}.

(** Whether the read keeps a deposed id, given the error of its existence
    check: only an error other than a 404 keeps it. *)
Definition keptOnRead (err : option error) : bool :=
  match err with
  | Some e => negb (is404 e)
  | None => false
  end.

(** Two resource data with the same prior state and the same blue-green
    block, bindings and binary attributes. *)
Definition sameUpdateInputs (d d' : ResourceData) : Prop :=
  rdOld d' = rdOld d
  ∧ blue_green (rdNew d') = blue_green (rdNew d)
  ∧ service_binding (rdNew d') = service_binding (rdNew d)
  ∧ url (rdNew d') = url (rdNew d)
  ∧ git (rdNew d') = git (rdNew d)
  ∧ github_release (rdNew d') = github_release (rdNew d)
  ∧ add_content (rdNew d') = add_content (rdNew d).

(** What holds of a run of the part of the create under the [defer], from
    the application [app] and the configuration [appConfig], that ends
    with [app'], [cfg'] and [err] after the events [evs]. *)
Definition createPost (d : ResourceData) (appConfig : cfAppConfig)
    (app app' : CCApp) (cfg' : cfAppConfig) (err : option error)
    (evs : trace) : Prop :=
  appDeletes evs = []
  ∧ (err ≠ None →
     cfg' = appConfig
     ∧ (app' = app ∨ ∃ pre, evs = pre ++ [EvReadApp (ID app) (app', err)]))
  ∧ cfg_routeConfig cfg' = cfg_routeConfig appConfig
  ∧ (okString (docker_image (rdNew d)) = false →
     (∀ pre ev post,
        evs = pre ++ ev :: post → isStart ev = true → uploadJoined pre)
     ∧ (∀ e, uploadError evs = Some e →
             Forall (fun ev => isStart ev = false) evs ∧ err ≠ None)).

(** The instance counts the scaling loop asks for, round by round, when
    every update succeeds: the new application one up, then the venerable
    one down, while there is something to move. *)
Fixpoint exchangeSchedule (rounds : nat) (newID venerableID : string)
    (desired new venerable : Z) : list (string * Z) :=
  match rounds with
  | O => []
  | S rounds' =>
      (if new <? desired then [(newID, new + 1)] else []) ++
      (if 1 <? venerable then [(venerableID, venerable - 1)] else []) ++
      exchangeSchedule rounds' newID venerableID desired
        (if new <? desired then new + 1 else new)
        (if 1 <? venerable then venerable - 1 else venerable)
  end.

(** ** Further readings of a trace *)

(** The events of the creations of the bindings [done] of the application
    [id] that the platform answered with the ids [ids]. *)
Definition bindingCreateEvents (id : string) (done : list ServiceBinding)
    (ids : list string) : trace :=
  zip_with
    (fun b bindingID =>
       EvCreateServiceBinding id (service_instance b) (params b)
         (bindingID, None))
    done ids.

(** The binding ids the successful binding creations of a trace returned. *)
Definition createdBindings (evs : trace) : list string :=
  omap (fun ev => match ev with
                  | EvCreateServiceBinding _ _ _ (bindingID, None) =>
                      Some bindingID
                  | _ => None
                  end) evs.

(** A look-up that changes nothing: the download or the repository of the
    binary, or a read of the mappings of a route. *)
Definition isLookup (ev : event) : bool :=
  match ev with
  | EvDownload _ _ | EvGetRepository _ | EvReadRouteMappingsByRoute _ _ => true
  | _ => false
  end.

(** A creation of an application. *)
Definition isCreateApp (ev : event) : bool :=
  match ev with
  | EvCreateApp _ _ => true
  | _ => false
  end.

(** The route a slot of the legacy [route] block names, empty when there
    is no block or the block has no such slot. *)
Definition routeSlot (d : ResourceData) (slot : string) : string :=
  match route (rdNew d) with
  | routeConfig :: _ => default "" (routeConfig !! slot)
  | [] => ""
  end.

(** A step that handles the binary of an application or starts it from
    one: download, repository, upload, removal of the files, [StartApp]. *)
Definition isBinaryStep (ev : event) : bool :=
  match ev with
  | EvDownload _ _ | EvGetRepository _ | EvUploadApp _ _ _ _ | EvRemoveAll _ _
  | EvStartApp _ _ _ => true
  | _ => false
  end.

(** The application [app] as a platform reports it back: with a state and
    its ports. *)
Definition reportedBack (app : CCApp) (state : string) (ps : list Z) : CCApp :=
  {| ID := ID app; Name := Name app; SpaceGUID := SpaceGUID app;
     Ports := Some ps; Instances := Instances app; Memory := Memory app;
     DiskQuota := DiskQuota app; StackGUID := StackGUID app;
     Buildpack := Buildpack app; Command := Command app;
     EnableSSH := EnableSSH app;
     HealthCheckHTTPEndpoint := HealthCheckHTTPEndpoint app;
     HealthCheckType := HealthCheckType app;
     HealthCheckTimeout := HealthCheckTimeout app;
     Environment := Environment app; DockerImage := DockerImage app;
     Diego := Diego app; DockerCredentials := DockerCredentials app;
     State := Some state; PackageState := PackageState app |}.

(** The attributes that do not come from the application of the platform:
    they are the same in [a] and [a']. *)
Definition sameOwnAttributes (a a' : Attrs) : Prop :=
  timeout a' = timeout a
  ∧ url a' = url a
  ∧ docker_image a' = docker_image a
  ∧ docker_credentials a' = docker_credentials a
  ∧ git a' = git a
  ∧ github_release a' = github_release a
  ∧ add_content a' = add_content a
  ∧ service_binding a' = service_binding a
  ∧ route a' = route a
  ∧ routes a' = routes a
  ∧ blue_green a' = blue_green a
  ∧ deposed a' = deposed a.

(** The ids of the application reads of a trace, in order. *)
Definition readAppIDs (evs : trace) : list string :=
  omap (fun ev => match ev with
                  | EvReadApp appID _ => Some appID
                  | _ => None
                  end) evs.

(** A read of an application. *)
Definition isReadApp (ev : event) : bool :=
  match ev with
  | EvReadApp _ _ => true
  | _ => false
  end.

(** An update of an application that the platform refused. *)
Definition isFailedUpdate (ev : event) : bool :=
  match ev with
  | EvUpdateApp _ (_, Some _) => true
  | _ => false
  end.

(** The instance counts asked for the application [id] by the updates of
    a trace, in order. *)
Definition instanceUpdatesOf (id : string) (evs : trace) : list Z :=
  (filter (fun p => p.1 = id) (instanceUpdates evs)).*2.

(** The counts from [from + 1] up to [to], and from [from - 1] down to
    [to]. *)
Definition countUp (from to : Z) : list Z := seqZ (from + 1) (to - from).
Definition countDown (from to : Z) : list Z := reverse (seqZ to (from - to)).

(** A restage of an application. *)
Definition isRestage (ev : event) : bool :=
  match ev with
  | EvRestageApp _ _ _ => true
  | _ => false
  end.

(** A removal of local files. *)
Definition isRemoveAll (ev : event) : bool :=
  match ev with
  | EvRemoveAll _ _ => true
  | _ => false
  end.

(** A creation of a service binding. *)
Definition isCreateServiceBinding (ev : event) : bool :=
  match ev with
  | EvCreateServiceBinding _ _ _ _ => true
  | _ => false
  end.

(** A change of the binary of the application: [url], [git],
    [github_release] or [add_content]. *)
Definition binaryChanged (d : ResourceData) : bool :=
  HasChange url d || HasChange git d || HasChange github_release d ||
  HasChange add_content d.

(** A look-up of a service instance that failed with an error other than
    "not found". *)
Definition isOtherError (answer : string * option findError) : bool :=
  match answer.2 with
  | Some (OtherError _) => true
  | _ => false
  end.

(** The values [validateAppHealthCheckType] accepts. *)
Definition healthCheckTypes : list string := ["port"; "process"; "http"; "none"].

(** ** More of the platform to run the operations on *)

Module Sample.

(** The attributes [a] with the docker image [img]. *)
Definition withDocker (img : string) (a : Attrs) : Attrs :=
  {| name := name a; space := space a; ports := ports a;
     instances := instances a; memory := memory a;
     disk_quota := disk_quota a; stack := stack a; buildpack := buildpack a;
     command := command a; enable_ssh := enable_ssh a; timeout := timeout a;
     stopped := stopped a; url := url a; docker_image := img;
     docker_credentials := docker_credentials a; git := git a;
     github_release := github_release a; add_content := add_content a;
     service_binding := service_binding a; route := route a;
     routes := routes a; environment := environment a;
     health_check_http_endpoint := health_check_http_endpoint a;
     health_check_type := health_check_type a;
     health_check_timeout := health_check_timeout a;
     blue_green := blue_green a; deposed := deposed a |}.

(** The attributes [a] with [stopped] set to [b]. *)
Definition withStopped (b : bool) (a : Attrs) : Attrs :=
  {| name := name a; space := space a; ports := ports a;
     instances := instances a; memory := memory a;
     disk_quota := disk_quota a; stack := stack a; buildpack := buildpack a;
     command := command a; enable_ssh := enable_ssh a; timeout := timeout a;
     stopped := b; url := url a; docker_image := docker_image a;
     docker_credentials := docker_credentials a; git := git a;
     github_release := github_release a; add_content := add_content a;
     service_binding := service_binding a; route := route a;
     routes := routes a; environment := environment a;
     health_check_http_endpoint := health_check_http_endpoint a;
     health_check_type := health_check_type a;
     health_check_timeout := health_check_timeout a;
     blue_green := blue_green a; deposed := deposed a |}.

(** The error of the read of an application, by its id: ["app-gone"] is
    not there any more, ["app-unknown"] cannot be read, any other
    application is there. *)
Definition answers (id : string) : option error :=
  if bool_decide (id = "app-gone") then Some "status code: 404"
  else if bool_decide (id = "app-unknown") then Some "status code: 500"
  else None.

(** The platform of [Demo], except that the read of an application
    returns the zero application and the error [answer] gives its id. *)
Definition checked (answer : string -> option error) : Session :=
  let base := Demo.am 1 None None None Demo.noError in
  Demo.session
    {| am_CreateApp := am_CreateApp base;
       am_ReadApp := fun _ id => (CCApp_zero, answer id);
       am_UpdateApp := am_UpdateApp base;
       am_DeleteApp := am_DeleteApp base;
       am_UploadApp := am_UploadApp base;
       am_StartApp := am_StartApp base;
       am_StopApp := am_StopApp base;
       am_StartDockerApp := am_StartDockerApp base;
       am_WaitForAppToStart := am_WaitForAppToStart base;
       am_RestageApp := am_RestageApp base;
       am_CreateServiceBinding := am_CreateServiceBinding base;
       am_DeleteServiceBinding := am_DeleteServiceBinding base |}
    (Demo.rm [] Demo.noError) (Demo.lc None).

(** A read of the route mappings of an application that answers
    [mappings] and [err] and is not recorded. *)
Definition mappingsOf (mappings : list (gmap string value))
    (err : option error)
  : RouteManager -> string -> M (list (gmap string value) * option error) :=
  fun _ _ t => (Done (mappings, err), t).

(** Stand-ins for the schema library: a [d.Set] of the route block that
    writes nothing, and a set kept as the list of its elements. *)
Definition keepRoute : gmap string (option value) -> ResourceData -> ResourceData :=
  fun _ d => d.
Definition contains (r : RouteEntry) (l : list RouteEntry) : bool :=
  bool_decide (r ∈ l).
Definition asSet (l : list RouteEntry) : list RouteEntry := l.

(** A stand-in for [getListChangedSchemaLists]: the bindings of the old
    list that are not in the new one, and those of the new list that are
    not in the old one, by service instance. *)
Definition changedBindings (old new : list ServiceBinding)
  : list ServiceBinding * list ServiceBinding :=
  (filter (fun b => service_instance b ∉ service_instance <$> new) old,
   filter (fun b => service_instance b ∉ service_instance <$> old) new).

(** A block of the routes that has nothing to do. *)
Definition noRoutes
  : ResourceData -> Session -> CCApp -> M (ResourceData * option error) :=
  fun d _ _ => mret (d, None).

(** A binding of the service instance ["db"], not made yet. *)
Definition db : ServiceBinding :=
  {| service_instance := "db"; params := None; binding_id := "" |}.

(** A legacy route block with a default route and its mapping. *)
Definition defaultRouteBlock : gmap string string :=
  {[ "default_route" := "route-1"; "default_route_mapping_id" := "mapping-1" ]}.

End Sample.

(** * Properties *)

(** ** Running the monad *)

Lemma run_bind {A B : Type} (m : M A) (k : A -> M B) (t : trace) :
  (m ≫= k) t =
  match m t with
  | (Done a, t') => k a t'
  | (Panic, t') => (Panic, t')
  end.
Proof. reflexivity. Qed.

Lemma run_ret {A : Type} (a : A) (t : trace) : (mret a : M A) t = (Done a, t).
Proof. reflexivity. Qed.

Lemma run_perform {A : Type} (ask : trace -> A) (ev : A -> event) (t : trace) :
  perform ask ev t = (Done (ask t), t ++ [ev (ask t)]).
Proof. reflexivity. Qed.

Ltac run :=
  repeat (rewrite ?run_bind, ?run_ret, ?run_perform; cbn beta iota).

(** ** Route validation *)

(** C7, as stated, fails: a route with two mappings, both to the excluded
    application, has no mapping to another application and is rejected all
    the same; and a route whose mappings cannot be read is rejected with
    the error of the read, though no mapping to another application is
    known. *)
Lemma validateRoute_rejects_two_mappings_of_excluded_app :
  let mapping : gmap string string := {[ "app" := "app-1" ]} in
  let unreadable : RouteManager :=
    {| rm_ReadRouteMappingsByRoute := fun _ _ => ([], Some "status code: 500");
       rm_ReadRouteMapping := fun _ _ => ({| AppPort := 0 |}, None);
       rm_CreateRouteMapping := fun _ _ _ => ("", None);
       rm_DeleteRouteMapping := fun _ _ => None |} in
  (validateRoute {[ "default_route" := "route-1" ]} "default_route" "app-1"
       (Demo.rm [mapping; mapping] Demo.noError) []
     = (Done ("route-1", Some (errRouteAlreadyMapped "route-1")),
        [EvReadRouteMappingsByRoute "route-1" ([mapping; mapping], None)])
   ∧ ¬ mappedToOther "app-1" [mapping; mapping])
  ∧ (validateRoute {[ "default_route" := "route-1" ]} "default_route" "app-1"
       unreadable []
     = (Done ("route-1", Some "status code: 500"),
        [EvReadRouteMappingsByRoute "route-1" ([], Some "status code: 500")])
     ∧ ¬ mappedToOther "app-1" []).
Proof.
  split; (split; [reflexivity |]).
  - intros (m & Hin & Hne). apply Hne.
    repeat (apply elem_of_cons in Hin as [-> | Hin]; [reflexivity |]).
    by apply elem_of_nil in Hin.
  - intros (m & Hin & _). by apply elem_of_nil in Hin.
Qed.

(** C7, amended: [validateRoute] reads the mappings of the route of the
    slot once; it returns the error of that read when it fails, the
    error "already mapped" when the route has mappings that are not one
    single mapping to the excluded application, and the route id without
    error exactly when the read succeeds and the route is unmapped or
    mapped once, to the excluded application. A slot that is not in the
    configuration yields the empty id, no error and no call. *)
Theorem validateRoute_accepts_iff (routeConfig : gmap string string)
    (slot appID : string) (rm : RouteManager) (t : trace) :
  match routeConfig !! slot with
  | None => validateRoute routeConfig slot appID rm t = (Done ("", None), t)
  | Some routeID =>
      let answer := rm_ReadRouteMappingsByRoute rm t routeID in
      ∃ err,
        validateRoute routeConfig slot appID rm t
          = (Done (routeID, err),
             t ++ [EvReadRouteMappingsByRoute routeID answer])
        ∧ (err = None ↔
             answer.2 = None ∧ (answer.1 = [] ∨ mappedOnceTo appID answer.1))
        ∧ (∀ e, answer.2 = Some e → err = Some e)
        ∧ (answer.2 = None → err ≠ None →
             err = Some (errRouteAlreadyMapped routeID))
  end.
Proof.
  unfold validateRoute, mappedOnceTo.
  destruct (routeConfig !! slot) as [routeID|]; [|done].
  cbn zeta. unfold ReadRouteMappingsByRoute. run.
  destruct (rm_ReadRouteMappingsByRoute rm t routeID) as [mappings rerr].
  cbn [fst snd]. destruct rerr as [e|].
  - exists (Some e). split; [by destruct mappings |]. naive_solver.
  - destruct mappings as [|m0 rest]; run.
    + exists None. naive_solver.
    + destruct (bool_decide (rest = [])) eqn:Hrest;
        [destruct (bool_decide (m0 !! "app" = Some appID)) eqn:Happ |];
        cbn [andb]; run.
      * apply bool_decide_eq_true in Hrest as ->.
        apply bool_decide_eq_true in Happ.
        exists None. naive_solver.
      * apply bool_decide_eq_false in Happ.
        eexists. split; [done|]. naive_solver.
      * apply bool_decide_eq_false in Hrest.
        eexists. split; [done|]. naive_solver.
Qed.

(** The theorem at a route mapped once, to the excluded application. *)
Lemma validateRoute_accepts_iff_witness :
  let mapping : gmap string string := {[ "app" := "app-1" ]} in
  ∃ err,
    validateRoute {[ "live_route" := "route-1" ]} "live_route" "app-1"
        (Demo.rm [mapping] Demo.noError) []
      = (Done ("route-1", err),
         [EvReadRouteMappingsByRoute "route-1" ([mapping], None)])
    ∧ err = None.
Proof.
  intros mapping.
  destruct (validateRoute_accepts_iff {[ "live_route" := "route-1" ]}
              "live_route" "app-1" (Demo.rm [mapping] Demo.noError) [])
    as (err & Heq & Hiff & _).
  exists err. split; [exact Heq |].
  apply Hiff. split; [reflexivity |]. right. exists mapping. split; reflexivity.
Defined.

(** ** Loops of deletes *)

Lemma firstErrorBy_app hard a b :
  firstErrorBy hard (a ++ b) =
  match firstErrorBy hard a with
  | Some e => Some e
  | None => firstErrorBy hard b
  end.
Proof.
  induction a as [|[id [e|]] a IH]; cbn; [done | | done].
  by destruct (hard e).
Qed.

Lemma deletesUpToFirst_nil hard : deletesUpToFirst hard [] [].
Proof. split; [by exists [] | done]. Qed.

Lemma deletesUpToFirst_stop hard id e ids :
  hard e = true → deletesUpToFirst hard (id :: ids) [(id, Some e)].
Proof.
  intros He. split; [|done]. exists ids. split; [done|].
  cbn. by rewrite He.
Qed.

Lemma deletesUpToFirst_step hard id r ids answers :
  firstErrorBy hard [(id, r)] = None →
  deletesUpToFirst hard ids answers →
  deletesUpToFirst hard (id :: ids) ((id, r) :: answers).
Proof.
  intros Hr [(rest & -> & Hrest) Hlast]. split.
  - exists rest. split; [done|]. intros H. apply Hrest.
    change ((id, r) :: answers) with ([(id, r)] ++ answers) in H.
    rewrite firstErrorBy_app, Hr in H. done.
  - destruct answers as [|a answers]; [done|].
    change (removelast ((id, r) :: a :: answers))
      with ([(id, r)] ++ removelast (a :: answers)).
    by rewrite firstErrorBy_app, Hr.
Qed.

Lemma mappingDeletes_app a b :
  mappingDeletes (a ++ b) = mappingDeletes a ++ mappingDeletes b.
Proof. apply omap_app. Qed.

Lemma bindingDeletes_app a b :
  bindingDeletes (a ++ b) = bindingDeletes a ++ bindingDeletes b.
Proof. apply omap_app. Qed.

Lemma appDeletes_app a b : appDeletes (a ++ b) = appDeletes a ++ appDeletes b.
Proof. apply omap_app. Qed.

Lemma mappingCreates_app a b :
  mappingCreates (a ++ b) = mappingCreates a ++ mappingCreates b.
Proof. apply omap_app. Qed.

Lemma createdMappings_app a b :
  createdMappings (a ++ b) = createdMappings a ++ createdMappings b.
Proof. apply omap_app. Qed.

Lemma mappingDeletes_of answers :
  mappingDeletes (mappingDeleteEvents answers) = answers.
Proof. induction answers as [|[??] ? IH]; cbn; [done|]. by f_equal. Qed.

Lemma bindingDeletes_of answers :
  bindingDeletes (bindingDeleteEvents answers) = answers.
Proof. induction answers as [|[??] ? IH]; cbn; [done|]. by f_equal. Qed.

Lemma mappingDeletes_of_bindings answers :
  mappingDeletes (bindingDeleteEvents answers) = [].
Proof. by induction answers as [|[??] ? IH]. Qed.

Lemma bindingDeletes_of_mappings answers :
  bindingDeletes (mappingDeleteEvents answers) = [].
Proof. by induction answers as [|[??] ? IH]. Qed.

Lemma appDeletes_of_bindings answers :
  appDeletes (bindingDeleteEvents answers) = [].
Proof. by induction answers as [|[??] ? IH]. Qed.

Lemma appDeletes_of_mappings answers :
  appDeletes (mappingDeleteEvents answers) = [].
Proof. by induction answers as [|[??] ? IH]. Qed.

Lemma deletesUpToFirst_app hard ids1 ids2 answers1 answers2 :
  deletesUpToFirst hard ids1 answers1 →
  firstErrorBy hard answers1 = None →
  deletesUpToFirst hard ids2 answers2 →
  deletesUpToFirst hard (ids1 ++ ids2) (answers1 ++ answers2).
Proof.
  intros [(rest1 & -> & Hrest1) Hlast1] Hnone [(rest2 & -> & Hrest2) Hlast2].
  rewrite (Hrest1 Hnone), app_nil_r. split.
  - exists rest2. rewrite fmap_app, <- app_assoc. split; [done|].
    rewrite firstErrorBy_app, Hnone. done.
  - destruct answers2 as [|a answers2].
    + by rewrite app_nil_r.
    + rewrite removelast_app by done. by rewrite firstErrorBy_app, Hnone.
Qed.

Lemma deletesUpToFirst_abort hard ids1 ids2 answers1 e :
  deletesUpToFirst hard ids1 answers1 →
  firstErrorBy hard answers1 = Some e →
  deletesUpToFirst hard (ids1 ++ ids2) answers1.
Proof.
  intros [(rest1 & -> & Hrest1) Hlast1] He. split; [|done].
  exists (rest1 ++ ids2). rewrite <- app_assoc. split; [done|].
  by rewrite He.
Qed.

Lemma nonemptyIDs_cons s ids :
  nonemptyIDs (s :: ids) = if nonempty s then s :: nonemptyIDs ids else nonemptyIDs ids.
Proof.
  unfold nonemptyIDs. rewrite filter_cons.
  destruct (nonempty s); [by rewrite decide_True | by rewrite decide_False].
Qed.

(** [removeServiceBindings]: the calls are the deletes of the non-empty
    binding ids up to the first error, which is the result. *)
Lemma removeServiceBindings_run (delete : list ServiceBinding)
    (am : AppManager) (t : trace) :
  ∃ answers,
    removeServiceBindings delete am t
      = (Done (firstErrorBy anyError answers), t ++ bindingDeleteEvents answers)
    ∧ deletesUpToFirst anyError (nonemptyIDs (binding_id <$> delete)) answers.
Proof.
  revert t. induction delete as [|b delete IH]; intros t.
  - exists []. cbn. run. rewrite app_nil_r. split; [done|].
    apply deletesUpToFirst_nil.
  - rewrite fmap_cons, nonemptyIDs_cons. cbn [removeServiceBindings].
    destruct (nonempty (binding_id b)) eqn:Hb.
    + unfold DeleteServiceBinding. run.
      destruct (am_DeleteServiceBinding am t (binding_id b)) as [e|] eqn:Hans; run.
      * exists [(binding_id b, Some e)]. split; [done|].
        by apply deletesUpToFirst_stop.
      * destruct (IH (t ++ [EvDeleteServiceBinding (binding_id b) None]))
          as (answers & -> & Hup).
        exists ((binding_id b, None) :: answers). split.
        -- cbn. by rewrite <- app_assoc.
        -- by apply deletesUpToFirst_step.
    + apply IH.
Qed.

Lemma not404_soft e : is404 e = true → not404 e = false.
Proof. unfold not404. by intros ->. Qed.

Lemma not404_hard e : is404 e = false → not404 e = true.
Proof. unfold not404. by intros ->. Qed.

Lemma nonemptyIDs_app ids1 ids2 :
  nonemptyIDs (ids1 ++ ids2) = nonemptyIDs ids1 ++ nonemptyIDs ids2.
Proof. apply filter_app. Qed.

(** The loop of [resourceAppDelete] over the [routes] set: a 404 is
    passed over, any other error stops the loop and is the result. *)
Lemma deleteRoutesMappings_run (rm : RouteManager) (routesList : list RouteEntry)
    (t : trace) :
  ∃ answers,
    deleteRoutesMappings rm routesList t
      = (Done (firstErrorBy not404 answers), t ++ mappingDeleteEvents answers)
    ∧ deletesUpToFirst not404 (nonemptyIDs (re_mapping_id <$> routesList)) answers.
Proof.
  revert t. induction routesList as [|data rest IH]; intros t.
  - exists []. cbn. run. rewrite app_nil_r. split; [done|].
    apply deletesUpToFirst_nil.
  - rewrite fmap_cons, nonemptyIDs_cons. cbn [deleteRoutesMappings].
    destruct (nonempty (re_mapping_id data)) eqn:Hid; [|apply IH].
    unfold DeleteRouteMapping. run.
    destruct (rm_DeleteRouteMapping rm t (re_mapping_id data)) as [e|] eqn:Hans;
      [destruct (is404 e) eqn:H404 |]; cbn [negb]; run.
    + destruct (IH (t ++ [EvDeleteRouteMapping (re_mapping_id data) (Some e)]))
        as (answers & -> & Hup).
      exists ((re_mapping_id data, Some e) :: answers). split.
      * cbn. rewrite (not404_soft _ H404). by rewrite <- app_assoc.
      * apply deletesUpToFirst_step; [|done]. cbn. by rewrite (not404_soft _ H404).
    + exists [(re_mapping_id data, Some e)]. split.
      * cbn. by rewrite (not404_hard _ H404).
      * apply deletesUpToFirst_stop. by apply not404_hard.
    + destruct (IH (t ++ [EvDeleteRouteMapping (re_mapping_id data) None]))
        as (answers & -> & Hup).
      exists ((re_mapping_id data, None) :: answers). split.
      * cbn. by rewrite <- app_assoc.
      * by apply deletesUpToFirst_step.
Qed.

(** The loop of [resourceAppDelete] over the legacy mapping ids. *)
Lemma deleteLegacyMappings_run (rm : RouteManager)
    (routeConfig : gmap string string) (keys : list string) (t : trace) :
  ∃ answers,
    deleteLegacyMappings rm routeConfig keys t
      = (Done (firstErrorBy not404 answers), t ++ mappingDeleteEvents answers)
    ∧ deletesUpToFirst not404
        (nonemptyIDs (omap (fun r => routeConfig !! r) keys)) answers.
Proof.
  revert t. induction keys as [|r keys IH]; intros t.
  - exists []. cbn. run. rewrite app_nil_r. split; [done|].
    apply deletesUpToFirst_nil.
  - cbn [deleteLegacyMappings omap list_omap].
    destruct (routeConfig !! r) as [mappingID|]; [|apply IH].
    rewrite nonemptyIDs_cons.
    destruct (nonempty mappingID) eqn:Hid; [|apply IH].
    unfold DeleteRouteMapping. run.
    destruct (rm_DeleteRouteMapping rm t mappingID) as [e|] eqn:Hans;
      [destruct (is404 e) eqn:H404 |]; cbn [negb]; run.
    + destruct (IH (t ++ [EvDeleteRouteMapping mappingID (Some e)]))
        as (answers & -> & Hup).
      exists ((mappingID, Some e) :: answers). split.
      * cbn. rewrite (not404_soft _ H404). by rewrite <- app_assoc.
      * apply deletesUpToFirst_step; [|done]. cbn. by rewrite (not404_soft _ H404).
    + exists [(mappingID, Some e)]. split.
      * cbn. by rewrite (not404_hard _ H404).
      * apply deletesUpToFirst_stop. by apply not404_hard.
    + destruct (IH (t ++ [EvDeleteRouteMapping mappingID None]))
        as (answers & -> & Hup).
      exists ((mappingID, None) :: answers). split.
      * cbn. by rewrite <- app_assoc.
      * by apply deletesUpToFirst_step.
Qed.

(** The loop "mappings to remove" of the standard update. *)
Lemma removeRouteMappings_run (setRemove : RouteEntry -> list RouteEntry -> list RouteEntry)
    (rm : RouteManager) (toRemove updatedRoutes : list RouteEntry) (t : trace) :
  ∃ answers updated,
    removeRouteMappings setRemove rm toRemove updatedRoutes t
      = (Done (updated, firstErrorBy not404 answers),
         t ++ mappingDeleteEvents answers)
    ∧ deletesUpToFirst not404 (nonemptyIDs (re_mapping_id <$> toRemove)) answers.
Proof.
  revert t updatedRoutes.
  induction toRemove as [|r rest IH]; intros t updatedRoutes.
  - exists [], updatedRoutes. cbn. run. rewrite app_nil_r. split; [done|].
    apply deletesUpToFirst_nil.
  - rewrite fmap_cons, nonemptyIDs_cons. cbn [removeRouteMappings].
    destruct (nonempty (re_mapping_id r)) eqn:Hid; [|apply IH].
    unfold DeleteRouteMapping. run.
    destruct (rm_DeleteRouteMapping rm t (re_mapping_id r)) as [e|] eqn:Hans;
      [destruct (is404 e) eqn:H404 |]; cbn [negb]; run.
    + destruct (IH (t ++ [EvDeleteRouteMapping (re_mapping_id r) (Some e)])
                  (setRemove r updatedRoutes))
        as (answers & updated & -> & Hup).
      exists ((re_mapping_id r, Some e) :: answers), updated. split.
      * cbn. rewrite (not404_soft _ H404). by rewrite <- app_assoc.
      * apply deletesUpToFirst_step; [|done]. cbn. by rewrite (not404_soft _ H404).
    + exists [(re_mapping_id r, Some e)], updatedRoutes. split.
      * cbn. by rewrite (not404_hard _ H404).
      * apply deletesUpToFirst_stop. by apply not404_hard.
    + destruct (IH (t ++ [EvDeleteRouteMapping (re_mapping_id r) None])
                  (setRemove r updatedRoutes))
        as (answers & updated & -> & Hup).
      exists ((re_mapping_id r, None) :: answers), updated. split.
      * cbn. by rewrite <- app_assoc.
      * by apply deletesUpToFirst_step.
Qed.

(** ** Delete *)

Lemma mappingDeleteEvents_app a b :
  mappingDeleteEvents (a ++ b) = mappingDeleteEvents a ++ mappingDeleteEvents b.
Proof. apply fmap_app. Qed.

Lemma removeServiceBindings_guard (l : list ServiceBinding) (am : AppManager) :
  (if okList l then removeServiceBindings l am else mret None)
  = removeServiceBindings l am.
Proof. by destruct l. Qed.

Lemma deleteRoutesMappings_guard (rm : RouteManager) (l : list RouteEntry) :
  (if okList l then deleteRoutesMappings rm l else mret None)
  = deleteRoutesMappings rm l.
Proof. by destruct l. Qed.

(** [resourceAppDelete] with a session: the binding deletes, then the
    mapping deletes, then, unless one of them aborted, the application
    delete, whose answer is not looked at. *)
Lemma resourceAppDelete_run (d : ResourceData) (session : Session) (t : trace) :
  ∃ bindings mappings,
    let pre := t ++ bindingDeleteEvents bindings ++ mappingDeleteEvents mappings in
    resourceAppDelete d (Some session) t
      = (Done (abortOf bindings mappings),
         match abortOf bindings mappings with
         | None =>
             pre ++ [EvDeleteApp (rdId d) false
                       (am_DeleteApp (AppManager_ session) pre (rdId d) false)]
         | Some _ => pre
         end)
    ∧ deletesUpToFirst anyError
        (nonemptyIDs (binding_id <$> service_binding (rdNew d))) bindings
    ∧ (firstErrorBy anyError bindings = None →
       deletesUpToFirst not404 (nonemptyIDs (mappingIDsToDelete d)) mappings)
    ∧ (firstErrorBy anyError bindings ≠ None → mappings = []).
Proof.
  unfold resourceAppDelete, abortOf, mappingIDsToDelete. cbn zeta.
  rewrite removeServiceBindings_guard, deleteRoutesMappings_guard. run.
  destruct (removeServiceBindings_run (service_binding (rdNew d))
              (AppManager_ session) t) as (bindings & -> & Hb).
  exists bindings.
  destruct (firstErrorBy anyError bindings) as [e|] eqn:Hbe; run.
  { exists []. cbn. rewrite app_nil_r. done. }
  set (t1 := t ++ bindingDeleteEvents bindings).
  assert (∃ legacy,
    (match route (rdNew d) with
     | routeConfig :: _ =>
         deleteLegacyMappings (RouteManager_ session) routeConfig legacyMappingKeys
     | [] => mret None
     end) t1 = (Done (firstErrorBy not404 legacy), t1 ++ mappingDeleteEvents legacy)
    ∧ deletesUpToFirst not404
        (nonemptyIDs
           match route (rdNew d) with
           | routeConfig :: _ => omap (fun r => routeConfig !! r) legacyMappingKeys
           | [] => []
           end) legacy) as (legacy & -> & Hl).
  { destruct (route (rdNew d)) as [|routeConfig ?].
    - exists []. run. rewrite app_nil_r. split; [done|]. apply deletesUpToFirst_nil.
    - apply deleteLegacyMappings_run. }
  rewrite nonemptyIDs_app.
  destruct (firstErrorBy not404 legacy) as [e|] eqn:Hle; run.
  { exists legacy. rewrite Hle. unfold t1. rewrite <- app_assoc.
    split; [done|]. split; [done|]. split; [|done].
    intros _. by eapply deletesUpToFirst_abort. }
  destruct (deleteRoutesMappings_run (RouteManager_ session) (routes (rdNew d))
              (t1 ++ mappingDeleteEvents legacy)) as (set & -> & Hs).
  exists (legacy ++ set). rewrite firstErrorBy_app, Hle.
  rewrite !mappingDeleteEvents_app. unfold t1. rewrite <- !app_assoc.
  destruct (firstErrorBy not404 set) as [e|] eqn:Hse; run.
  - split; [done|]. split; [done|]. split; [|done].
    intros _. by apply deletesUpToFirst_app.
  - unfold DeleteApp. run. rewrite <- !app_assoc.
    split; [done|]. split; [done|]. split; [|done].
    intros _. by apply deletesUpToFirst_app.
Qed.

(** C10: with a session, [resourceAppDelete] can only be aborted by an
    error of a binding delete or by an error other than a 404 of a
    route-mapping delete. Otherwise it calls [DeleteApp(d.Id(), false)]
    last and returns nil, whatever that call answers: every error of the
    application delete is swallowed. *)
Theorem resourceAppDelete_swallows_DeleteApp_errors (d : ResourceData)
    (session : Session) (t : trace) :
  ∃ err evs,
    resourceAppDelete d (Some session) t = (Done err, t ++ evs)
    ∧ err = abortOf (bindingDeletes evs) (mappingDeletes evs)
    ∧ match err with
      | None =>
          ∃ pre, evs = pre ++ [EvDeleteApp (rdId d) false
                                 (am_DeleteApp (AppManager_ session) (t ++ pre)
                                    (rdId d) false)]
                 ∧ appDeletes pre = []
      | Some _ => appDeletes evs = []
      end.
Proof.
  destruct (resourceAppDelete_run d session t)
    as (bindings & mappings & Hrun & _).
  cbn zeta in Hrun. rewrite Hrun. clear Hrun.
  exists (abortOf bindings mappings).
  destruct (abortOf bindings mappings) as [e|] eqn:Habort.
  - exists (bindingDeleteEvents bindings ++ mappingDeleteEvents mappings).
    split; [done|].
    rewrite bindingDeletes_app, mappingDeletes_app, appDeletes_app.
    rewrite bindingDeletes_of, bindingDeletes_of_mappings,
      mappingDeletes_of, mappingDeletes_of_bindings,
      appDeletes_of_bindings, appDeletes_of_mappings, app_nil_r.
    done.
  - eexists ((bindingDeleteEvents bindings ++ mappingDeleteEvents mappings) ++ [_]).
    split; [by rewrite <- !app_assoc|].
    split.
    + rewrite !bindingDeletes_app, !mappingDeletes_app.
      rewrite bindingDeletes_of, bindingDeletes_of_mappings,
        mappingDeletes_of, mappingDeletes_of_bindings. cbn.
      by rewrite !app_nil_r.
    + exists (bindingDeleteEvents bindings ++ mappingDeleteEvents mappings).
      rewrite <- !app_assoc. split; [done|].
      rewrite appDeletes_app.
      by rewrite appDeletes_of_bindings, appDeletes_of_mappings.
Qed.

(** The theorem on a platform whose application delete fails with a 500:
    the delete returns nil. *)
Lemma resourceAppDelete_swallows_DeleteApp_errors_witness :
  let failing :=
    Demo.session
      (Demo.am 1 None None (Some "status code: 500") Demo.noError)
      (Demo.rm [] Demo.noError) (Demo.lc None) in
  (resourceAppDelete (Demo.data "app-old" Demo.attrs Demo.attrs)
     (Some failing) []).1 = Done None.
Proof.
  intros failing.
  destruct (resourceAppDelete_swallows_DeleteApp_errors
              (Demo.data "app-old" Demo.attrs Demo.attrs) failing [])
    as (err & evs & Hrun & _ & _).
  destruct err as [e|]; [| by rewrite Hrun].
  vm_compute in Hrun. discriminate Hrun.
Defined.

(** ** Removal of service bindings *)

(** C9, as stated, fails: when the delete of a binding fails, the
    bindings after it are not deleted, whatever their ids. *)
Lemma removeServiceBindings_stops_at_failed_delete :
  let entries :=
    [ {| service_instance := "db"; params := None; binding_id := "binding-1" |};
      {| service_instance := "cache"; params := None; binding_id := "binding-2" |} ] in
  let am :=
    Demo.am 1 None None None
      (fun id => if bool_decide (id = "binding-1")
                 then Some "status code: 500" else None) in
  removeServiceBindings entries am []
    = (Done (Some "status code: 500"),
       [EvDeleteServiceBinding "binding-1" (Some "status code: 500")])
  ∧ nonemptyIDs (binding_id <$> entries) = ["binding-1"; "binding-2"]
  ∧ (bindingDeletes (removeServiceBindings entries am []).2).*1
      ≠ nonemptyIDs (binding_id <$> entries).
Proof. split; [reflexivity|]. split; [reflexivity|]. discriminate. Qed.

(** C9, amended: an entry with an empty binding id is passed over, with
    no call and no error (the run is that of the list without such
    entries); the delete capability is called for the entries with a
    non-empty binding id, in order, up to the first delete that fails,
    whose error is returned; when no delete fails it is called for
    exactly those entries and nil is returned. *)
Theorem removeServiceBindings_skips_empty_ids (delete : list ServiceBinding)
    (am : AppManager) (t : trace) :
  removeServiceBindings delete am t
    = removeServiceBindings
        (filter (fun b => nonempty (binding_id b) = true) delete) am t
  ∧ ∃ answers,
      removeServiceBindings delete am t
        = (Done (firstErrorBy anyError answers), t ++ bindingDeleteEvents answers)
      ∧ deletesUpToFirst anyError (nonemptyIDs (binding_id <$> delete)) answers.
Proof.
  split; [|apply removeServiceBindings_run].
  revert t. induction delete as [|b delete IH]; intros t; [done|].
  rewrite filter_cons. cbn [removeServiceBindings].
  destruct (nonempty (binding_id b)) eqn:Hb in |- *.
  - rewrite decide_True by done. cbn [removeServiceBindings]. rewrite Hb.
    unfold DeleteServiceBinding. run.
    destruct (am_DeleteServiceBinding am t (binding_id b)); [done|]. apply IH.
  - rewrite decide_False by done. apply IH.
Qed.

(** The theorem on a list whose first entry has no binding id. *)
Lemma removeServiceBindings_skips_empty_ids_witness :
  let entries :=
    [ {| service_instance := "db"; params := None; binding_id := "" |};
      {| service_instance := "cache"; params := None; binding_id := "binding-2" |} ] in
  removeServiceBindings entries (AppManager_ (Demo.healthy 1)) []
  = (Done None, [EvDeleteServiceBinding "binding-2" None]).
Proof.
  intros entries.
  destruct (removeServiceBindings_skips_empty_ids entries
              (AppManager_ (Demo.healthy 1)) []) as [-> _].
  reflexivity.
Defined.

(** ** Route-mapping deletes and the 404 *)

(** C8: in the three places that delete route mappings (the update of a
    legacy slot, the removal loop of the [routes] set in the standard
    update, and [resourceAppDelete]), an answer 404 to a delete is
    passed over: the operation goes on as after a successful delete and
    the 404 is not returned; any other error of a delete is returned
    at once. *)
Theorem route_mapping_delete_tolerates_404 :
  (∀ (old new : gmap string string) (route appID : string)
     (rm : RouteManager) (t : trace),
     ∃ res evs,
       updateAppRouteMappings old new route appID rm t = (Done res, t ++ evs)
       ∧ res.2 = abortOf (mappingCreates evs) (mappingDeletes evs)
       ∧ res.1 = match res.2 with
                 | None => default "" (last (createdMappings evs))
                 | Some _ => ""
                 end)
  ∧ (∀ (setRemove : RouteEntry -> list RouteEntry -> list RouteEntry)
       (rm : RouteManager) (toRemove updatedRoutes : list RouteEntry)
       (t : trace),
       ∃ answers updated,
         removeRouteMappings setRemove rm toRemove updatedRoutes t
           = (Done (updated, firstErrorBy not404 answers),
              t ++ mappingDeleteEvents answers)
         ∧ deletesUpToFirst not404
             (nonemptyIDs (re_mapping_id <$> toRemove)) answers)
  ∧ (∀ (d : ResourceData) (session : Session) (t : trace),
       ∃ bindings mappings evs,
         resourceAppDelete d (Some session) t
           = (Done (abortOf bindings mappings), t ++ evs)
         ∧ bindingDeletes evs = bindings
         ∧ mappingDeletes evs = mappings
         ∧ (firstErrorBy anyError bindings = None →
            deletesUpToFirst not404 (nonemptyIDs (mappingIDsToDelete d)) mappings)).
Proof.
  split; [|split].
  - intros old new route appID rm t. unfold updateAppRouteMappings. cbn zeta.
    destruct (bool_decide (default "" (old !! route) ≠ default "" (new !! route)));
      [|by exists ("", None), []; rewrite app_nil_r].
    run.
    assert (∃ created evs0,
      (if nonempty (default "" (new !! route))
       then CreateRouteMapping rm (default "" (new !! route)) appID
       else mret ("", None)) t = (Done created, t ++ evs0)
      ∧ mappingCreates evs0 = (if nonempty (default "" (new !! route))
                               then [(default "" (new !! route), created.2)]
                               else [])
      ∧ (nonempty (default "" (new !! route)) = false → created = ("", None))
      ∧ createdMappings evs0 = (if nonempty (default "" (new !! route))
                                then [created.1] else [])
      ∧ mappingDeletes evs0 = [])
      as ([mappingID cerr] & evs0 & -> & Hc & Hn & Hm & Hd).
    { destruct (nonempty (default "" (new !! route))).
      - unfold CreateRouteMapping. run. by eexists _, [_].
      - exists ("", None), []. run. by rewrite app_nil_r. }
    cbn [fst snd] in *.
    assert (Hid : default "" (last (createdMappings evs0)) = mappingID
                  ∨ cerr ≠ None).
    { rewrite Hm. destruct (nonempty (default "" (new !! route))); [by left|].
      left. by injection (Hn eq_refl) as <- _. }
    destruct cerr as [e|].
    { exists ("", Some e), evs0. split; [done|]. rewrite Hc, Hd. cbn.
      destruct (nonempty (default "" (new !! route))); [done|].
      by specialize (Hn eq_refl). }
    destruct Hid as [Hid|]; [|done].
    assert (Hcreates : firstErrorBy anyError (mappingCreates evs0) = None).
    { rewrite Hc. by destruct (nonempty (default "" (new !! route))). }
    destruct (nonempty (default "" (old !! route)));
      [destruct (old !! (route +:+ "_mapping_id")) as [v|] |].
    + unfold DeleteRouteMapping. run.
      destruct (rm_DeleteRouteMapping rm (t ++ evs0) v) as [e|] eqn:Hans;
        [destruct (is404 e) eqn:H404 |]; run;
        eexists _, (evs0 ++ [_]); (split; [by rewrite <- app_assoc|]);
        unfold abortOf;
        rewrite mappingCreates_app, mappingDeletes_app, ?createdMappings_app,
          firstErrorBy_app, Hcreates, Hd; cbn; rewrite ?app_nil_r, ?Hid.
      * by rewrite (not404_soft _ H404).
      * by rewrite (not404_hard _ H404).
      * done.
    + exists (mappingID, None), evs0. split; [done|].
      unfold abortOf. by rewrite Hcreates, Hd, Hid.
    + exists (mappingID, None), evs0. split; [done|].
      unfold abortOf. by rewrite Hcreates, Hd, Hid.
  - intros. apply removeRouteMappings_run.
  - intros d session t.
    destruct (resourceAppDelete_run d session t)
      as (bindings & mappings & Hrun & _ & Hm & _).
    cbn zeta in Hrun. exists bindings, mappings. rewrite Hrun. clear Hrun.
    eexists (bindingDeleteEvents bindings ++ mappingDeleteEvents mappings
             ++ match abortOf bindings mappings with
                | None => [_]
                | Some _ => []
                end).
    split; [by destruct (abortOf bindings mappings); rewrite <- ?app_assoc, ?app_nil_r|].
    rewrite !bindingDeletes_app, !mappingDeletes_app.
    rewrite bindingDeletes_of, bindingDeletes_of_mappings,
      mappingDeletes_of, mappingDeletes_of_bindings.
    by destruct (abortOf bindings mappings); cbn; rewrite !app_nil_r.
Qed.

(** The theorem on a delete whose mapping delete is answered with a 404:
    the delete goes on to the application and returns nil. *)
Lemma route_mapping_delete_tolerates_404_witness :
  let gone :=
    Demo.session (Demo.am 1 None None None Demo.noError)
      (Demo.rm [] (fun _ => Some "status code: 404")) (Demo.lc None) in
  let state :=
    Demo.attrsWith 1 "file:///tmp/web.zip" [] []
      [ {[ "default_route" := "route-1";
           "default_route_mapping_id" := "mapping-1" ]} ] [] ∅ in
  resourceAppDelete (Demo.data "app-old" state state) (Some gone) []
  = (Done None,
     [ EvDeleteRouteMapping "mapping-1" (Some "status code: 404");
       EvDeleteApp "app-old" false None ]).
Proof.
  intros gone state.
  destruct route_mapping_delete_tolerates_404 as (_ & _ & H).
  destruct (H (Demo.data "app-old" state state) gone [])
    as (bindings & mappings & evs & Hrun & _).
  rewrite Hrun. vm_compute in Hrun. injection Hrun as Herr Hevs.
  f_equal; [f_equal; exact (eq_sym Herr) | exact (eq_sym Hevs)].
Defined.

(** ** Read: deposed resources *)

(** What the loop of the read leaves of the deposed map. *)
Lemma readDeposedLoop_run (am : AppManager) (keys : list string)
    (m : gmap string string) (t : trace) :
  ∃ m' t',
    readDeposedLoop am keys m t = (Done m', t')
    ∧ (∀ k, m' !! k = None ∨ m' !! k = m !! k)
    ∧ (∀ r, r ∈ keys → (∀ t0, (am_ReadApp am t0 r).2 = None) → m' !! r = None).
Proof.
  revert m t. induction keys as [|r keys IH]; intros m t.
  - exists m, t. split; [done|]. split; [by right|]. by intros ? ?%elem_of_nil.
  - cbn [readDeposedLoop]. unfold ReadApp. run.
    destruct (am_ReadApp am t r) as [app err] eqn:Hans.
    set (t1 := t ++ [EvReadApp r (app, err)]).
    assert (Hdel : ∀ m1 : gmap string string,
      (∀ k, m1 !! k = None ∨ m1 !! k = m !! k) →
      (err = None → m1 !! r = None) →
      ∃ m' t',
        readDeposedLoop am keys m1 t1 = (Done m', t')
        ∧ (∀ k, m' !! k = None ∨ m' !! k = m !! k)
        ∧ (∀ r0, r0 ∈ r :: keys →
                 (∀ t0, (am_ReadApp am t0 r0).2 = None) → m' !! r0 = None)).
    { intros m1 Hsub Hr.
      destruct (IH m1 t1) as (m' & t' & -> & Hsub' & Hdrop).
      exists m', t'. split; [done|]. split.
      - intros k. destruct (Hsub' k) as [?| ->]; [by left | apply Hsub].
      - intros r0 [-> | Hin]%elem_of_cons Hex; [|by apply Hdrop].
        specialize (Hex t). rewrite Hans in Hex. cbn in Hex.
        destruct (Hsub' r) as [?| ->]; [done | by apply Hr]. }
    assert (Hsubdel : ∀ k, delete r m !! k = None ∨ delete r m !! k = m !! k).
    { intros k. destruct (decide (r = k)) as [->|];
        [left; apply lookup_delete_eq | right; by apply lookup_delete_ne]. }
    destruct err as [e|]; [destruct (is404 e) |]; cbn beta iota.
    + apply Hdel; [done | intros _; apply lookup_delete_eq].
    + apply Hdel; [by right | done].
    + apply Hdel; [done | intros _; apply lookup_delete_eq].
Qed.

(** C1 fails on the code: an id whose existence check answers that the
    application still exists is dropped from the deposed map by the read,
    where the claim has it retained. *)
Theorem readDeposed_drops_existing_application (am : AppManager)
    (d : ResourceData) (t : trace) (r kind : string) :
  deposed (rdNew d) !! r = Some kind →
  (∀ t0, (am_ReadApp am t0 r).2 = None) →
  ∃ d' t',
    readDeposed am d t = (Done d', t') ∧ deposed (rdNew d') !! r = None.
Proof.
  intros Hr Hexists. unfold readDeposed. cbn zeta.
  assert (okMap (deposed (rdNew d)) = true) as ->.
  { apply bool_decide_eq_true. intros Hempty. by rewrite Hempty in Hr. }
  run.
  destruct (readDeposedLoop_run am (map_to_list (deposed (rdNew d))).*1
              (deposed (rdNew d)) t) as (m' & t' & -> & _ & Hdrop).
  eexists _, t'. split; [done|]. cbn. apply Hdrop; [|done].
  apply list_elem_of_fmap. exists (r, kind). split; [done|].
  by apply elem_of_map_to_list.
Qed.

(** The theorem on a platform where the deposed application is still
    there: the read empties the deposed map. *)
Lemma readDeposed_drops_existing_application_witness :
  let d :=
    Demo.data "app-new" Demo.attrs
      (set_deposed {[ "app-old" := "application" ]} Demo.attrs) in
  deposed (rdNew d) !! "app-old" = Some "application"
  ∧ ∃ d' t',
      readDeposed (AppManager_ (Demo.healthy 2)) d [] = (Done d', t')
      ∧ deposed (rdNew d') !! "app-old" = None.
Proof.
  intros d. split; [reflexivity|].
  apply (readDeposed_drops_existing_application
           (AppManager_ (Demo.healthy 2)) d [] "app-old" "application").
  - reflexivity.
  - intros t0. cbn. reflexivity.
Defined.

(** With existence checks that answer the same for an id whenever they are
    asked, the read keeps exactly the ids whose check fails with an error
    other than a 404. *)
Lemma readDeposedLoop_lookup (am : AppManager) (answer : string -> option error)
    (keys : list string) (m : gmap string string) (t : trace) :
  (∀ t0 r, (am_ReadApp am t0 r).2 = answer r) →
  ∃ m' t',
    readDeposedLoop am keys m t = (Done m', t')
    ∧ ∀ k, m' !! k =
           if decide (k ∈ keys)
           then (if keptOnRead (answer k) then m !! k else None)
           else m !! k.
Proof.
  intros Hans. revert m t. induction keys as [|r keys IH]; intros m t.
  - exists m, t. split; [done|]. intros k. by rewrite decide_False by apply not_elem_of_nil.
  - cbn [readDeposedLoop]. unfold ReadApp. run.
    pose proof (Hans t r) as Hr.
    destruct (am_ReadApp am t r) as [app err]. cbn in Hr. subst err.
    set (t1 := t ++ _).
    set (m1 := if keptOnRead (answer r) then m else delete r m).
    assert (Hstep :
      match answer r with
      | Some e =>
          if is404 e then readDeposedLoop am keys (delete r m)
          else readDeposedLoop am keys m
      | None => readDeposedLoop am keys (delete r m)
      end = readDeposedLoop am keys m1).
    { unfold m1, keptOnRead. destruct (answer r) as [e|]; [|done].
      by destruct (is404 e). }
    rewrite Hstep.
    destruct (IH m1 t1) as (m' & t' & -> & Hm').
    exists m', t'. split; [done|]. intros k. rewrite Hm'.
    destruct (decide (k = r)) as [->|Hne].
    + rewrite (decide_True (P := r ∈ r :: keys)) by (apply elem_of_cons; by left).
      unfold m1. destruct (keptOnRead (answer r)).
      * by destruct (decide (r ∈ keys)).
      * rewrite lookup_delete_eq. by destruct (decide (r ∈ keys)).
    + assert (m1 !! k = m !! k) as ->.
      { unfold m1. destruct (keptOnRead (answer r)); [done|].
        by apply lookup_delete_ne. }
      destruct (decide (k ∈ keys)).
      * by rewrite decide_True by (apply elem_of_cons; by right).
      * rewrite decide_False; [done|]. by intros [?|?]%elem_of_cons.
Qed.

Lemma readDeposed_lookup (am : AppManager) (answer : string -> option error)
    (d : ResourceData) (t : trace) :
  (∀ t0 r, (am_ReadApp am t0 r).2 = answer r) →
  ∃ d' t',
    readDeposed am d t = (Done d', t')
    ∧ ∀ k, deposed (rdNew d') !! k =
           if keptOnRead (answer k) then deposed (rdNew d) !! k else None.
Proof.
  intros Hans. unfold readDeposed. cbn zeta.
  destruct (okMap (deposed (rdNew d))) eqn:Hok.
  - run.
    destruct (readDeposedLoop_lookup am answer
                (map_to_list (deposed (rdNew d))).*1 (deposed (rdNew d)) t Hans)
      as (m' & t' & -> & Hm').
    eexists _, t'. split; [done|]. intros k. cbn. rewrite Hm'.
    destruct (decide (k ∈ (map_to_list (deposed (rdNew d))).*1)) as [|Hn]; [done|].
    destruct (deposed (rdNew d) !! k) as [v|] eqn:Hk; [|by destruct (keptOnRead _)].
    exfalso. apply Hn. apply list_elem_of_fmap. exists (k, v).
    split; [done|]. by apply elem_of_map_to_list.
  - exists d, t. split; [done|]. intros k.
    apply bool_decide_eq_false in Hok. apply dec_stable in Hok. rewrite Hok.
    rewrite lookup_empty. by destruct (keptOnRead _).
Qed.

(** Reading twice with the same answers leaves the map of the first read. *)
Lemma readDeposed_idempotent (am : AppManager) (answer : string -> option error)
    (d : ResourceData) (t : trace) :
  (∀ t0 r, (am_ReadApp am t0 r).2 = answer r) →
  ∃ d1 t1 d2 t2,
    readDeposed am d t = (Done d1, t1)
    ∧ readDeposed am d1 t1 = (Done d2, t2)
    ∧ deposed (rdNew d2) = deposed (rdNew d1).
Proof.
  intros Hans.
  destruct (readDeposed_lookup am answer d t Hans) as (d1 & t1 & H1 & L1).
  destruct (readDeposed_lookup am answer d1 t1 Hans) as (d2 & t2 & H2 & L2).
  exists d1, t1, d2, t2. split; [done|]. split; [done|].
  apply map_eq. intros k. rewrite L2, L1. by destruct (keptOnRead _).
Qed.

(** ** Update: the flags *)

Lemma getChangedValue_eq {A : Type} `{EqDecision A} (ok : A -> bool)
    (f : Attrs -> A) (updated : bool) (d : ResourceData) :
  getChangedValue ok f updated d
  = (if HasChange f d || ok (f (rdNew d)) then Some (f (rdNew d)) else None,
     updated || HasChange f d).
Proof.
  unfold getChangedValue. destruct (HasChange f d); cbn.
  - by rewrite orb_true_r.
  - rewrite orb_false_r. by destruct (ok _).
Qed.

(** [changedApp] panics on a nil dereference or yields the flags of the
    attributes that changed, and makes no call. *)
Lemma changedApp_run (d : ResourceData) (t : trace) :
  ∃ app,
    changedApp d t
    = (if derefsNil d then Panic else Done (app, flagsOfChanges d), t).
Proof.
  unfold changedApp, derefsNil, flagsOfChanges, getChangedValueString,
    getChangedValueInt, getChangedValueBool, getChangedValueMap,
    getChangedValueIntList.
  rewrite !getChangedValue_eq. cbn beta iota zeta. eexists.
  destruct (HasChange name d || okString (name (rdNew d))); cbn [negb orb];
    [|reflexivity].
  destruct (HasChange space d || okString (space (rdNew d))); cbn [negb orb];
    reflexivity.
Qed.

Lemma CustomizeDiff_forces (diff : ResourceDiff) (v : string) :
  v ∈ CustomizeDiff diff ↔
  v ∈ sourceKeys ∧ DiffHasChangeKey v diff = true
  ∧ (DiffHasChange docker_image diff || DiffHasChange docker_credentials diff) = true
  ∧ (DiffHasChange git diff || DiffHasChange github_release diff ||
     DiffHasChange url diff) = true.
Proof.
  unfold CustomizeDiff.
  destruct (DiffHasChange docker_image diff || DiffHasChange docker_credentials diff);
    cbn [andb].
  - destruct (DiffHasChange git diff || DiffHasChange github_release diff ||
              DiffHasChange url diff).
    + rewrite list_elem_of_filter. naive_solver.
    + rewrite elem_of_nil. naive_solver.
  - rewrite elem_of_nil. naive_solver.
Qed.

(** C2, as stated, fails: a change of source kind from a url to a git
    repository changes [url] and [git] and forces no replacement. *)
Lemma source_switch_from_url_to_git_is_not_forced :
  let diff :=
    {| diffOld := Demo.attrsWith 1 "https://host/web.zip" [] [] [] [] ∅;
       diffNew :=
         Demo.attrsWith 1 "" [ {[ "url" := "https://host/web.git" ]} ] [] [] [] ∅ |} in
  DiffHasChange url diff = true
  ∧ DiffHasChange git diff = true
  ∧ CustomizeDiff diff = [].
Proof. split; [|split]; vm_compute; reflexivity. Qed.

(** C2, amended: the update raises the in-place flag exactly when the
    name, the space, the instance count, the SSH flag, the docker image or
    the docker credentials changed, the restart flag exactly when the
    ports, the memory, the disk quota, the command or a health-check
    attribute changed, and the restage flag exactly when the buildpack,
    the stack or the environment changed (or it panics on a name or
    space that is unset and unchanged). A replacement is forced only for a
    switch to or from docker: when a docker attribute and one of git,
    github release and url changed together, every changed one among
    those five is forced new, and nothing is forced otherwise. Two specs
    that differ only in the instance count raise the in-place flag alone
    and force nothing. *)
Theorem update_flags_by_attribute :
  (∀ (d : ResourceData) (t : trace),
     ∃ app,
       changedApp d t
       = (if derefsNil d then Panic else Done (app, flagsOfChanges d), t))
  ∧ (∀ (diff : ResourceDiff) (v : string),
       v ∈ CustomizeDiff diff ↔
       v ∈ sourceKeys ∧ DiffHasChangeKey v diff = true
       ∧ (DiffHasChange docker_image diff ||
          DiffHasChange docker_credentials diff) = true
       ∧ (DiffHasChange git diff || DiffHasChange github_release diff ||
          DiffHasChange url diff) = true)
  ∧ (∀ (d : ResourceData) (n : Z),
       rdNew d = set_instances n (rdOld d) →
       n ≠ instances (rdOld d) →
       flagsOfChanges d = {| update := true; restart := false; restage := false |}
       ∧ CustomizeDiff (diffOf d) = []).
Proof.
  split; [apply changedApp_run|]. split; [apply CustomizeDiff_forces|].
  intros d n Hnew Hn.
  assert (Hsame : ∀ (A : Type) (EqA : EqDecision A) (f : Attrs -> A),
             f (set_instances n (rdOld d)) = f (rdOld d) → HasChange f d = false).
  { intros A EqA f Hf. unfold HasChange. rewrite Hnew, Hf.
    apply bool_decide_eq_false. naive_solver. }
  assert (Hinst : HasChange instances d = true).
  { unfold HasChange. rewrite Hnew. apply bool_decide_eq_true. cbn. naive_solver. }
  split.
  - unfold flagsOfChanges. rewrite Hinst. rewrite !Hsame by reflexivity. done.
  - unfold CustomizeDiff, DiffHasChange, diffOf. cbn [diffOld diffNew].
    rewrite Hnew. cbn.
    rewrite !bool_decide_eq_false_2 by naive_solver. done.
Qed.

(** The theorem on a change of the instance count from 1 to 4. *)
Lemma update_flags_by_attribute_witness :
  let d := Demo.data "app-old" Demo.attrs (set_instances 4 Demo.attrs) in
  flagsOfChanges d = {| update := true; restart := false; restage := false |}
  ∧ CustomizeDiff (diffOf d) = [].
Proof.
  intros d.
  destruct update_flags_by_attribute as (_ & _ & H).
  apply (H d 4); [reflexivity | discriminate].
Defined.

(** ** Update: the choice between the two updates *)

Lemma blueGreenSelected_eq (d : ResourceData) (restart restage : bool) :
  blueGreenSelected d restart restage
  = blueGreenEnabled d && (restart || restage || binaryOrBindingsChanged d).
Proof.
  unfold blueGreenSelected, blueGreenEnabled, binaryOrBindingsChanged.
  destruct (blue_green (rdNew d)) as [|blueGreenConfig ?]; [done|].
  destruct (enable blueGreenConfig); [|done].
  cbn [andb]. by rewrite !orb_assoc.
Qed.

Lemma binaryOrBindingsChanged_same (d d' : ResourceData) :
  sameUpdateInputs d d' →
  binaryOrBindingsChanged d' = binaryOrBindingsChanged d
  ∧ blueGreenEnabled d' = blueGreenEnabled d.
Proof.
  intros (Hold & Hbg & Hsb & Hurl & Hgit & Hgh & Hadd).
  unfold binaryOrBindingsChanged, blueGreenEnabled, HasChange.
  by rewrite Hold, Hbg, Hsb, Hurl, Hgit, Hgh, Hadd.
Qed.

Lemma updatePush_same (am : AppManager) (d : ResourceData) (app : CCApp)
    (flags : ChangeFlags) (t : trace) app' d' err t' :
  updatePush am d app flags t = (Done (app', d', err), t') →
  sameUpdateInputs d d'.
Proof.
  unfold updatePush, UpdateApp, setAppArguments.
  destruct (update flags || restart flags || restage flags); run.
  - destruct (am_UpdateApp am t app) as [app1 [e|]]; run.
    + by intros [= _ <- _ _].
    + destruct (State app1), (Ports app1); run; try done.
      by intros [= _ <- _ _].
  - by intros [= _ <- _ _].
Qed.

(** C3, as stated, fails: with the blue-green block enabled and a change
    of the route block alone, the standard update runs. *)
Lemma route_change_alone_takes_the_standard_update :
  let old := Demo.attrsWith 1 "file:///tmp/web.zip" [] [] [] Demo.blueGreenOn ∅ in
  let new :=
    Demo.attrsWith 1 "file:///tmp/web.zip" [] [] [Demo.routeBlock]
      Demo.blueGreenOn ∅ in
  let d := Demo.data "app-old" old new in
  blueGreenEnabled d = true
  ∧ HasChange route d = true
  ∧ ∃ d',
      resourceAppUpdate Demo.standardUpdate d (Some (Demo.healthy 1)) []
      = (Done (d', Some "standard update"), []).
Proof.
  split; [reflexivity|]. split; [vm_compute; reflexivity|].
  eexists. vm_compute. reflexivity.
Qed.

(** C3, amended: once the changes are classified and the push of the
    flagged changes, if any, has succeeded, the update takes the
    blue-green path exactly when the blue-green block is enabled and the
    restart or the restage flag is up or a binary attribute (url, git,
    github release, added content) or the service bindings changed; in
    every other case, a change of routes alone included, it takes the
    standard update. *)
Theorem resourceAppUpdate_selects_blue_green
    (standard : ResourceData -> option Session -> CCApp -> bool -> bool -> bool ->
                M (ResourceData * option error))
    (d : ResourceData) (session : Session) (t : trace)
    (app : CCApp) (flags : ChangeFlags) (app' : CCApp) (d' : ResourceData)
    (t' : trace) :
  let d0 := Partial true (SetAttrs (set_deposed (deposed (rdOld d))) d) in
  changedApp d0 t = (Done (app, flags), t) →
  updatePush (AppManager_ session) d0 app flags t = (Done (app', d', None), t') →
  flags = flagsOfChanges d
  ∧ resourceAppUpdate standard d (Some session) t
    = ((if blueGreenEnabled d &&
           (restart flags || restage flags || binaryOrBindingsChanged d)
        then resourceAppBlueGreenUpdate d' (Some session) app'
        else standard d' (Some session) app'
               (update flags) (restart flags) (restage flags))
       ≫= updateFinish) t'.
Proof.
  intros d0 Hclass Hpush. split.
  - destruct (changedApp_run d0 t) as [app0 Hrun]. rewrite Hclass in Hrun.
    destruct (derefsNil d0); [done|]. by injection Hrun as _ ->.
  - unfold resourceAppUpdate. cbn zeta. fold d0. run. rewrite Hclass. run.
    rewrite Hpush. run.
    apply updatePush_same in Hpush.
    destruct (binaryOrBindingsChanged_same d0 d' Hpush) as [Hbin Hen].
    rewrite blueGreenSelected_eq, Hbin, Hen.
    change (blueGreenEnabled d0) with (blueGreenEnabled d).
    change (binaryOrBindingsChanged d0) with (binaryOrBindingsChanged d).
    destruct (blueGreenEnabled d &&
              (restart flags || restage flags || binaryOrBindingsChanged d)).
    + destruct (resourceAppBlueGreenUpdate d' (Some session) app' t')
        as [[[d2 [e|]]|] t2]; done.
    + destruct (standard d' (Some session) app' (update flags) (restart flags)
                  (restage flags) t') as [[[d2 [e|]]|] t2]; done.
Qed.

(** The theorem on a change of the url with the blue-green block enabled:
    the push succeeds and the blue-green update runs. *)
Lemma resourceAppUpdate_selects_blue_green_witness :
  let old :=
    Demo.attrsWith 2 "file:///tmp/web.zip" [] [] [Demo.routeBlock]
      Demo.blueGreenOn ∅ in
  let new :=
    Demo.attrsWith 4 "file:///tmp/web-2.zip" [] [] [Demo.routeBlock]
      Demo.blueGreenOn ∅ in
  let d := Demo.data "app-old" old new in
  let d0 := Partial true (SetAttrs (set_deposed (deposed (rdOld d))) d) in
  ∃ app flags app' d' t',
    changedApp d0 [] = (Done (app, flags), [])
    ∧ updatePush (AppManager_ (Demo.healthy 2)) d0 app flags []
      = (Done (app', d', None), t')
    ∧ resourceAppUpdate Demo.standardUpdate d (Some (Demo.healthy 2)) []
      = (resourceAppBlueGreenUpdate d' (Some (Demo.healthy 2)) app'
         ≫= updateFinish) t'.
Proof.
  intros old new d d0.
  assert (∃ app flags app' d' t',
            changedApp d0 [] = (Done (app, flags), [])
            ∧ updatePush (AppManager_ (Demo.healthy 2)) d0 app flags []
              = (Done (app', d', None), t')
            ∧ blueGreenEnabled d &&
                (restart flags || restage flags || binaryOrBindingsChanged d)
              = true)
    as (app & flags & app' & d' & t' & Hclass & Hpush & Hcond).
  { eexists _, _, _, _, _.
    split; [vm_compute; reflexivity|]. split; vm_compute; reflexivity. }
  exists app, flags, app', d', t'. split; [exact Hclass|]. split; [exact Hpush|].
  destruct (resourceAppUpdate_selects_blue_green Demo.standardUpdate d
              (Demo.healthy 2) [] app flags app' d' t' Hclass Hpush) as [_ ->].
  rewrite Hcond. reflexivity.
Defined.

(** ** Computations that return *)

Lemma emits_ret {A : Type} (P : event -> Prop) (a : A) : emits P (mret a).
Proof. intros t. exists a, []. by rewrite app_nil_r. Qed.

Lemma emits_bind {A B : Type} (P : event -> Prop) (m : M A) (k : A -> M B) :
  emits P m → (∀ a, emits P (k a)) → emits P (m ≫= k).
Proof.
  intros Hm Hk t. destruct (Hm t) as (a & evs1 & Hrun1 & HP1).
  destruct (Hk a (t ++ evs1)) as (b & evs2 & Hrun2 & HP2).
  exists b, (evs1 ++ evs2). run. rewrite Hrun1, Hrun2, <- app_assoc.
  split; [done|]. by apply Forall_app.
Qed.

Lemma emits_perform {A : Type} (P : event -> Prop) (ask : trace -> A)
    (ev : A -> event) :
  (∀ r, P (ev r)) → emits P (perform ask ev).
Proof.
  intros HP t. exists (ask t), [ev (ask t)]. split; [done|].
  apply Forall_singleton, HP.
Qed.

Ltac emits_step :=
  first
    [ apply emits_ret
    | apply emits_perform; by intros
    | apply emits_bind; [| intros ]
    | progress cbn beta iota zeta
    | match goal with
      | |- emits _ (match ?x with _ => _ end) => destruct x
      | |- emits _ (let '(_, _) := ?x in _) => destruct x
      end ].

Lemma validateRoute_emits routeConfig slot appID rm :
  emits (fun ev => quiet ev = true) (validateRoute routeConfig slot appID rm).
Proof. unfold validateRoute, ReadRouteMappingsByRoute. repeat emits_step. Qed.

Lemma prepareApp_emits lc app d :
  emits (fun ev => quiet ev = true) (prepareApp lc app d).
Proof.
  unfold prepareApp, download, getRepositoryFromConfig. repeat emits_step.
Qed.

Lemma createValidateRoutes_emits rm d :
  emits (fun ev => quiet ev = true) (createValidateRoutes rm d).
Proof.
  unfold createValidateRoutes.
  repeat first [ apply validateRoute_emits | emits_step ].
Qed.

Lemma createUpToCreateApp_emits d session appConfig :
  emits (fun ev => quiet ev = true) (createUpToCreateApp d session appConfig).
Proof.
  unfold createUpToCreateApp, CreateApp.
  repeat first
    [ apply prepareApp_emits | apply createValidateRoutes_emits | emits_step ].
Qed.

Lemma addServiceBindings_loop_emits id add am bindings :
  emits (fun ev => quiet ev = true) (addServiceBindings_loop id add am bindings).
Proof.
  revert bindings. induction add as [|b add IH]; intros bindings;
    cbn [addServiceBindings_loop]; unfold CreateServiceBinding;
    repeat first [ apply IH | emits_step ].
Qed.

Lemma bindRoute_emits rm routeID appID key routeConfig :
  emits (fun ev => quiet ev = true) (bindRoute rm routeID appID key routeConfig).
Proof. unfold bindRoute, CreateRouteMapping. repeat emits_step. Qed.

Lemma createBindRoutes_emits rm d appID defaultRoute stageRoute liveRoute routeConfig :
  emits (fun ev => quiet ev = true)
    (createBindRoutes rm d appID defaultRoute stageRoute liveRoute routeConfig).
Proof.
  unfold createBindRoutes. repeat first [ apply bindRoute_emits | emits_step ].
Qed.

(** ** Create: the events of its parts *)

Lemma quiet_classes (evs : trace) :
  Forall (fun ev => quiet ev = true) evs →
  Forall (fun ev => isStart ev = false) evs
  ∧ Forall (fun ev => isUpload ev = false) evs
  ∧ Forall (fun ev => isAppDelete ev = false) evs.
Proof.
  intros H. repeat split; (eapply Forall_impl; [exact H|]);
    intros ev; by destruct ev.
Qed.

Lemma uploadError_none (evs : trace) :
  Forall (fun ev => isUpload ev = false) evs → uploadError evs = None.
Proof.
  induction 1 as [|ev evs Hev _ IH]; [done|]. by destruct ev.
Qed.

Lemma uploadError_app (a b : trace) :
  uploadError (a ++ b)
  = match uploadError a with Some e => Some e | None => uploadError b end.
Proof.
  induction a as [|ev a IH]; [done|].
  destruct ev; cbn; try done; by destruct res.
Qed.

Lemma appDeletes_none (evs : trace) :
  Forall (fun ev => isAppDelete ev = false) evs → appDeletes evs = [].
Proof.
  induction 1 as [|ev evs Hev _ IH]; [done|]. by destruct ev.
Qed.

Lemma noStart_split (evs pre post : trace) (ev : event) :
  Forall (fun ev => isStart ev = false) evs →
  evs = pre ++ ev :: post → isStart ev = true → False.
Proof.
  intros H -> Hev. apply Forall_app in H as [_ H].
  apply Forall_cons in H as [H _]. congruence.
Qed.

Lemma split_at_start (A C pre post : trace) (s ev : event) :
  Forall (fun ev => isStart ev = false) A →
  Forall (fun ev => isStart ev = false) C →
  A ++ s :: C = pre ++ ev :: post → isStart ev = true → pre = A.
Proof.
  intros HA HC. revert pre. induction HA as [|a A Ha HA IH]; intros pre Heq Hev.
  - destruct pre as [|x pre]; [done|]. exfalso.
    injection Heq as -> ->. by eapply noStart_split.
  - destruct pre as [|x pre].
    + injection Heq as -> _. congruence.
    + injection Heq as -> Heq. f_equal. by apply IH.
Qed.

Lemma uploadTask_run am lc d app appPath addContent (t : trace) :
  ∃ res u,
    uploadTask am lc d app appPath addContent t = (Done res, t ++ u)
    ∧ uploadError u = res
    ∧ Forall (fun ev => isStart ev = false) u
    ∧ Forall (fun ev => isAppDelete ev = false) u
    ∧ (res = None → ∃ a p c, EvUploadApp a p c None ∈ u).
Proof.
  unfold uploadTask, UploadApp, RemoveAll. run.
  destruct (am_UploadApp am t app appPath addContent) as [e|] eqn:Hup; run.
  { exists (Some e), [EvUploadApp app appPath addContent (Some e)].
    repeat split; try done; by repeat constructor. }
  assert (Hin : ∀ rest, ∃ a p c,
            EvUploadApp a p c None ∈ EvUploadApp app appPath addContent None :: rest).
  { intros rest. exists app, appPath, addContent. apply elem_of_cons. by left. }
  destruct (okString (url (rdNew d)));
    [destruct (strings_HasPrefix (url (rdNew d)) "file://")|]; cbn [negb]; run.
  - exists None, [EvUploadApp app appPath addContent None].
    repeat split; try done; by repeat constructor.
  - eexists _, [_; _]. rewrite <- app_assoc. split; [done|].
    split; [cbn; by destruct (lc_RemoveAll _ _ _)|].
    repeat split; try done; by repeat constructor.
  - eexists _, [_; _]. rewrite <- app_assoc. split; [done|].
    split; [cbn; by destruct (lc_RemoveAll _ _ _)|].
    repeat split; try done; by repeat constructor.
Qed.

Lemma createStart_run am d appID (t : trace) :
  ∃ err s,
    createStart am d appID t = (Done err, t ++ s)
    ∧ Forall (fun ev => isUpload ev = false) s
    ∧ Forall (fun ev => isAppDelete ev = false) s
    ∧ (s = [] ∨ ∃ ev, s = [ev] ∧ isStart ev = true).
Proof.
  unfold createStart, StartApp, StartDockerApp. cbn zeta.
  destruct (okString (docker_image (rdNew d))), (stopped (rdNew d));
    cbn [negb]; run;
    try (exists None, []; rewrite app_nil_r;
         repeat split; try done; by left);
    (eexists _, [_]; split; [done|];
     repeat split; try (by repeat constructor); right; by eexists).
Qed.

(** A run that stops on an error before any start. *)
Lemma createPost_early d appConfig app (e : error) (evs : trace) :
  Forall (fun ev => isStart ev = false) evs →
  Forall (fun ev => isAppDelete ev = false) evs →
  createPost d appConfig app app appConfig (Some e) evs.
Proof.
  intros HS HD. split; [by apply appDeletes_none|].
  split; [by intros _; split; [|left]|]. split; [done|].
  intros _. split; [|done].
  intros pre ev post Heq Hev. exfalso. by eapply noStart_split.
Qed.

(** A run that got past the join: [A] are the events up to the join, [s]
    the start, [r] the final read. *)
Lemma createPost_late d appConfig app app' cfg' err (A s r : trace) :
  Forall (fun ev => isStart ev = false) A →
  Forall (fun ev => isAppDelete ev = false) A →
  (okString (docker_image (rdNew d)) = false → uploadJoined A) →
  Forall (fun ev => isUpload ev = false) s →
  Forall (fun ev => isAppDelete ev = false) s →
  (s = [] ∨ ∃ ev, s = [ev] ∧ isStart ev = true) →
  (r = [] ∨ ∃ res, r = [EvReadApp (ID app) res]) →
  (err ≠ None →
   cfg' = appConfig
   ∧ (app' = app ∨ r = [EvReadApp (ID app) (app', err)])) →
  cfg_routeConfig cfg' = cfg_routeConfig appConfig →
  createPost d appConfig app app' cfg' err (A ++ s ++ r).
Proof.
  intros HAS HAD HAU HsU HsD Hs Hr Herr Hcfg.
  assert (HrS : Forall (fun ev => isStart ev = false) r)
    by (destruct Hr as [->|[? ->]]; by repeat constructor).
  assert (HrU : Forall (fun ev => isUpload ev = false) r)
    by (destruct Hr as [->|[? ->]]; by repeat constructor).
  assert (HrD : Forall (fun ev => isAppDelete ev = false) r)
    by (destruct Hr as [->|[? ->]]; by repeat constructor).
  split; [apply appDeletes_none; by repeat (apply Forall_app; split)|].
  split.
  { intros Hne. destruct (Herr Hne) as [-> [->| ->]]; split; try done;
      [by left|]. right. exists (A ++ s). by rewrite <- app_assoc. }
  split; [done|].
  intros Hdocker. specialize (HAU Hdocker). split.
  - intros pre ev post Heq Hev.
    destruct Hs as [->|(sev & -> & Hsev)].
    + exfalso. eapply noStart_split; [|exact Heq|exact Hev].
      by repeat (apply Forall_app; split).
    + cbn in Heq. by rewrite (split_at_start A r pre post sev ev HAS HrS Heq Hev).
  - intros e He. exfalso. destruct HAU as [HAU _].
    rewrite !uploadError_app, HAU in He.
    by rewrite (uploadError_none s HsU), (uploadError_none r HrU) in He.
Qed.

(** The part of the create that runs under the [defer]: it makes no
    delete, leaves the configuration alone on an error, holds the created
    application in [app] on every error but that of the final read, and,
    without a docker image, starts only after the upload task has joined
    without an error. *)
Lemma createAfterCreateApp_run d session appConfig app appPath routeConfig
    defaultRoute stageRoute liveRoute (t : trace) :
  ∃ app' cfg' err evs,
    createAfterCreateApp d session appConfig app appPath routeConfig
      defaultRoute stageRoute liveRoute t
      = (Done (app', cfg', err), t ++ evs)
    ∧ createPost d appConfig app app' cfg' err evs.
Proof.
  unfold createAfterCreateApp, receivePrepare, ReadApp. cbn zeta. run.
  destruct (lc_prepare (Local_ session) t) as [e|] eqn:Hp; run.
  { exists app, appConfig, (Some e), [EvPrepare (Some e)].
    split; [done|]. apply createPost_early; by repeat constructor. }
  set (t1 := t ++ [EvPrepare None]).
  set (docker := okString (docker_image (rdNew d))).
  assert (∃ res u,
    (if negb docker
     then uploadTask (AppManager_ session) (Local_ session) d app appPath
            (add_content (rdNew d))
     else mret None) t1 = (Done res, t1 ++ u)
    ∧ uploadError u = res
    ∧ Forall (fun ev => isStart ev = false) u
    ∧ Forall (fun ev => isAppDelete ev = false) u
    ∧ (docker = false → res = None → ∃ a p c, EvUploadApp a p c None ∈ u))
    as (res & u & -> & Hres & HuS & HuD & HuIn).
  { destruct docker; cbn [negb].
    - exists None, []. run. by rewrite app_nil_r.
    - destruct (uploadTask_run (AppManager_ session) (Local_ session) d app
                  appPath (add_content (rdNew d)) t1)
        as (res & u & ? & ? & ? & ? & ?).
      exists res, u. repeat split; try done. }
  run.
  assert (emits (fun ev => quiet ev = true)
            (if okList (service_binding (rdNew d))
             then addServiceBindings (ID app) (service_binding (rdNew d))
                    (AppManager_ session)
             else mret ([], None))) as Hb.
  { destruct (okList _); [apply addServiceBindings_loop_emits | apply emits_ret]. }
  destruct (Hb (t1 ++ u)) as ([serviceBindings berr] & q2 & -> & Hq2). clear Hb.
  apply quiet_classes in Hq2 as (Hq2S & Hq2U & Hq2D).
  assert (HpS : Forall (fun ev => isStart ev = false) [EvPrepare None])
    by by repeat constructor.
  assert (HpD : Forall (fun ev => isAppDelete ev = false) [EvPrepare None])
    by by repeat constructor.
  destruct berr as [e|]; run.
  { exists app, appConfig, (Some e), ([EvPrepare None] ++ u ++ q2).
    unfold t1. rewrite <- !app_assoc. split; [done|].
    apply createPost_early; by repeat (apply Forall_app; split). }
  destruct (createBindRoutes_emits (RouteManager_ session) d (ID app)
              defaultRoute stageRoute liveRoute routeConfig ((t1 ++ u) ++ q2))
    as ([routeConfig' rerr] & q3 & -> & Hq3).
  apply quiet_classes in Hq3 as (Hq3S & Hq3U & Hq3D).
  destruct rerr as [e|]; run.
  { exists app, appConfig, (Some e), ([EvPrepare None] ++ u ++ q2 ++ q3).
    unfold t1. rewrite <- !app_assoc. split; [done|].
    apply createPost_early; by repeat (apply Forall_app; split). }
  destruct (if negb docker then res else None) as [e|] eqn:Hjoin; run.
  { exists app, appConfig, (Some e), ([EvPrepare None] ++ u ++ q2 ++ q3).
    unfold t1. rewrite <- !app_assoc. split; [done|].
    apply createPost_early; by repeat (apply Forall_app; split). }
  set (A := [EvPrepare None] ++ u ++ q2 ++ q3).
  assert (HAS : Forall (fun ev => isStart ev = false) A)
    by by repeat (apply Forall_app; split).
  assert (HAD : Forall (fun ev => isAppDelete ev = false) A)
    by by repeat (apply Forall_app; split).
  assert (HAU : docker = false → uploadJoined A).
  { intros Hd. rewrite Hd in Hjoin. cbn in Hjoin. subst res. split.
    - unfold A. rewrite !uploadError_app, Hjoin. cbn.
      by rewrite (uploadError_none q2 Hq2U), (uploadError_none q3 Hq3U).
    - destruct (HuIn Hd Hjoin) as (a & p & c & Hin). exists a, p, c.
      unfold A. rewrite !elem_of_app. auto. }
  assert (Ht : ((t1 ++ u) ++ q2) ++ q3 = t ++ A)
    by (unfold t1, A; by rewrite <- !app_assoc).
  rewrite Ht.
  destruct (createStart_run (AppManager_ session) d (ID app) (t ++ A))
    as (serr & s & -> & HsU & HsD & Hs).
  destruct serr as [e|]; run.
  { exists app, appConfig, (Some e), (A ++ s ++ []).
    split; [by rewrite app_nil_r, <- app_assoc|].
    apply createPost_late; try done; [by left | by intros _; split; [|left]]. }
  destruct (am_ReadApp (AppManager_ session) ((t ++ A) ++ s) (ID app))
    as [app' [e|]] eqn:Hread; run.
  - exists app', appConfig, (Some e), (A ++ s ++ [EvReadApp (ID app) (app', Some e)]).
    split; [by rewrite <- !app_assoc|].
    apply createPost_late; try done; [right; by eexists|].
    intros _. split; [done|]. by right.
  - eexists app', _, None, (A ++ s ++ [EvReadApp (ID app) (app', None)]).
    split; [by rewrite <- !app_assoc|].
    apply createPost_late; try done; right; by eexists.
Qed.






(** ** Create: the clean-up after a failure *)


(** When the failing step is the final read of the application, the
    variable [app] holds what the failed read returned, and the deferred
    function deletes that id: here the empty id, while the application
    created, ["app-new"], stays. *)
Lemma failed_read_back_deletes_the_id_the_read_returned :
  let created := Demo.reported "app-new" "web" 1 in
  resourceAppCreateCfApp (Demo.data "" Demo.attrs Demo.attrs)
      (Some Demo.unreadable) (Demo.config (Demo.desired 1)) []
  = (Done (Demo.config (Demo.desired 1), Some "status code: 500"),
     [ EvCreateApp (Demo.desired 1) (created, None);
       EvPrepare None;
       EvUploadApp created "/tmp/web.zip" [] None;
       EvStartApp "app-new" 60 None;
       EvReadApp "app-new" (CCApp_zero, Some "status code: 500");
       EvDeleteApp "" true None ]).
Proof. vm_compute. reflexivity. Qed.



(** ** Create: the start waits for the upload *)




(** ** Blue-green: the scaling loop *)

Lemma instanceUpdates_app a b :
  instanceUpdates (a ++ b) = instanceUpdates a ++ instanceUpdates b.
Proof. apply omap_app. Qed.

Lemma exchangeRounds_step (desired new venerable : Z) (rounds : nat) :
  (new <? desired) || (1 <? venerable) = true →
  (exchangeRounds desired new venerable ≤ S rounds)%nat →
  (exchangeRounds desired
     (if new <? desired then new + 1 else new)%Z
     (if 1 <? venerable then venerable - 1 else venerable)%Z ≤ rounds)%nat.
Proof.
  unfold exchangeRounds. intros Hcond Hle.
  destruct (Z.ltb_spec new desired), (Z.ltb_spec 1 venerable);
    try discriminate Hcond; lia.
Qed.

Lemma exchangeRounds_zero (desired new venerable : Z) :
  (exchangeRounds desired new venerable ≤ 0)%nat →
  (new <? desired) || (1 <? venerable) = false.
Proof.
  unfold exchangeRounds. intros Hle.
  destruct (Z.ltb_spec new desired), (Z.ltb_spec 1 venerable); try done; lia.
Qed.

(** The rounds given to the loop by [blueGreenExchange] are never used up:
    the loop is left by its condition or by a [return]. *)
Lemma scalingExchange_enough (rounds : nat) am newID newName venerableID
    venerableName newState venerableState timeoutDuration
    (desired new venerable : Z) (t t' : trace) :
  (exchangeRounds desired new venerable ≤ rounds)%nat →
  scalingExchange rounds am newID newName venerableID venerableName newState
    venerableState timeoutDuration desired new venerable t ≠ (Done None, t').
Proof.
  revert new venerable t.
  induction rounds as [|rounds IH]; intros new venerable t Hle.
  - cbn [scalingExchange]. by rewrite (exchangeRounds_zero _ _ _ Hle).
  - cbn [scalingExchange].
    destruct ((new <? desired) || (1 <? venerable)) eqn:Hcond; [|done].
    pose proof (exchangeRounds_step _ _ _ _ Hcond Hle) as Hle'.
    unfold scaleUpNew, scaleDownVenerable, UpdateApp, waitUnlessStopped,
      pauseUnlessStopped, WaitForAppToStart.
    run.
    destruct (new <? desired); run.
    + destruct (am_UpdateApp am t _) as [? [e|]]; run; [done|].
      destruct newState as [ns|]; [|done].
      destruct (bool_decide (ns ≠ "STOPPED")); run.
      * destruct (1 <? venerable); run; [|by apply IH].
        destruct (am_UpdateApp am _ _) as [? [e|]]; run; [done|].
        destruct venerableState; run; [by apply IH | done].
      * destruct (1 <? venerable); run; [|by apply IH].
        destruct (am_UpdateApp am _ _) as [? [e|]]; run; [done|].
        destruct venerableState; run; [by apply IH | done].
    + destruct (1 <? venerable); run; [|by apply IH].
      destruct (am_UpdateApp am _ _) as [? [e|]]; run; [done|].
      destruct venerableState; run; [by apply IH | done].
Qed.

Lemma scaleUpNew_run am newID newName (ns : string) timeoutDuration
    (desired new : Z) (t : trace) :
  (∀ t0 app, (am_UpdateApp am t0 app).2 = None) →
  ∃ evs,
    scaleUpNew am newID newName (Some ns) timeoutDuration desired new t
      = (Done (if new <? desired then new + 1 else new, None), t ++ evs)
    ∧ instanceUpdates evs = (if new <? desired then [(newID, new + 1)] else [])
    ∧ appDeletes evs = [].
Proof.
  intros Hok. unfold scaleUpNew, UpdateApp, waitUnlessStopped, WaitForAppToStart.
  destruct (new <? desired); run; [|by exists []; rewrite app_nil_r].
  pose proof (Hok t (CCApp_scale newID newName (Some (new + 1)))) as Herr.
  destruct (am_UpdateApp am t _) as [r err]. cbn in Herr. subst err. run.
  destruct (bool_decide (ns ≠ "STOPPED")); run.
  - eexists [_; _]. by rewrite <- app_assoc.
  - by eexists [_].
Qed.

Lemma scaleDownVenerable_run am venerableID venerableName (vs : string)
    (venerable : Z) (t : trace) :
  (∀ t0 app, (am_UpdateApp am t0 app).2 = None) →
  ∃ evs,
    scaleDownVenerable am venerableID venerableName (Some vs) venerable t
      = (Done (if 1 <? venerable then venerable - 1 else venerable, None),
         t ++ evs)
    ∧ instanceUpdates evs
      = (if 1 <? venerable then [(venerableID, venerable - 1)] else [])
    ∧ appDeletes evs = [].
Proof.
  intros Hok. unfold scaleDownVenerable, UpdateApp, pauseUnlessStopped.
  destruct (1 <? venerable); run; [|by exists []; rewrite app_nil_r].
  pose proof (Hok t (CCApp_scale venerableID venerableName (Some (venerable - 1))))
    as Herr.
  destruct (am_UpdateApp am t _) as [r err]. cbn in Herr. subst err. run.
  by eexists [_].
Qed.

Lemma exchangeSchedule_done (rounds : nat) newID venerableID
    (desired new venerable : Z) :
  (new <? desired) || (1 <? venerable) = false →
  exchangeSchedule rounds newID venerableID desired new venerable = [].
Proof.
  intros [Hn Hv]%orb_false_elim.
  induction rounds as [|rounds IH]; [done|].
  cbn [exchangeSchedule]. by rewrite Hn, Hv, IH.
Qed.

(** The scaling loop on a platform where every update succeeds: it is
    left by its condition, after the updates of the schedule and no
    delete. *)
Lemma scalingExchange_run (rounds : nat) am newID newName venerableID
    venerableName (ns vs : string) timeoutDuration
    (desired new venerable : Z) (t : trace) :
  (∀ t0 app, (am_UpdateApp am t0 app).2 = None) →
  (exchangeRounds desired new venerable ≤ rounds)%nat →
  ∃ final evs,
    scalingExchange rounds am newID newName venerableID venerableName
      (Some ns) (Some vs) timeoutDuration desired new venerable t
      = (Done (Some (inr final)), t ++ evs)
    ∧ instanceUpdates evs
      = exchangeSchedule rounds newID venerableID desired new venerable
    ∧ appDeletes evs = [].
Proof.
  intros Hok. revert new venerable t.
  induction rounds as [|rounds IH]; intros new venerable t Hle.
  - cbn [scalingExchange]. rewrite (exchangeRounds_zero _ _ _ Hle).
    exists (new, venerable), []. by rewrite app_nil_r.
  - cbn [scalingExchange].
    destruct ((new <? desired) || (1 <? venerable)) eqn:Hcond.
    + pose proof (exchangeRounds_step _ _ _ _ Hcond Hle) as Hle'. run.
      destruct (scaleUpNew_run am newID newName ns timeoutDuration desired new
                  t Hok) as (evs1 & -> & Hu1 & Hd1). run.
      destruct (scaleDownVenerable_run am venerableID venerableName vs
                  venerable (t ++ evs1) Hok) as (evs2 & -> & Hu2 & Hd2). run.
      destruct (IH _ _ ((t ++ evs1) ++ evs2) Hle')
        as (final & evs3 & -> & Hu3 & Hd3).
      exists final, (evs1 ++ evs2 ++ evs3). rewrite <- !app_assoc.
      split; [done|].
      rewrite !instanceUpdates_app, !appDeletes_app, Hu1, Hu2, Hu3, Hd1, Hd2, Hd3.
      done.
    + exists (new, venerable), []. rewrite app_nil_r.
      by rewrite exchangeSchedule_done.
Qed.

(** ** Blue-green: four instances from a venerable application at two *)




(** ** Service bindings: creation *)

Lemma addServiceBindings_loop_run (id : string) (add : list ServiceBinding)
    (am : AppManager) (bindings : list ServiceBinding) (t : trace) :
  ∃ done ids last err,
    length ids = length done
    ∧ addServiceBindings_loop id add am bindings t
      = (Done (bindings ++ zip_with withBindingID ids done, err),
         t ++ bindingCreateEvents id done ids ++ last)
    ∧ match err with
      | None => add = done ∧ last = []
      | Some e =>
          ∃ b rest bindingID,
            add = done ++ b :: rest
            ∧ last = [EvCreateServiceBinding id (service_instance b) (params b)
                        (bindingID, Some e)]
      end.
Proof.
  revert bindings t. induction add as [|b add IH]; intros bindings t.
  - exists [], [], [], None. cbn. by rewrite !app_nil_r.
  - cbn [addServiceBindings_loop]. unfold CreateServiceBinding. run.
    destruct (am_CreateServiceBinding am t id (service_instance b) (params b))
      as [bindingID [e|]] eqn:Hc; run.
    + exists [], [], [EvCreateServiceBinding id (service_instance b) (params b)
                        (bindingID, Some e)], (Some e).
      cbn. rewrite app_nil_r. split; [done|]. split; [done|].
      by exists b, add, bindingID.
    + destruct (IH (bindings ++ [withBindingID bindingID b])
                  (t ++ [EvCreateServiceBinding id (service_instance b) (params b)
                           (bindingID, None)]))
        as (done & ids & last & err & Hlen & -> & Herr).
      exists (b :: done), (bindingID :: ids), last, err.
      split; [by cbn; rewrite Hlen|]. split.
      * cbn. by rewrite <- !app_assoc.
      * destruct err as [e|].
        -- destruct Herr as (b' & rest & bid' & -> & ->). by exists b', rest, bid'.
        -- by destruct Herr as [-> ->].
Qed.

(** X1. [addServiceBindings] binds the service instances in order and
    stops at the first failure: it returns the bindings created so far,
    each with the binding id the platform gave it, together with the error
    of the failed creation, after which no further creation is asked for;
    without a failure every binding of the list is returned with its id. *)
Theorem addServiceBindings_returns_the_bindings_created_so_far
    (id : string) (add : list ServiceBinding) (am : AppManager) (t : trace) :
  ∃ done ids last err,
    length ids = length done
    ∧ addServiceBindings id add am t
      = (Done (zip_with withBindingID ids done, err),
         t ++ bindingCreateEvents id done ids ++ last)
    ∧ match err with
      | None => add = done ∧ last = []
      | Some e =>
          ∃ b rest bindingID,
            add = done ++ b :: rest
            ∧ last = [EvCreateServiceBinding id (service_instance b) (params b)
                        (bindingID, Some e)]
      end.
Proof. apply (addServiceBindings_loop_run id add am [] t). Qed.

Lemma createdBindings_of id done ids :
  length ids = length done →
  createdBindings (bindingCreateEvents id done ids) = ids.
Proof.
  revert ids. induction done as [|b done IH]; intros [|i ids] Hlen; try done.
  cbn. f_equal. apply IH. by injection Hlen.
Qed.

Lemma binding_ids_of_stamped ids done :
  length ids = length done →
  binding_id <$> zip_with withBindingID ids done = ids.
Proof.
  revert ids. induction done as [|b done IH]; intros [|i ids] Hlen; try done.
  cbn. f_equal. apply IH. by injection Hlen.
Qed.

(** X2. Add, then remove: when [addServiceBindings] succeeded, giving the
    bindings it returned to [removeServiceBindings] asks the platform to
    delete the binding ids it handed out for them, the empty ones apart,
    in order and up to the first delete that fails; the error of that
    delete is returned. *)
Theorem bindings_added_are_the_bindings_removed
    (id : string) (add : list ServiceBinding) (am : AppManager)
    (t : trace) (bindings : list ServiceBinding) (evs : trace) (t2 : trace) :
  addServiceBindings id add am t = (Done (bindings, None), t ++ evs) →
  ∃ answers,
    removeServiceBindings bindings am t2
      = (Done (firstErrorBy anyError answers), t2 ++ bindingDeleteEvents answers)
    ∧ deletesUpToFirst anyError (nonemptyIDs (createdBindings evs)) answers.
Proof.
  intros Hadd.
  destruct (addServiceBindings_loop_run id add am [] t)
    as (done & ids & last & err & Hlen & Hrun & Herr).
  unfold addServiceBindings in Hadd. rewrite Hrun in Hadd.
  injection Hadd as <- -> Hevs. apply app_inv_head in Hevs.
  destruct Herr as [_ ->]. rewrite app_nil_r in Hevs. subst evs.
  rewrite createdBindings_of by done.
  destruct (removeServiceBindings_run (zip_with withBindingID ids done) am t2)
    as (answers & Hrm & Hdel).
  exists answers. split; [done|]. by rewrite binding_ids_of_stamped in Hdel.
Qed.

(** The theorem for two bindings, on the healthy platform. *)
Lemma bindings_added_are_the_bindings_removed_witness :
  ∃ bindings evs,
    addServiceBindings "app-new"
      [ {| service_instance := "db"; params := None; binding_id := "" |};
        {| service_instance := "mq"; params := None; binding_id := "" |} ]
      (Demo.am 1 None None None Demo.noError) []
      = (Done (bindings, None), [] ++ evs)
    ∧ ∃ answers,
        removeServiceBindings bindings (Demo.am 1 None None None Demo.noError) evs
          = (Done (firstErrorBy anyError answers),
             evs ++ bindingDeleteEvents answers)
        ∧ answers.*1 = ["binding-db"; "binding-mq"].
Proof.
  eexists _, _. split; [vm_compute; reflexivity|].
  match goal with
  | |- ∃ answers, removeServiceBindings ?bs ?am ?t2 = _ ∧ _ =>
      destruct (bindings_added_are_the_bindings_removed "app-new"
                  [ {| service_instance := "db"; params := None; binding_id := "" |};
                    {| service_instance := "mq"; params := None; binding_id := "" |} ]
                  am [] bs t2 t2 eq_refl)
        as (answers & Hrm & Hdel)
  end.
  exists answers. split; [exact Hrm|].
  vm_compute in Hrm. 
  destruct answers as [|[i1 [e1|]] [|[i2 [e2|]] [|a3 answers]]];
    cbn in Hrm; try discriminate Hrm; by injection Hrm as -> ->.
Defined.

(** ** Legacy route slots: the exchange of a mapping *)


(** ** The files of the application *)

(** X4. [prepareApp] makes one local operation at most, and returns the
    empty path with every error. A [file://] url makes none: the path is
    the url without its first seven characters. Any other url is
    downloaded, and the repository is consulted only when no url is
    given. *)
Theorem prepareApp_looks_up_the_files_once (lc : Local) (app : CCApp)
    (d : ResourceData) (t : trace) :
  let u := url (rdNew d) in
  ∃ path err evs,
    prepareApp lc app d t = (Done (path, err), t ++ evs)
    ∧ (err ≠ None → path = "")
    ∧ (strings_HasPrefix u "file://" = true →
       evs = [] ∧ err = None ∧ path = string_drop 7 u)
    ∧ (strings_HasPrefix u "file://" = false →
       if okString u then ∃ res, evs = [EvDownload u res]
       else ∃ res, evs = [EvGetRepository res]).
Proof.
  intros u. unfold prepareApp, download, getRepositoryFromConfig. fold u.
  destruct (okString u) eqn:Hu.
  - destruct (strings_HasPrefix u "file://") eqn:Hp; run.
    + exists (string_drop 7 u), None, []. by rewrite app_nil_r.
    + destruct (lc_download lc t u) as [path [e|]] eqn:Hd; run.
      * exists "", (Some e), [EvDownload u (path, Some e)].
        repeat split; try done. by eexists.
      * exists path, None, [EvDownload u (path, None)].
        repeat split; try done. by eexists.
  - assert (strings_HasPrefix u "file://" = false) as Hp by by destruct u.
    run. destruct (lc_getRepository lc t) as [path [e|]] eqn:Hg; run.
    + exists "", (Some e), [EvGetRepository (path, Some e)].
      split; [done|]. split; [done|]. split; [congruence|]. by eexists.
    + destruct (okList (github_release (rdNew d))); run;
        eexists _, None, [EvGetRepository (path, None)];
        (split; [done|]; split; [done|]; split; [congruence|]; by eexists).
Qed.

(** ** Create: what precedes the creation *)


Lemma validateRoute_run routeConfig slot appID rm (t : trace) :
  ∃ err evs,
    validateRoute routeConfig slot appID rm t
      = (Done (default "" (routeConfig !! slot), err), t ++ evs)
    ∧ Forall (fun ev => isLookup ev = true) evs.
Proof.
  unfold validateRoute, ReadRouteMappingsByRoute.
  destruct (routeConfig !! slot) as [routeID|]; run.
  2: { exists None, []. by rewrite app_nil_r. }
  destruct (rm_ReadRouteMappingsByRoute rm t routeID) as [mappings err] eqn:Hr.
  destruct err as [e|]; [|destruct mappings as [|m0 rest]]; run;
    try (eexists _, [_]; split; [done|]; by repeat constructor).
  destruct (bool_decide (rest = []) && bool_decide (m0 !! "app" = Some appID));
    run; eexists _, [_]; (split; [done|]; by repeat constructor).
Qed.

Lemma createValidateRoutes_run rm d (t : trace) :
  ∃ routeConfig defaultRoute stageRoute liveRoute err evs,
    createValidateRoutes rm d t
      = (Done (routeConfig, (defaultRoute, stageRoute, liveRoute), err), t ++ evs)
    ∧ Forall (fun ev => isLookup ev = true) evs
    ∧ (err = None →
       defaultRoute = routeSlot d "default_route"
       ∧ stageRoute = routeSlot d "stage_route"
       ∧ liveRoute = routeSlot d "live_route"
       ∧ nonempty stageRoute = nonempty liveRoute).
Proof.
  unfold createValidateRoutes, routeSlot.
  destruct (route (rdNew d)) as [|routeConfig rest]; run.
  { exists ∅, "", "", "", None, []. by rewrite app_nil_r. }
  destruct (validateRoute_run routeConfig "default_route" (rdId d) rm t)
    as (err1 & evs1 & -> & H1).
  destruct err1 as [e|]; run.
  { eexists _, _, _, _, (Some e), evs1. by repeat split. }
  destruct (validateRoute_run routeConfig "stage_route" "" rm (t ++ evs1))
    as (err2 & evs2 & -> & H2).
  destruct err2 as [e|]; run.
  { eexists _, _, _, _, (Some e), (evs1 ++ evs2). rewrite <- app_assoc.
    split; [done|]. split; [by apply Forall_app|done]. }
  destruct (validateRoute_run routeConfig "live_route" (rdId d) rm
              ((t ++ evs1) ++ evs2)) as (err3 & evs3 & -> & H3).
  assert (Forall (fun ev => isLookup ev = true) (evs1 ++ evs2 ++ evs3))
    by by repeat (apply Forall_app; split).
  destruct err3 as [e|]; run.
  { eexists _, _, _, _, (Some e), (evs1 ++ evs2 ++ evs3). rewrite <- !app_assoc.
    by repeat split. }
  destruct (nonempty (default "" (routeConfig !! "stage_route"))) eqn:Hs,
    (nonempty (default "" (routeConfig !! "live_route"))) eqn:Hl; cbn; run;
    eexists _, _, _, _, _, (evs1 ++ evs2 ++ evs3); rewrite <- !app_assoc;
    (split; [reflexivity|]; split; [done|]; intros He; try discriminate He;
     by rewrite Hs, Hl).
Qed.

Lemma prepareApp_lookup lc app d :
  emits (fun ev => isLookup ev = true) (prepareApp lc app d).
Proof.
  unfold prepareApp, download, getRepositoryFromConfig. repeat emits_step.
Qed.

(** [resourceAppCreateCfApp] up to the creation: look-ups, then the
    creation of the application unless a look-up failed. *)
Lemma createUpToCreateApp_run d session appConfig (t : trace) :
  ∃ created err pre post,
    createUpToCreateApp d session appConfig t
      = (Done (created, err), t ++ pre ++ post)
    ∧ Forall (fun ev => isLookup ev = true) pre
    ∧ (post = [] ∧ err ≠ None
       ∨ post = [EvCreateApp (cfg_app appConfig) (cr_app created, err)]
         ∧ cr_defaultRoute created = routeSlot d "default_route"
         ∧ cr_stageRoute created = routeSlot d "stage_route"
         ∧ cr_liveRoute created = routeSlot d "live_route"
         ∧ nonempty (cr_stageRoute created) = nonempty (cr_liveRoute created)).
Proof.
  unfold createUpToCreateApp, CreateApp. cbn zeta. run.
  assert (emits (fun ev => isLookup ev = true)
            (if negb (okString (docker_image (rdNew d)))
             then prepareApp (Local_ session) (cfg_app appConfig) d
             else mret ("", None))) as Hp.
  { destruct (negb _); [apply prepareApp_lookup | apply emits_ret]. }
  destruct (Hp t) as ([appPath perr] & evs1 & -> & H1). clear Hp.
  destruct perr as [e|]; run.
  { eexists _, (Some e), evs1, []. rewrite app_nil_r.
    split; [done|]. split; [done|]. by left. }
  destruct (createValidateRoutes_run (RouteManager_ session) d (t ++ evs1))
    as (rc & dr & sr & lr & verr & evs2 & -> & H2 & Hv).
  destruct verr as [e|]; run.
  { eexists _, (Some e), (evs1 ++ evs2), []. rewrite app_nil_r, <- app_assoc.
    split; [done|]. split; [by apply Forall_app|]. by left. }
  destruct (Hv eq_refl) as (-> & -> & -> & Hboth).
  destruct (am_CreateApp (AppManager_ session) ((t ++ evs1) ++ evs2)
              (cfg_app appConfig)) as [app err] eqn:Hc.
  eexists _, err, (evs1 ++ evs2), [_]. rewrite <- !app_assoc.
  split; [done|]. split; [by apply Forall_app|]. right. by cbn.
Qed.

Lemma createAfterCreateApp_isCreateApp d session appConfig app appPath
    routeConfig defaultRoute stageRoute liveRoute :
  emits (fun ev => isCreateApp ev = false)
    (createAfterCreateApp d session appConfig app appPath routeConfig
       defaultRoute stageRoute liveRoute).
Proof.
  unfold createAfterCreateApp, receivePrepare, uploadTask, UploadApp, RemoveAll,
    addServiceBindings, createBindRoutes, bindRoute, CreateRouteMapping,
    createStart, StartApp, StartDockerApp, ReadApp.
  cbn zeta.
  assert (∀ id add am bindings,
    emits (fun ev => isCreateApp ev = false)
      (addServiceBindings_loop id add am bindings)) as Hb.
  { intros id add am. induction add as [|b add IH]; intros bindings;
      cbn [addServiceBindings_loop]; unfold CreateServiceBinding;
      repeat first [ apply IH | emits_step ]. }
  repeat first [ apply Hb | emits_step ].
Qed.

(** ** Create: one creation, after look-ups *)

Lemma createDeferred_run am app err (t : trace) :
  ∃ err' D,
    createDeferred am app err t = (Done err', t ++ D)
    ∧ match err with
      | None => D = [] ∧ err' = None
      | Some e => ∃ res, D = [EvDeleteApp (ID app) true res]
                         ∧ err' = Some (default e res)
      end.
Proof.
  unfold createDeferred, DeleteApp. destruct err as [e|]; run.
  - set (res := am_DeleteApp am t (ID app) true).
    exists (Some (default e res)), [EvDeleteApp (ID app) true res].
    split; [by destruct res|]. by exists res.
  - exists None, []. by rewrite app_nil_r.
Qed.

(** X5. [resourceAppCreateCfApp] asks for the creation of one application
    at most, that of the configuration, and before it only looks things
    up (the download or the repository of the binary, the mappings of the
    routes). When it does not get to the creation it fails and the
    configuration is handed back as it was. *)
Theorem create_asks_for_one_application_after_lookups (d : ResourceData)
    (session : Session) (appConfig : cfAppConfig) (t : trace) :
  ∃ cfg' err pre post,
    resourceAppCreateCfApp d (Some session) appConfig t
      = (Done (cfg', err), t ++ pre ++ post)
    ∧ Forall (fun ev => isLookup ev = true) pre
    ∧ (post = [] ∧ err ≠ None ∧ cfg' = appConfig
       ∨ ∃ res post',
           post = EvCreateApp (cfg_app appConfig) res :: post'
           ∧ Forall (fun ev => isCreateApp ev = false) post').
Proof.
  unfold resourceAppCreateCfApp. run.
  destruct (createUpToCreateApp_run d session appConfig t)
    as (created & cerr & pre & post & -> & Hpre & Hpost).
  destruct cerr as [e|]; run.
  { exists appConfig, (Some e), pre, post. split; [done|]. split; [done|].
    destruct Hpost as [[-> _]|[-> _]]; [by left|]. right.
    by eexists _, []. }
  destruct Hpost as [[_ ?]|[-> _]]; [done|].
  destruct (createAfterCreateApp_isCreateApp d session appConfig (cr_app created)
              (cr_appPath created) (cr_routeConfig created)
              (cr_defaultRoute created) (cr_stageRoute created)
              (cr_liveRoute created)
              (t ++ pre ++ [EvCreateApp (cfg_app appConfig) (cr_app created, None)]))
    as ([[app' cfg'] err] & B & -> & HB).
  run.
  destruct (createDeferred_run (AppManager_ session) app' err
              ((t ++ pre ++ [EvCreateApp (cfg_app appConfig) (cr_app created, None)])
               ++ B)) as (err' & D & -> & HD). run.
  exists cfg', err', pre, (EvCreateApp (cfg_app appConfig) (cr_app created, None)
                           :: B ++ D).
  split; [by rewrite <- !app_assoc|]. split; [done|]. right.
  eexists _, _. split; [done|]. apply Forall_app. split; [done|].
  destruct err as [e|]; [destruct HD as (res & -> & _)|destruct HD as [-> _]];
    by repeat constructor.
Qed.

(** X6. The stage route and the live route go together: when the legacy
    route block names one of the two and not the other, the create fails
    before it asks for the creation of the application; all it did is
    look things up, and the configuration is handed back as it was. *)
Theorem create_wants_stage_and_live_routes_together (d : ResourceData)
    (session : Session) (appConfig : cfAppConfig) (t : trace) :
  nonempty (routeSlot d "stage_route") ≠ nonempty (routeSlot d "live_route") →
  ∃ e evs,
    resourceAppCreateCfApp d (Some session) appConfig t
      = (Done (appConfig, Some e), t ++ evs)
    ∧ Forall (fun ev => isLookup ev = true) evs.
Proof.
  intros Hone. unfold resourceAppCreateCfApp. run.
  destruct (createUpToCreateApp_run d session appConfig t)
    as (created & cerr & pre & post & -> & Hpre & Hpost).
  destruct Hpost as [[-> Herr]|(_ & _ & Hs & Hl & Hboth)].
  - destruct cerr as [e|]; [|done]. run. exists e, pre. by rewrite app_nil_r.
  - by rewrite Hs, Hl in Hboth.
Qed.

(** The theorem for a route block that names a stage route only. *)
Lemma create_wants_stage_and_live_routes_together_witness :
  let new :=
    Demo.attrsWith 1 "file:///tmp/web.zip" [] []
      [ {[ "stage_route" := "route-stage" ]} ] [] ∅ in
  let d := Demo.data "" Demo.attrs new in
  ∃ e evs,
    resourceAppCreateCfApp d (Some (Demo.healthy 1)) (Demo.config (Demo.desired 1)) []
      = (Done (Demo.config (Demo.desired 1), Some e), [] ++ evs)
    ∧ Forall (fun ev => isLookup ev = true) evs.
Proof.
  intros new d.
  apply (create_wants_stage_and_live_routes_together d (Demo.healthy 1)
           (Demo.config (Demo.desired 1)) []).
  vm_compute. discriminate.
Defined.

(** ** Create: a rollout needs the stage route *)







(** ** Create: docker images and stopped applications *)

Lemma addServiceBindings_loop_emits_any (P : event -> Prop) id add am bindings :
  (∀ a b c r, P (EvCreateServiceBinding a b c r)) →
  emits P (addServiceBindings_loop id add am bindings).
Proof.
  intros HP. revert bindings. induction add as [|b add IH]; intros bindings;
    cbn [addServiceBindings_loop]; unfold CreateServiceBinding;
    repeat first [ apply IH | apply emits_perform; intros; apply HP | emits_step ].
Qed.

Ltac emits_create :=
  unfold resourceAppCreateCfApp, createUpToCreateApp, createAfterCreateApp,
    createDeferred, prepareApp, download, getRepositoryFromConfig,
    createValidateRoutes, validateRoute, ReadRouteMappingsByRoute, CreateApp,
    receivePrepare, uploadTask, UploadApp, RemoveAll, addServiceBindings,
    createBindRoutes, bindRoute, CreateRouteMapping, createStart, StartApp,
    StartDockerApp, ReadApp, DeleteApp;
  cbn zeta.

(** X9. With a docker image, [resourceAppCreateCfApp] never handles a
    binary: no download, no repository, no upload, no removal of files,
    and the application is started, if at all, as a docker application. *)
Theorem create_from_docker_image_handles_no_binary (d : ResourceData)
    (session : Session) (appConfig : cfAppConfig) (t : trace) :
  okString (docker_image (rdNew d)) = true →
  ∃ r evs,
    resourceAppCreateCfApp d (Some session) appConfig t = (Done r, t ++ evs)
    ∧ Forall (fun ev => isBinaryStep ev = false) evs.
Proof.
  intros Hdocker. revert t.
  change (emits (fun ev => isBinaryStep ev = false)
            (resourceAppCreateCfApp d (Some session) appConfig)).
  emits_create. rewrite Hdocker. cbn [negb].
  repeat first
    [ apply addServiceBindings_loop_emits_any; by intros | emits_step ].
Qed.

(** The theorem on the healthy platform, for an application made from a
    docker image. *)
Lemma create_from_docker_image_handles_no_binary_witness :
  ∃ r evs,
    resourceAppCreateCfApp
      (Demo.data "" Demo.attrs (Sample.withDocker "registry/web:1" Demo.attrs))
      (Some (Demo.healthy 1)) (Demo.config (Demo.desired 1)) []
      = (Done r, [] ++ evs)
    ∧ Forall (fun ev => isBinaryStep ev = false) evs.
Proof.
  apply (create_from_docker_image_handles_no_binary
           (Demo.data "" Demo.attrs (Sample.withDocker "registry/web:1" Demo.attrs))
           (Demo.healthy 1) (Demo.config (Demo.desired 1)) []).
  reflexivity.
Defined.

(** X10. With [stopped] set, [resourceAppCreateCfApp] never starts the
    application: its calls hold neither [StartApp] nor
    [StartDockerApp]. *)
Theorem create_of_stopped_application_starts_nothing (d : ResourceData)
    (session : Session) (appConfig : cfAppConfig) (t : trace) :
  stopped (rdNew d) = true →
  ∃ r evs,
    resourceAppCreateCfApp d (Some session) appConfig t = (Done r, t ++ evs)
    ∧ Forall (fun ev => isStart ev = false) evs.
Proof.
  intros Hstopped. revert t.
  change (emits (fun ev => isStart ev = false)
            (resourceAppCreateCfApp d (Some session) appConfig)).
  emits_create. rewrite Hstopped. cbn [negb].
  repeat first
    [ apply addServiceBindings_loop_emits_any; by intros | emits_step ].
Qed.

(** The theorem on the healthy platform, for an application that is to
    stay stopped. *)
Lemma create_of_stopped_application_starts_nothing_witness :
  ∃ r evs,
    resourceAppCreateCfApp
      (Demo.data "" Demo.attrs (Sample.withStopped true Demo.attrs))
      (Some (Demo.healthy 1)) (Demo.config (Demo.desired 1)) []
      = (Done r, [] ++ evs)
    ∧ Forall (fun ev => isStart ev = false) evs.
Proof.
  apply (create_of_stopped_application_starts_nothing
           (Demo.data "" Demo.attrs (Sample.withStopped true Demo.attrs))
           (Demo.healthy 1) (Demo.config (Demo.desired 1)) []).
  reflexivity.
Defined.

(** X11. A create from a [file://] url removes no local file: the files
    the url names are uploaded from where they are and left there. (The
    standard update removes the path it uploaded from in every case.) *)
Theorem create_from_a_file_url_removes_no_file (d : ResourceData)
    (session : Session) (appConfig : cfAppConfig) (t : trace) :
  strings_HasPrefix (url (rdNew d)) "file://" = true →
  ∃ r evs,
    resourceAppCreateCfApp d (Some session) appConfig t = (Done r, t ++ evs)
    ∧ Forall (fun ev => isRemoveAll ev = false) evs.
Proof.
  intros Hfile.
  assert (okString (url (rdNew d)) = true) as Hurl
    by by destruct (url (rdNew d)).
  revert t.
  change (emits (fun ev => isRemoveAll ev = false)
            (resourceAppCreateCfApp d (Some session) appConfig)).
  emits_create. rewrite Hfile, Hurl. cbn [negb].
  repeat first
    [ apply addServiceBindings_loop_emits_any; by intros | emits_step ].
Qed.

(** The theorem on the healthy platform, for the url
    [file:///tmp/web.zip]. *)
Lemma create_from_a_file_url_removes_no_file_witness :
  ∃ r evs,
    resourceAppCreateCfApp (Demo.data "" Demo.attrs Demo.attrs)
      (Some (Demo.healthy 1)) (Demo.config (Demo.desired 1)) []
      = (Done r, [] ++ evs)
    ∧ Forall (fun ev => isRemoveAll ev = false) evs.
Proof.
  apply (create_from_a_file_url_removes_no_file
           (Demo.data "" Demo.attrs Demo.attrs)
           (Demo.healthy 1) (Demo.config (Demo.desired 1)) []).
  reflexivity.
Defined.

(** ** Create: what is handed back *)

Lemma createAfterCreateApp_done d session appConfig app appPath routeConfig
    defaultRoute stageRoute liveRoute (t : trace) :
  ∃ app' cfg' err evs,
    createAfterCreateApp d session appConfig app appPath routeConfig
      defaultRoute stageRoute liveRoute t = (Done (app', cfg', err), t ++ evs)
    ∧ (err = None →
       ∃ pre serviceBindings,
         evs = pre ++ [EvReadApp (ID app) (app', None)]
         ∧ cfg' = {| cfg_app := app';
                     cfg_routeConfig := cfg_routeConfig appConfig;
                     cfg_serviceBindings :=
                       if okList (service_binding (rdNew d)) then serviceBindings
                       else cfg_serviceBindings appConfig |}
         ∧ (okList (service_binding (rdNew d)) = true →
            length serviceBindings = length (service_binding (rdNew d)))).
Proof.
  unfold createAfterCreateApp, receivePrepare, ReadApp. cbn zeta. run.
  destruct (lc_prepare (Local_ session) t) as [e|]; run.
  { by eexists _, _, (Some e), [_]. }
  match goal with
  | |- context [match ?m (t ++ ?p) with _ => _ end] =>
      assert (emits (fun _ => True) m) as Hu
        by (unfold uploadTask, UploadApp, RemoveAll; repeat emits_step);
      destruct (Hu (t ++ p)) as (upload & u & -> & _); clear Hu
  end.
  run.
  assert (∃ serviceBindings berr evs2,
    (if okList (service_binding (rdNew d))
     then addServiceBindings (ID app) (service_binding (rdNew d))
            (AppManager_ session)
     else mret ([], None)) ((t ++ [EvPrepare None]) ++ u)
      = (Done (serviceBindings, berr), ((t ++ [EvPrepare None]) ++ u) ++ evs2)
    ∧ (berr = None → okList (service_binding (rdNew d)) = true →
       length serviceBindings = length (service_binding (rdNew d))))
    as (serviceBindings & berr & evs2 & -> & Hlen).
  { destruct (okList (service_binding (rdNew d))).
    - destruct (addServiceBindings_loop_run (ID app) (service_binding (rdNew d))
                  (AppManager_ session) [] ((t ++ [EvPrepare None]) ++ u))
        as (done & ids & last & berr & Hlen & Hb & Hberr).
      eexists _, berr, _. split; [exact Hb|].
      intros -> _. destruct Hberr as [-> _]. cbn. rewrite length_zip_with. lia.
    - exists [], None, []. by rewrite app_nil_r. }
  run. destruct berr as [e|]; run.
  { eexists _, _, (Some e), _. rewrite <- !app_assoc. by split. }
  match goal with
  | |- context [createBindRoutes ?a ?b ?c ?e ?f ?g ?h ?t0] =>
      destruct (createBindRoutes_emits a b c e f g h t0)
        as ([rc rerr] & evs3 & -> & _)
  end.
  destruct rerr as [e|]; run.
  { eexists _, _, (Some e), _. rewrite <- !app_assoc. by split. }
  destruct (if negb _ then upload else None) as [e|]; run.
  { eexists _, _, (Some e), _. rewrite <- !app_assoc. by split. }
  match goal with
  | |- context [createStart ?a ?b ?c ?t0] =>
      destruct (createStart_run a b c t0) as (serr & s & -> & _)
  end.
  destruct serr as [e|]; run.
  { eexists _, _, (Some e), _. rewrite <- !app_assoc. by split. }
  match goal with
  | |- context [am_ReadApp ?a ?t0 ?i] =>
      destruct (am_ReadApp a t0 i) as [app' [e|]]
  end; run.
  { eexists _, _, (Some e), _. rewrite <- !app_assoc. by split. }
  eexists app', _, None, _. rewrite <- !app_assoc. split; [reflexivity|].
  intros _. eexists (_ :: u ++ evs2 ++ evs3 ++ s), serviceBindings.
  split; [cbn; f_equal; by rewrite <- !app_assoc|]. split; [done|].
  by apply Hlen.
Qed.

Lemma resourceAppCreateCfApp_done d session appConfig (t : trace) :
  ∃ cfg' err evs,
    resourceAppCreateCfApp d (Some session) appConfig t
      = (Done (cfg', err), t ++ evs)
    ∧ cfg_routeConfig cfg' = cfg_routeConfig appConfig
    ∧ match err with
      | Some _ => cfg' = appConfig
      | None =>
          (∃ pre id, evs = pre ++ [EvReadApp id (cfg_app cfg', None)])
          ∧ length (cfg_serviceBindings cfg')
            = (if okList (service_binding (rdNew d))
               then length (service_binding (rdNew d))
               else length (cfg_serviceBindings appConfig))
      end.
Proof.
  unfold resourceAppCreateCfApp. run.
  destruct (createUpToCreateApp_emits d session appConfig t)
    as ([created cerr] & Q & -> & _).
  destruct cerr as [e|]; run.
  { by exists appConfig, (Some e), Q. }
  destruct (createAfterCreateApp_done d session appConfig (cr_app created)
              (cr_appPath created) (cr_routeConfig created)
              (cr_defaultRoute created) (cr_stageRoute created)
              (cr_liveRoute created) (t ++ Q))
    as (app' & cfg' & err & B & Hrun & Hdone).
  destruct (createAfterCreateApp_run d session appConfig (cr_app created)
              (cr_appPath created) (cr_routeConfig created)
              (cr_defaultRoute created) (cr_stageRoute created)
              (cr_liveRoute created) (t ++ Q))
    as (app1 & cfg1 & err1 & B1 & Hrun1 & _ & Herr & Hrc & _).
  rewrite Hrun in Hrun1. injection Hrun1 as <- <- <- _.
  rewrite Hrun. run.
  destruct (createDeferred_run (AppManager_ session) app' err ((t ++ Q) ++ B))
    as (err' & D & -> & HD). run.
  exists cfg', err', (Q ++ B ++ D). rewrite <- !app_assoc.
  split; [done|]. split; [done|]. destruct err as [e|].
  - destruct HD as (res & -> & ->). by destruct (Herr ltac:(done)) as [-> _].
  - destruct HD as [-> ->].
    destruct (Hdone eq_refl) as (pre & serviceBindings & -> & -> & Hlen).
    split.
    + exists (Q ++ pre), (ID (cr_app created)).
      by rewrite app_nil_r, <- app_assoc.
    + cbn. destruct (okList _); [by apply Hlen|done].
Qed.


(** X13. [resourceAppCreate] records an id only when the whole create
    succeeded, and then it is the id of the application its last call,
    the read of the created application, returned, whose name and space
    are written to the resource data. After an error the resource data is
    as it was: nothing is recorded, also when the application had been
    created. *)
Theorem resourceAppCreate_records_the_application_read_last
    (d : ResourceData) (session : Session) (t : trace) :
  ∃ o evs,
    resourceAppCreate d (Some session) t = (o, t ++ evs)
    ∧ ∀ d' err, o = Done (d', err) →
        match err with
        | Some _ => d' = d
        | None =>
            ∃ pre id app,
              evs = pre ++ [EvReadApp id (app, None)]
              ∧ rdId d' = ID app
              ∧ name (rdNew d') = Name app
              ∧ space (rdNew d') = SpaceGUID app
        end.
Proof.
  unfold resourceAppCreate. run.
  match goal with
  | |- context [resourceAppCreateCfApp d (Some session) ?cfg t] =>
      destruct (resourceAppCreateCfApp_done d session cfg t)
        as (cfg' & err & evs & -> & _ & Hdone)
  end.
  destruct err as [e|]; run.
  { eexists _, evs. split; [done|]. by intros d' err [= <- <-]. }
  destruct Hdone as [(pre & id & ->) _].
  unfold setAppArguments. cbn [State Ports].
  destruct (State (cfg_app cfg')) as [state|], (Ports (cfg_app cfg')) as [ps|];
    run; try (eexists _, _; split; [reflexivity|]; by intros).
  eexists _, _. split; [reflexivity|]. intros d' err [= <- <-].
  by exists pre, id, (cfg_app cfg').
Qed.

(** ** Writing an application back *)

Lemma setPtr_getOk {A : Type} (imp : bool) (ok : A -> bool) (zero v : A) :
  (ok v = false → v = zero) → setPtr imp (getOk ok v) zero v = v.
Proof.
  intros Hzero. unfold setPtr, getOk. destruct (ok v); [done|].
  destruct imp; [by rewrite Hzero|done].
Qed.

Lemma okString_zero s : okString s = false → s = "".
Proof. by destruct s. Qed.

Lemma okInt_zero z : okInt z = false → z = 0.
Proof.
  unfold okInt. intros H%bool_decide_eq_false. by destruct (decide (z = 0)).
Qed.

Lemma okBool_zero b : okBool b = false → b = false.
Proof. done. Qed.

Lemma okMap_zero (m : gmap string string) : okMap m = false → m = ∅.
Proof.
  unfold okMap. intros H%bool_decide_eq_false.
  by destruct (decide (m = ∅)).
Qed.

(** X14. Round trip of the create: the application [resourceAppCreate]
    builds from the resource data, reported back by the platform with the
    same ports and with a state that agrees with [stopped], is written
    back by [setAppArguments] without a change to any attribute, in and
    out of an import. It makes no call. *)
Theorem application_of_the_data_is_written_back_unchanged
    (d : ResourceData) (state : string) (ps : list Z) (t : trace) :
  list_to_set ps = ports (rdNew d) →
  stopped (rdNew d) = bool_decide (state ≠ "STARTED") →
  ∃ d',
    setAppArguments (reportedBack (appOfData d) state ps) d t = (Done d', t)
    ∧ rdNew d' = rdNew d
    ∧ rdId d' = rdId d.
Proof.
  intros Hports Hstopped. unfold setAppArguments. cbn [State Ports reportedBack].
  run. eexists. split; [done|]. split; [|done].
  cbn [rdNew SetAttrs SetPartial]. unfold appArguments, appOfData.
  cbn [Name SpaceGUID Instances Memory DiskQuota StackGUID Buildpack Command
       EnableSSH Environment HealthCheckHTTPEndpoint HealthCheckType
       HealthCheckTimeout reportedBack].
  rewrite Hports, <- Hstopped.
  rewrite !setPtr_getOk
    by first [ apply okString_zero | apply okInt_zero | apply okBool_zero
             | apply okMap_zero ].
  by destruct (rdNew d).
Qed.

(** The theorem for the attributes of [Demo], reported back as started. *)
Lemma application_of_the_data_is_written_back_unchanged_witness :
  let d := Demo.data "" Demo.attrs Demo.attrs in
  ∃ d',
    setAppArguments (reportedBack (appOfData d) "STARTED" []) d [] = (Done d', [])
    ∧ rdNew d' = rdNew d
    ∧ rdId d' = rdId d.
Proof.
  intros d.
  apply (application_of_the_data_is_written_back_unchanged d "STARTED" [] []);
    reflexivity.
Defined.

Lemma setPtr_twice {A : Type} (imp : bool) (p : option A) (zero cur : A) :
  setPtr imp p zero (setPtr imp p zero cur) = setPtr imp p zero cur.
Proof. by destruct p, imp. Qed.

(** X15. [setAppArguments] makes no call. It panics exactly when the
    application has no state or no ports. Otherwise it leaves the id, the
    prior state and the attributes that do not come from the application
    (timeout, sources of the binary, docker image and credentials,
    bindings, routes, blue-green block, deposed map) as they were, and
    writing the same application back once more changes no attribute. *)
Theorem setAppArguments_leaves_own_attributes (app : CCApp)
    (d : ResourceData) (t : trace) :
  match State app, Ports app with
  | Some _, Some _ =>
      ∃ d',
        setAppArguments app d t = (Done d', t)
        ∧ rdId d' = rdId d ∧ rdOld d' = rdOld d
        ∧ sameOwnAttributes (rdNew d) (rdNew d')
        ∧ ∃ d'', setAppArguments app d' t = (Done d'', t)
                 ∧ rdNew d'' = rdNew d'
  | _, _ => setAppArguments app d t = (Panic, t)
  end.
Proof.
  unfold setAppArguments.
  destruct (State app) as [state|], (Ports app) as [ps|]; try done.
  run. eexists. split; [done|]. split; [done|]. split; [done|].
  split; [by repeat split|]. eexists. split; [done|].
  cbn [rdNew SetAttrs SetPartial rdImport]. unfold appArguments.
  cbn [instances memory disk_quota stack buildpack command enable_ssh timeout
       stopped url docker_image docker_credentials git github_release
       add_content service_binding route routes environment
       health_check_http_endpoint health_check_type health_check_timeout
       blue_green deposed].
  by rewrite !setPtr_twice.
Qed.

(** ** Read: the check of the deposed resources *)

Lemma readDeposedLoop_events (am : AppManager) (keys : list string)
    (m : gmap string string) (t : trace) :
  ∃ m' evs,
    readDeposedLoop am keys m t = (Done m', t ++ evs)
    ∧ m' ⊆ m
    ∧ Forall (fun ev => isReadApp ev = true) evs
    ∧ readAppIDs evs = keys.
Proof.
  revert m t. induction keys as [|r keys IH]; intros m t.
  - exists m, []. by rewrite app_nil_r.
  - cbn [readDeposedLoop]. unfold ReadApp. run.
    destruct (am_ReadApp am t r) as [app err] eqn:Hr.
    assert (∃ m1, m1 ⊆ m ∧
      match err with
      | Some e =>
          if is404 e then readDeposedLoop am keys (delete r m)
          else readDeposedLoop am keys m
      | None => readDeposedLoop am keys (delete r m)
      end = readDeposedLoop am keys m1) as (m1 & Hm1 & ->).
    { destruct err as [e|]; [destruct (is404 e)|]; eexists; (split; [|done]);
        first [ apply delete_subseteq | done ]. }
    destruct (IH m1 (t ++ [EvReadApp r (app, err)]))
      as (m' & evs & -> & Hsub & Hread & Hids).
    exists m', (EvReadApp r (app, err) :: evs). rewrite <- app_assoc.
    split; [done|]. split; [by etrans|]. split; [by constructor|].
    cbn. by rewrite <- Hids.
Qed.

Lemma set_deposed_same (a : Attrs) : set_deposed (deposed a) a = a.
Proof. by destruct a. Qed.

Lemma readDeposed_events (am : AppManager) (d : ResourceData) (t : trace) :
  ∃ d' evs,
    readDeposed am d t = (Done d', t ++ evs)
    ∧ deposed (rdNew d') ⊆ deposed (rdNew d)
    ∧ d' = SetAttrs (set_deposed (deposed (rdNew d'))) d
    ∧ Forall (fun ev => isReadApp ev = true) evs
    ∧ readAppIDs evs ≡ₚ elements (dom (deposed (rdNew d))).
Proof.
  unfold readDeposed. cbn zeta.
  destruct (okMap (deposed (rdNew d))) eqn:Hok; run.
  - destruct (readDeposedLoop_events am (map_to_list (deposed (rdNew d))).*1
                (deposed (rdNew d)) t) as (m' & evs & -> & Hsub & Hread & Hids).
    eexists _, evs. split; [done|]. split; [done|]. split; [done|].
    split; [done|]. rewrite Hids.
    apply NoDup_Permutation; [apply NoDup_fst_map_to_list | apply NoDup_elements |].
    intros k. rewrite elem_of_elements, elem_of_dom, list_elem_of_fmap.
    split.
    + intros ([k' v] & -> & Hin). apply elem_of_map_to_list in Hin. by eexists.
    + intros [v Hv]. exists (k, v). split; [done|]. by apply elem_of_map_to_list.
  - apply okMap_zero in Hok. exists d, []. rewrite app_nil_r.
    split; [done|]. split; [done|].
    split; [destruct d; unfold SetAttrs; cbn; by rewrite set_deposed_same|].
    split; [done|]. rewrite Hok, dom_empty_L, elements_empty. done.
Qed.

(** X16. The check of the deposed resources in [resourceAppRead] reads
    every application of the deposed map once, and makes no other call.
    It only ever removes entries of the map: what it writes back is a
    part of the map it found, and it changes nothing else of the resource
    data. *)
Theorem readDeposed_checks_every_id_once (am : AppManager)
    (d : ResourceData) (t : trace) :
  ∃ d' evs,
    readDeposed am d t = (Done d', t ++ evs)
    ∧ deposed (rdNew d') ⊆ deposed (rdNew d)
    ∧ d' = SetAttrs (set_deposed (deposed (rdNew d'))) d
    ∧ Forall (fun ev => isReadApp ev = true) evs
    ∧ readAppIDs evs ≡ₚ elements (dom (deposed (rdNew d))).
Proof. apply readDeposed_events. Qed.

(** X17. On a platform that answers the existence check of an id the same
    way every time, the check of the deposed resources keeps exactly the
    ids whose check fails with an error other than a 404, and checking
    once more changes nothing further. *)
Theorem readDeposed_keeps_the_unverifiable_ids (am : AppManager)
    (answer : string -> option error) (d : ResourceData) (t : trace) :
  (∀ t0 r, (am_ReadApp am t0 r).2 = answer r) →
  ∃ d1 t1 d2 t2,
    readDeposed am d t = (Done d1, t1)
    ∧ (∀ k, deposed (rdNew d1) !! k
            = if keptOnRead (answer k) then deposed (rdNew d) !! k else None)
    ∧ readDeposed am d1 t1 = (Done d2, t2)
    ∧ deposed (rdNew d2) = deposed (rdNew d1).
Proof.
  intros Hans.
  destruct (readDeposed_lookup am answer d t Hans) as (d1 & t1 & H1 & L1).
  destruct (readDeposed_lookup am answer d1 t1 Hans) as (d2 & t2 & H2 & L2).
  exists d1, t1, d2, t2. split; [done|]. split; [done|]. split; [done|].
  apply map_eq. intros k. rewrite L2, L1. by destruct (keptOnRead _).
Qed.

(** The theorem for three deposed applications: one that is gone, one that
    cannot be read, one that is still there. Only the second stays
    recorded. *)
Lemma readDeposed_keeps_the_unverifiable_ids_witness :
  let dep : gmap string string :=
    {[ "app-gone" := "application"; "app-unknown" := "application";
       "app-live" := "application" ]} in
  let d :=
    Demo.data "app-new" Demo.attrs
      (Demo.attrsWith 1 "file:///tmp/web.zip" [] [] [] [] dep) in
  let am := AppManager_ (Sample.checked Sample.answers) in
  ∃ d1 t1 d2 t2,
    readDeposed am d [] = (Done d1, t1)
    ∧ deposed (rdNew d1) !! "app-unknown" = Some "application"
    ∧ deposed (rdNew d1) !! "app-gone" = None
    ∧ deposed (rdNew d1) !! "app-live" = None
    ∧ readDeposed am d1 t1 = (Done d2, t2)
    ∧ deposed (rdNew d2) = deposed (rdNew d1).
Proof.
  intros dep d am.
  destruct (readDeposed_keeps_the_unverifiable_ids am Sample.answers d []
              (fun _ _ => eq_refl))
    as (d1 & t1 & d2 & t2 & H1 & L & H2 & Heq).
  exists d1, t1, d2, t2. split; [exact H1|].
  rewrite !L. split; [vm_compute; reflexivity|].
  split; [reflexivity|]. split; [reflexivity|]. split; [exact H2|exact Heq].
Defined.

(** ** Read: the application and its routes *)

(** X18. When the read of the application fails, [resourceAppRead] writes
    no attribute of the application. After a 404 it clears the id and
    reports no error: the resource is gone. Any other error is reported
    and the id stays. In both cases the deposed resources are still
    checked, each once. *)
Theorem read_of_a_missing_application_clears_the_id
    (ReadRouteMappingsByApp :
       RouteManager -> string -> M (list (gmap string value) * option error))
    (setRoute : gmap string (option value) -> ResourceData -> ResourceData)
    (setContains : RouteEntry -> list RouteEntry -> bool)
    (newSet : list RouteEntry -> list RouteEntry)
    (d : ResourceData)
    (session : Session) (t : trace) (app : CCApp) (e : error) :
  am_ReadApp (AppManager_ session) t (rdId d) = (app, Some e) →
  ∃ d' evs,
    resourceAppRead ReadRouteMappingsByApp setRoute setContains newSet d
      (Some session) t
      = (Done (d', if is404 e then None else Some e),
         t ++ EvReadApp (rdId d) (app, Some e) :: evs)
    ∧ rdId d' = (if is404 e then "" else rdId d)
    ∧ rdNew d' = set_deposed (deposed (rdNew d')) (rdNew d)
    ∧ deposed (rdNew d') ⊆ deposed (rdNew d)
    ∧ readAppIDs evs ≡ₚ elements (dom (deposed (rdNew d))).
Proof.
  intros Hread. unfold resourceAppRead, readApplication, ReadApp. cbn zeta. run.
  rewrite Hread. run. destruct (is404 e); run.
  - destruct (readDeposed_events (AppManager_ session) (SetId "" d)
                (t ++ [EvReadApp (rdId d) (app, Some e)]))
      as (d' & evs & -> & Hsub & Hd' & _ & Hids).
    run. exists d', evs. rewrite <- app_assoc. split; [done|].
    rewrite Hd' at 1 2. by repeat split.
  - destruct (readDeposed_events (AppManager_ session) d
                (t ++ [EvReadApp (rdId d) (app, Some e)]))
      as (d' & evs & -> & Hsub & Hd' & _ & Hids).
    run. exists d', evs. rewrite <- app_assoc. split; [done|].
    rewrite Hd' at 1 2. by repeat split.
Qed.

(** The theorem for an application that is gone. *)
Lemma read_of_a_missing_application_clears_the_id_witness :
  let d := Demo.data "app-gone" Demo.attrs Demo.attrs in
  ∃ d' evs,
    resourceAppRead (Sample.mappingsOf [] None) Sample.keepRoute
      Sample.contains Sample.asSet d (Some (Sample.checked Sample.answers)) []
      = (Done (d', None),
         [] ++ EvReadApp "app-gone" (CCApp_zero, Some "status code: 404") :: evs)
    ∧ rdId d' = "".
Proof.
  intros d.
  destruct (read_of_a_missing_application_clears_the_id
              (Sample.mappingsOf [] None) Sample.keepRoute Sample.contains
              Sample.asSet d (Sample.checked Sample.answers) [] CCApp_zero
              "status code: 404" eq_refl)
    as (d' & evs & Hrun & Hid & _).
  assert (is404 "status code: 404" = true) as H404 by reflexivity.
  rewrite H404 in Hrun, Hid. by exists d', evs.
Defined.

(** X19. When the application has a legacy route block or a [routes] set
    and its route mappings cannot be read, [resourceAppRead] returns that
    error at once: the deposed resources are not checked, and the deposed
    map stays as it was. *)
Theorem read_stops_when_the_mappings_are_unreadable
    (ReadRouteMappingsByApp :
       RouteManager -> string -> M (list (gmap string value) * option error))
    (setRoute : gmap string (option value) -> ResourceData -> ResourceData)
    (setContains : RouteEntry -> list RouteEntry -> bool)
    (newSet : list RouteEntry -> list RouteEntry)
    (d : ResourceData)
    (session : Session) (t : trace) (app : CCApp) (state : string)
    (ps : list Z) (routeMappings : list (gmap string value)) (e : error)
    (t2 : trace) :
  am_ReadApp (AppManager_ session) t (rdId d) = (app, None) →
  State app = Some state →
  Ports app = Some ps →
  okList (route (rdNew d)) || okList (routes (rdNew d)) = true →
  ReadRouteMappingsByApp (RouteManager_ session) (ID app)
    (t ++ [EvReadApp (rdId d) (app, None)])
    = (Done (routeMappings, Some e), t2) →
  ∃ d',
    resourceAppRead ReadRouteMappingsByApp setRoute setContains newSet d
      (Some session) t = (Done (d', Some e), t2)
    ∧ deposed (rdNew d') = deposed (rdNew d).
Proof.
  intros Hread Hstate Hports Hroutes Hmappings.
  unfold resourceAppRead, readApplication, ReadApp, setAppArguments.
  cbn zeta. run. rewrite Hread. run. rewrite Hstate, Hports. run.
  cbn [rdNew SetAttrs SetPartial appArguments route routes].
  destruct (okList (route (rdNew d))); run.
  - rewrite Hmappings. run. by eexists.
  - cbn in Hroutes. rewrite Hroutes. run. rewrite Hmappings. run. by eexists.
Qed.

(** The theorem for an application with a legacy route block and a deposed
    resource, on a platform where the route mappings cannot be read. *)
Lemma read_stops_when_the_mappings_are_unreadable_witness :
  let new :=
    Demo.attrsWith 1 "file:///tmp/web.zip" [] [] [Sample.defaultRouteBlock] []
      {[ "app-gone" := "application" ]} in
  let d := Demo.data "app-old" new new in
  let read := EvReadApp "app-old" (Demo.reported "app-old" "web" 1, None) in
  ∃ d',
    resourceAppRead (Sample.mappingsOf [] (Some "status code: 500"))
      Sample.keepRoute Sample.contains Sample.asSet d (Some (Demo.healthy 1)) []
      = (Done (d', Some "status code: 500"), [] ++ [read])
    ∧ deposed (rdNew d') = deposed (rdNew d).
Proof.
  intros new d read.
  apply (read_stops_when_the_mappings_are_unreadable
           (Sample.mappingsOf [] (Some "status code: 500")) Sample.keepRoute
           Sample.contains Sample.asSet d (Demo.healthy 1) []
           (Demo.reported "app-old" "web" 1) "STARTED" [8080] []
           "status code: 500" ([] ++ [read])); reflexivity.
Defined.

Lemma firstMapping_none (routeMappings : list (gmap string value))
    (want : option value) :
  Forall (fun mapping => mapping !! "route" ≠ want) routeMappings →
  firstMapping routeMappings want = None.
Proof.
  induction 1 as [|mapping rest Hm _ IH]; [done|].
  cbn. by rewrite bool_decide_eq_false_2.
Qed.

Lemma refreshLegacyRoute_none (routeMappings : list (gmap string value))
    (stateRouteMappings : gmap string string) (slots : list string)
    (current : gmap string (option value)) (found : bool) :
  Forall (fun r => firstMapping routeMappings
                     (VString <$> stateRouteMappings !! r) = None) slots →
  (refreshLegacyRoute routeMappings stateRouteMappings slots current found).2
  = found.
Proof.
  intros H. revert current. induction H as [|r slots Hr _ IH]; intros current;
    [done|].
  cbn [refreshLegacyRoute]. rewrite Hr. apply IH.
Qed.

(** X20. The refresh of the legacy route block: when no route mapping of
    the application has the route of any of the three slots (so also
    when the application has no mapping left), [resourceAppRead] writes
    nothing to the block, which stays as the state had it. *)
Theorem read_keeps_the_route_block_when_no_mapping_matches
    (ReadRouteMappingsByApp :
       RouteManager -> string -> M (list (gmap string value) * option error))
    (setRoute : gmap string (option value) -> ResourceData -> ResourceData)
    (setContains : RouteEntry -> list RouteEntry -> bool)
    (newSet : list RouteEntry -> list RouteEntry)
    (d : ResourceData) (session : Session) (t : trace) (app : CCApp)
    (state : string) (ps : list Z) (stateRouteMappings : gmap string string)
    (routeMappings : list (gmap string value)) (t2 : trace) :
  am_ReadApp (AppManager_ session) t (rdId d) = (app, None) →
  State app = Some state →
  Ports app = Some ps →
  route (rdNew d) = [stateRouteMappings] →
  ReadRouteMappingsByApp (RouteManager_ session) (ID app)
    (t ++ [EvReadApp (rdId d) (app, None)])
    = (Done (routeMappings, None), t2) →
  (∀ mapping r, mapping ∈ routeMappings → r ∈ legacyRouteSlots →
                mapping !! "route" ≠ VString <$> stateRouteMappings !! r) →
  ∃ d' evs,
    resourceAppRead ReadRouteMappingsByApp setRoute setContains newSet d
      (Some session) t = (Done (d', None), t2 ++ evs)
    ∧ route (rdNew d') = [stateRouteMappings].
Proof.
  intros Hread Hstate Hports Hroute Hmappings Hnone.
  unfold resourceAppRead, readApplication, ReadApp, setAppArguments.
  cbn zeta. run. rewrite Hread. run. rewrite Hstate, Hports. run.
  cbn [rdNew SetAttrs SetPartial appArguments route routes].
  rewrite Hroute. cbn [okList]. run. rewrite Hmappings. run.
  pose proof (refreshLegacyRoute_none routeMappings stateRouteMappings
                legacyRouteSlots ∅ false) as Hfound.
  destruct (refreshLegacyRoute routeMappings stateRouteMappings
              legacyRouteSlots ∅ false) as [current found].
  cbn in Hfound. rewrite Hfound.
  2: { apply Forall_forall. intros r Hr. apply firstMapping_none.
       apply Forall_forall. intros mapping Hm. by apply Hnone. }
  run.
  match goal with
  | |- context [readDeposed ?am ?d0 t2] =>
      destruct (readDeposed_events am d0 t2) as (d' & evs & -> & _ & Hd' & _)
  end.
  run. exists d', evs. split; [done|]. rewrite Hd'. by cbn.
Qed.

(** The theorem for an application whose only route mapping is to another
    route than the one of its route block. *)
Lemma read_keeps_the_route_block_when_no_mapping_matches_witness :
  let new :=
    Demo.attrsWith 1 "file:///tmp/web.zip" [] [] [Sample.defaultRouteBlock] [] ∅ in
  let d := Demo.data "app-old" new new in
  let read := EvReadApp "app-old" (Demo.reported "app-old" "web" 1, None) in
  let elsewhere : gmap string value :=
    {[ "route" := VString "route-9"; "mapping_id" := VString "mapping-9" ]} in
  ∃ d' evs,
    resourceAppRead (Sample.mappingsOf [elsewhere] None) Sample.keepRoute
      Sample.contains Sample.asSet d (Some (Demo.healthy 1)) []
      = (Done (d', None), ([] ++ [read]) ++ evs)
    ∧ route (rdNew d') = [Sample.defaultRouteBlock].
Proof.
  intros new d read elsewhere.
  apply (read_keeps_the_route_block_when_no_mapping_matches
           (Sample.mappingsOf [elsewhere] None) Sample.keepRoute
           Sample.contains Sample.asSet d (Demo.healthy 1) []
           (Demo.reported "app-old" "web" 1) "STARTED" [8080]
           Sample.defaultRouteBlock [elsewhere] ([] ++ [read]));
    try reflexivity.
  intros mapping r Hm Hr.
  apply list_elem_of_singleton in Hm as ->.
  unfold legacyRouteSlots in Hr.
  repeat (apply elem_of_cons in Hr as [->|Hr]);
    [vm_compute; discriminate ..|by apply elem_of_nil in Hr].
Defined.

(** ** Blue-green: the scaling loop in general *)

Lemma scaleUpNew_any am newID newName newState timeoutDuration
    (desired new : Z) (t : trace) :
  ∃ o evs,
    scaleUpNew am newID newName newState timeoutDuration desired new t
      = (o, t ++ evs)
    ∧ appDeletes evs = []
    ∧ ∀ new', o = Done (new', None) →
        Forall (fun ev => isFailedUpdate ev = false) evs
        ∧ new' = (if new <? desired then new + 1 else new).
Proof.
  unfold scaleUpNew, UpdateApp, waitUnlessStopped, WaitForAppToStart.
  destruct (new <? desired); run.
  2: { eexists _, []. rewrite app_nil_r. split; [done|]. split; [done|].
       by intros ? [= <-]. }
  destruct (am_UpdateApp am t _) as [r [e|]]; run.
  { eexists _, [_]. split; [done|]. split; [done|]. by intros ? [=]. }
  destruct newState as [ns|]; run.
  2: { eexists _, [_]. split; [done|]. split; [done|]. by intros ? [=]. }
  destruct (bool_decide (ns ≠ "STOPPED")); run.
  - eexists _, [_; _]. rewrite <- app_assoc. split; [done|]. split; [done|].
    intros ? [= <-]. split; [by repeat constructor | done].
  - eexists _, [_]. split; [done|]. split; [done|].
    intros ? [= <-]. split; [by repeat constructor | done].
Qed.

Lemma scaleDownVenerable_any am venerableID venerableName venerableState
    (venerable : Z) (t : trace) :
  ∃ o evs,
    scaleDownVenerable am venerableID venerableName venerableState venerable t
      = (o, t ++ evs)
    ∧ appDeletes evs = []
    ∧ ∀ venerable', o = Done (venerable', None) →
        Forall (fun ev => isFailedUpdate ev = false) evs
        ∧ venerable' = (if 1 <? venerable then venerable - 1 else venerable).
Proof.
  unfold scaleDownVenerable, UpdateApp, pauseUnlessStopped.
  destruct (1 <? venerable); run.
  2: { eexists _, []. rewrite app_nil_r. split; [done|]. split; [done|].
       by intros ? [= <-]. }
  destruct (am_UpdateApp am t _) as [r [e|]]; run.
  { eexists _, [_]. split; [done|]. split; [done|]. by intros ? [=]. }
  destruct venerableState as [vs|]; run.
  2: { eexists _, [_]. split; [done|]. split; [done|]. by intros ? [=]. }
  eexists _, [_]. split; [done|]. split; [done|].
  intros ? [= <-]. split; [by repeat constructor | done].
Qed.

(** The scaling loop on any platform: it deletes nothing, and when it is
    left by its condition every update succeeded, the replacement has the
    desired count at least and the venerable application one instance at
    most. *)
Lemma scalingExchange_any (rounds : nat) am newID newName venerableID
    venerableName newState venerableState timeoutDuration
    (desired new venerable : Z) (t : trace) :
  ∃ o evs,
    scalingExchange rounds am newID newName venerableID venerableName
      newState venerableState timeoutDuration desired new venerable t
      = (o, t ++ evs)
    ∧ appDeletes evs = []
    ∧ ∀ final, o = Done (Some (inr final)) →
        Forall (fun ev => isFailedUpdate ev = false) evs
        ∧ desired ≤ final.1 ∧ final.2 ≤ 1.
Proof.
  revert new venerable t.
  induction rounds as [|rounds IH]; intros new venerable t;
    cbn [scalingExchange];
    destruct ((new <? desired) || (1 <? venerable)) eqn:Hcond.
  - eexists _, []. rewrite app_nil_r. split; [done|]. split; [done|].
    by intros ? [=].
  - eexists _, []. rewrite app_nil_r. split; [done|]. split; [done|].
    intros ? [= <-]. apply orb_false_elim in Hcond as [?%Z.ltb_ge ?%Z.ltb_ge].
    done.
  - run.
    destruct (scaleUpNew_any am newID newName newState timeoutDuration desired
                new t) as (o1 & evs1 & -> & Hd1 & H1).
    destruct o1 as [[new' [e|]]|]; run;
      try (eexists _, evs1; split; [done|]; split; [done|]; by intros ? [=]).
    destruct (H1 new' eq_refl) as [Hf1 _].
    destruct (scaleDownVenerable_any am venerableID venerableName
                venerableState venerable (t ++ evs1))
      as (o2 & evs2 & -> & Hd2 & H2).
    destruct o2 as [[venerable' [e|]]|]; run;
      try (eexists _, (evs1 ++ evs2); rewrite <- app_assoc; split; [done|];
           split; [by rewrite appDeletes_app, Hd1, Hd2|]; by intros ? [=]).
    destruct (H2 venerable' eq_refl) as [Hf2 _].
    destruct (IH new' venerable' ((t ++ evs1) ++ evs2))
      as (o3 & evs3 & -> & Hd3 & H3).
    exists o3, (evs1 ++ evs2 ++ evs3). rewrite <- !app_assoc.
    split; [done|]. split; [by rewrite !appDeletes_app, Hd1, Hd2, Hd3|].
    intros final Hfinal. destruct (H3 final Hfinal) as (Hf3 & ? & ?).
    split; [by repeat (apply Forall_app; split)|done].
  - eexists _, []. rewrite app_nil_r. split; [done|]. split; [done|].
    intros ? [= <-]. apply orb_false_elim in Hcond as [?%Z.ltb_ge ?%Z.ltb_ge].
    done.
Qed.

(** X21. From the scaling loop on, a blue-green update deletes an
    application at most once: the venerable one, as its last call, and
    only after a loop in which every update succeeded and that left the
    replacement with the desired count at least. When it returns without
    an error that delete was made and succeeded. *)
Theorem blue_green_deletes_the_venerable_application_last
    (am : AppManager) (d : ResourceData) (newApp venerableApp : CCApp)
    (appConfig : cfAppConfig) (t : trace) :
  ∃ o evs,
    blueGreenExchange am d newApp venerableApp appConfig t = (o, t ++ evs)
    ∧ (appDeletes evs = []
       ∨ ∃ pre res,
           evs = pre ++ [EvDeleteApp (ID venerableApp) true res]
           ∧ appDeletes pre = []
           ∧ Forall (fun ev => isFailedUpdate ev = false) pre)
    ∧ ∀ d', o = Done (d', None) →
        ∃ pre, evs = pre ++ [EvDeleteApp (ID venerableApp) true None].
Proof.
  unfold blueGreenExchange. cbn zeta.
  destruct (Instances newApp) as [desired|], (Instances venerableApp) as [v|];
    try (eexists _, []; rewrite app_nil_r; split; [done|];
         split; [by left | by intros]).
  run.
  match goal with
  | |- context [scalingExchange ?r ?a ?b ?c ?e ?f ?g ?h ?i ?j ?k ?l t] =>
      destruct (scalingExchange_any r a b c e f g h i j k l t)
        as (o & evs & -> & Hd & Hleft)
  end.
  destruct o as [[[e|final]|]|]; run;
    try (eexists _, evs; split; [done|]; split; [by left | by intros]).
  destruct (Hleft final eq_refl) as (Hok & _).
  unfold DeleteApp. run.
  destruct (am_DeleteApp am (t ++ evs) (ID venerableApp) true) as [e|] eqn:Hdel;
    run.
  - eexists _, (evs ++ [_]). rewrite <- app_assoc. split; [done|].
    split; [|by intros]. right. by eexists evs, _.
  - eexists _, (evs ++ [_]). rewrite <- app_assoc. split; [done|].
    split; [right; by eexists evs, _|]. intros _ _. by exists evs.
Qed.

Lemma seqZ_snoc (m n : Z) : 0 < n → seqZ m n = seqZ m (n - 1) ++ [m + n - 1].
Proof.
  intros Hn. replace n with ((n - 1) + 1) at 1 by lia.
  rewrite seqZ_app by lia. f_equal. rewrite seqZ_cons by lia.
  rewrite seqZ_nil by lia. f_equal. lia.
Qed.

Lemma filter_own (id : string) (z : Z) :
  filter (fun p : string * Z => p.1 = id) [(id, z)] = [(id, z)].
Proof. rewrite filter_cons, filter_nil. by rewrite decide_True. Qed.

Lemma filter_other (id id' : string) (z : Z) :
  id' ≠ id → filter (fun p : string * Z => p.1 = id) [(id', z)] = [].
Proof. intros Hne. rewrite filter_cons, filter_nil. by rewrite decide_False. Qed.

Lemma exchangeSchedule_counts (rounds : nat) (newID venerableID : string)
    (desired new venerable : Z) :
  newID ≠ venerableID →
  (exchangeRounds desired new venerable ≤ rounds)%nat →
  let schedule :=
    exchangeSchedule rounds newID venerableID desired new venerable in
  (filter (fun p => p.1 = newID) schedule).*2 = countUp new desired
  ∧ (filter (fun p => p.1 = venerableID) schedule).*2 = countDown venerable 1.
Proof.
  intros Hne. unfold countUp, countDown. revert new venerable.
  induction rounds as [|rounds IH]; intros new venerable Hle; cbn zeta.
  - apply exchangeRounds_zero in Hle.
    apply orb_false_elim in Hle as [?%Z.ltb_ge ?%Z.ltb_ge].
    cbn. by rewrite !seqZ_nil by lia.
  - cbn [exchangeSchedule].
    destruct ((new <? desired) || (1 <? venerable)) eqn:Hcond.
    2: { apply orb_false_elim in Hcond as [Hn Hv]. rewrite Hn, Hv. cbn [app].
         rewrite exchangeSchedule_done by by rewrite Hn, Hv.
         apply Z.ltb_ge in Hn, Hv. cbn. by rewrite !seqZ_nil by lia. }
    pose proof (exchangeRounds_step _ _ _ _ Hcond Hle) as Hle'.
    destruct (IH _ _ Hle') as [IHn IHv]. clear IH.
    rewrite !filter_app, !fmap_app, IHn, IHv. clear IHn IHv.
    assert (Hup : new < desired →
      new + 1 :: seqZ (new + 1 + 1) (desired - (new + 1))
      = seqZ (new + 1) (desired - new)).
    { intros ?. rewrite (seqZ_cons (new + 1) (desired - new)) by lia.
      do 2 f_equal; lia. }
    assert (Hdown : 1 < venerable →
      venerable - 1 :: reverse (seqZ 1 (venerable - 1 - 1))
      = reverse (seqZ 1 (venerable - 1))).
    { intros ?. rewrite (seqZ_snoc 1 (venerable - 1)) by lia.
      rewrite reverse_app. cbn. f_equal. lia. }
    destruct (Z.ltb_spec new desired), (Z.ltb_spec 1 venerable);
      try discriminate Hcond;
      rewrite ?filter_own, ?filter_other, ?filter_nil by done;
      cbn [fmap list_fmap app snd]; auto.
Qed.

Lemma scalingExchange_final (rounds : nat) am newID newName venerableID
    venerableName (ns vs : string) timeoutDuration
    (desired new venerable : Z) (t : trace) final t' :
  scalingExchange rounds am newID newName venerableID venerableName
    (Some ns) (Some vs) timeoutDuration desired new venerable t
    = (Done (Some (inr final)), t') →
  final = (Z.max new desired, Z.min venerable 1).
Proof.
  revert new venerable t.
  induction rounds as [|rounds IH]; intros new venerable t;
    cbn [scalingExchange];
    destruct ((new <? desired) || (1 <? venerable)) eqn:Hcond; run;
    try (intros [= <- _]; apply orb_false_elim in Hcond as [?%Z.ltb_ge ?%Z.ltb_ge];
         f_equal; lia);
    try done.
  destruct (scaleUpNew_any am newID newName (Some ns) timeoutDuration desired
              new t) as (o1 & evs1 & -> & _ & H1).
  destruct o1 as [[new' [e|]]|]; run; try done.
  destruct (H1 new' eq_refl) as [_ ->].
  destruct (scaleDownVenerable_any am venerableID venerableName (Some vs)
              venerable (t ++ evs1)) as (o2 & evs2 & -> & _ & H2).
  destruct o2 as [[venerable' [e|]]|]; run; try done.
  destruct (H2 venerable' eq_refl) as [_ ->].
  intros Hrun. apply IH in Hrun. rewrite Hrun.
  destruct (Z.ltb_spec new desired), (Z.ltb_spec 1 venerable); f_equal; lia.
Qed.

(** X22. The scaling loop of the blue-green update, on a platform that
    accepts every update, for two applications that both report a state:
    the replacement is scaled one instance at a time from where it is up
    to the desired count, the venerable application one instance at a
    time down to one; nothing is deleted, and the loop ends with the
    replacement at the desired count (or where it was, if above) and the
    venerable application at one instance (or where it was, if below). *)
Theorem scaling_moves_one_instance_at_a_time (am : AppManager)
    (newID newName venerableID venerableName ns vs : string)
    (timeoutDuration desired new venerable : Z) (t : trace) :
  newID ≠ venerableID →
  (∀ t0 app, (am_UpdateApp am t0 app).2 = None) →
  ∃ evs,
    scalingExchange (exchangeRounds desired new venerable) am newID newName
      venerableID venerableName (Some ns) (Some vs) timeoutDuration
      desired new venerable t
      = (Done (Some (inr (Z.max new desired, Z.min venerable 1))), t ++ evs)
    ∧ instanceUpdatesOf newID evs = countUp new desired
    ∧ instanceUpdatesOf venerableID evs = countDown venerable 1
    ∧ appDeletes evs = [].
Proof.
  intros Hne Hok.
  destruct (scalingExchange_run (exchangeRounds desired new venerable) am
              newID newName venerableID venerableName ns vs timeoutDuration
              desired new venerable t Hok ltac:(done))
    as (final & evs & Hrun & Hsched & Hdel).
  pose proof (scalingExchange_final _ _ _ _ _ _ _ _ _ _ _ _ _ _ _ Hrun) as ->.
  exists evs. split; [done|]. unfold instanceUpdatesOf. rewrite Hsched.
  destruct (exchangeSchedule_counts (exchangeRounds desired new venerable)
              newID venerableID desired new venerable Hne ltac:(done))
    as [Hn Hv].
  done.
Qed.

(** The theorem for four instances wanted, a replacement at one and a
    venerable application at two. *)
Lemma scaling_moves_one_instance_at_a_time_witness :
  ∃ evs,
    scalingExchange (exchangeRounds 4 1 2)
      (Demo.am 2 None None None Demo.noError) "app-new" "web" "app-old"
      "web-venerable" (Some "STARTED") (Some "STARTED") 60 4 1 2 []
      = (Done (Some (inr (4, 1))), [] ++ evs)
    ∧ instanceUpdatesOf "app-new" evs = [2; 3; 4]
    ∧ instanceUpdatesOf "app-old" evs = [1]
    ∧ appDeletes evs = [].
Proof.
  apply (scaling_moves_one_instance_at_a_time
           (Demo.am 2 None None None Demo.noError) "app-new" "web" "app-old"
           "web-venerable" "STARTED" "STARTED" 60 4 1 2 []);
    [discriminate | intros; reflexivity].
Defined.

(** ** Blue-green: the record of the venerable application *)



(** ** Standard update: restage or restart *)

Lemma standardFinalState_run (am : AppManager) (d : ResourceData) (app : CCApp)
    (t : trace) :
  ∃ r evs,
    standardFinalState am d app t = (Done r, t ++ evs)
    ∧ Forall (fun ev => isRestage ev = false) evs
    ∧ Forall (fun ev => isRemoveAll ev = false) evs.
Proof.
  unfold standardFinalState, StopApp, StartApp. cbn zeta.
  destruct (HasChange stopped d); [destruct (stopped (rdNew d))|]; run.
  - destruct (am_StopApp am t _ _); run; eexists _, [_];
      (split; [done|]; split; by repeat constructor).
  - destruct (am_StartApp am t _ _); run; eexists _, [_];
      (split; [done|]; split; by repeat constructor).
  - eexists _, []. by rewrite app_nil_r.
Qed.

Lemma standardFinish_choice
    (am : AppManager) (d : ResourceData) (app : CCApp)
    (binaryUpdated restart restage : bool) (t : trace) (curApp : CCApp)
    (packageState : string) :
  binaryUpdated || restage = true →
  am_ReadApp am t (ID app) = (curApp, None) →
  PackageState curApp = Some packageState →
  ∃ o evs,
    standardFinish am d app binaryUpdated restart restage t
      = (o, t ++ EvReadApp (ID app) (curApp, None) :: evs)
    ∧ if bool_decide (packageState = "PENDING") then
        Forall (fun ev => isRestage ev = false) evs
        ∧ (stopped (rdNew d) = false →
           ∃ res post, evs = EvStopApp (ID app) (timeout (rdNew d)) res :: post
             ∧ (res = None →
                ∃ res' post',
                  post = EvStartApp (ID app) (timeout (rdNew d)) res' :: post'))
      else
        ∃ res post,
          evs = EvRestageApp (ID app) (timeout (rdNew d)) res :: post
          ∧ Forall (fun ev => isRestage ev = false) post.
Proof.
  intros Hdue Hread Hpackage.
  unfold standardFinish, ReadApp, RestageApp, WaitForAppToStart, StopApp,
    StartApp. cbn zeta. run. rewrite Hread. run. rewrite Hdue, Hpackage.
  destruct (bool_decide_reflect (packageState = "PENDING")) as [->|Hne].
  - rewrite bool_decide_eq_false_2 by (intros H; by apply H). run.
    destruct (stopped (rdNew d)) eqn:Hstopped; cbn [negb andb]; run.
    + destruct (standardFinalState_run am d app
                  (t ++ [EvReadApp (ID app) (curApp, None)]))
        as (r & evs & -> & Hevs & _).
      eexists _, evs. rewrite <- app_assoc. by repeat split.
    + destruct (am_StopApp am _ (ID app) (timeout (rdNew d))) as [e|] eqn:Hstop;
        run.
      { eexists _, [_]. rewrite <- app_assoc. split; [done|].
        split; [by repeat constructor|]. intros _. by eexists _, []. }
      destruct (am_StartApp am _ (ID app) (timeout (rdNew d))) as [e|] eqn:Hstart;
        run.
      { eexists _, [_; _]. rewrite <- !app_assoc. split; [done|].
        split; [by repeat constructor|]. intros _. eexists _, _.
        split; [done|]. intros _. by eexists _, []. }
      match goal with
      | |- context [standardFinalState am d app ?t0] =>
          destruct (standardFinalState_run am d app t0)
            as (r & evs & -> & Hevs & _)
      end.
      eexists _, (EvStopApp (ID app) (timeout (rdNew d)) None
                  :: EvStartApp (ID app) (timeout (rdNew d)) None :: evs).
      rewrite <- !app_assoc. split; [done|].
      split; [by repeat constructor|]. intros _. eexists _, _.
      split; [done|]. intros _. by eexists _, _.
  - rewrite bool_decide_eq_true_2 by done. run.
    destruct (am_RestageApp am _ (ID app) (timeout (rdNew d))) as [e|] eqn:Hrs;
      run.
    { eexists _, [_]. rewrite <- app_assoc. split; [done|]. by eexists _, []. }
    destruct (State curApp) as [state|]; run.
    2: { eexists _, [_]. rewrite <- app_assoc. split; [done|]. by eexists _, []. }
    destruct (bool_decide (state = "STARTED")); run.
    + destruct (am_WaitForAppToStart am _ app (timeout (rdNew d))) as [e|]
        eqn:Hwait; run.
      { eexists _, [_; _]. rewrite <- !app_assoc. split; [done|].
        eexists _, [_]. split; [done|]. by repeat constructor. }
      match goal with
      | |- context [standardFinalState am d app ?t0] =>
          destruct (standardFinalState_run am d app t0)
            as (r & evs & -> & Hevs & _)
      end.
      eexists _, (_ :: _ :: evs). rewrite <- !app_assoc. split; [done|].
      eexists _, (_ :: evs). split; [done|]. by repeat constructor.
    + match goal with
      | |- context [standardFinalState am d app ?t0] =>
          destruct (standardFinalState_run am d app t0)
            as (r & evs & -> & Hevs & _)
      end.
      eexists _, (_ :: evs). rewrite <- !app_assoc. split; [done|].
      by eexists _, evs.
Qed.

(** X24. The end of the standard update, when the binary was uploaded or a
    restage is due, and the application could be read: if its package is
    not pending, the next call is the restage, and no other restage
    follows; if its package is pending the application is never
    restaged, and, unless [stopped] is set, the next calls stop it and,
    when that succeeded, start it. *)
Theorem standard_update_restages_unless_the_package_is_pending
    (am : AppManager) (d : ResourceData) (app : CCApp)
    (binaryUpdated restart restage : bool) (t : trace) (curApp : CCApp)
    (packageState : string) :
  binaryUpdated || restage = true →
  am_ReadApp am t (ID app) = (curApp, None) →
  PackageState curApp = Some packageState →
  ∃ o evs,
    standardFinish am d app binaryUpdated restart restage t
      = (o, t ++ EvReadApp (ID app) (curApp, None) :: evs)
    ∧ if bool_decide (packageState = "PENDING") then
        Forall (fun ev => isRestage ev = false) evs
        ∧ (stopped (rdNew d) = false →
           ∃ res post, evs = EvStopApp (ID app) (timeout (rdNew d)) res :: post
             ∧ (res = None →
                ∃ res' post',
                  post = EvStartApp (ID app) (timeout (rdNew d)) res' :: post'))
      else
        ∃ res post,
          evs = EvRestageApp (ID app) (timeout (rdNew d)) res :: post
          ∧ Forall (fun ev => isRestage ev = false) post.
Proof. apply standardFinish_choice. Qed.

(** The theorem on the healthy platform, where the package of the
    application is staged: the restage follows the read. *)
Lemma standard_update_restages_unless_the_package_is_pending_witness :
  let am := Demo.am 1 None None None Demo.noError in
  let d := Demo.data "app-old" Demo.attrs Demo.attrs in
  let app := Demo.reported "app-old" "web" 1 in
  ∃ o res post,
    standardFinish am d app true false false []
      = (o, [] ++ EvReadApp "app-old" (app, None)
                 :: EvRestageApp "app-old" 60 res :: post)
    ∧ Forall (fun ev => isRestage ev = false) post.
Proof.
  intros am d app.
  destruct (standard_update_restages_unless_the_package_is_pending am d app
              true false false [] app "STAGED" eq_refl eq_refl eq_refl)
    as (o & evs & Hrun & Hchoice).
  rewrite bool_decide_eq_false_2 in Hchoice by discriminate.
  destruct Hchoice as (res & post & -> & Hpost). by exists o, res, post.
Defined.


(** ** Standard update: the files of the binary *)

Lemma deferRemoveAll_run {A : Type} (lc : Local) (appPath : string) (m : M A)
    (t : trace) (o : outcome A) (evs : trace) :
  m t = (o, t ++ evs) →
  deferRemoveAll lc appPath m t
  = (o, t ++ evs ++ [EvRemoveAll appPath (lc_RemoveAll lc (t ++ evs) appPath)]).
Proof. intros Hm. unfold deferRemoveAll. by rewrite Hm, <- app_assoc. Qed.

Lemma standardFinish_any (am : AppManager) (d : ResourceData) (app : CCApp)
    (binaryUpdated restart restage : bool) (t : trace) :
  ∃ o evs,
    standardFinish am d app binaryUpdated restart restage t = (o, t ++ evs)
    ∧ Forall (fun ev => isRemoveAll ev = false) evs.
Proof.
  unfold standardFinish, ReadApp, RestageApp, WaitForAppToStart, StopApp,
    StartApp. cbn zeta. run.
  destruct (am_ReadApp am t (ID app)) as [curApp [e|]]; run.
  { eexists _, [_]. split; [done|]. by repeat constructor. }
  assert (Hend : ∀ (err : option error) evs0,
    Forall (fun ev => isRemoveAll ev = false) evs0 →
    ∃ o evs,
      match err with
      | Some e => mret (d, Some e)
      | None => standardFinalState am d app
      end (t ++ evs0) = (o, t ++ evs)
      ∧ Forall (fun ev => isRemoveAll ev = false) evs).
  { intros [e|] evs0 H0; run.
    - by eexists _, evs0.
    - destruct (standardFinalState_run am d app (t ++ evs0))
        as (r & evs & -> & _ & Hevs).
      eexists _, (evs0 ++ evs). rewrite <- app_assoc. split; [done|].
      by apply Forall_app. }
  match goal with
  | |- context [match ?m ?t0 with _ => _ end] =>
      destruct (m t0) as [[[restart' restage']|] t1] eqn:Hflags
  end.
  2: { assert (t1 = t ++ [EvReadApp (ID app) (curApp, None)]) as ->.
       { destruct (binaryUpdated || restage); [|done].
         destruct (PackageState curApp); [|by injection Hflags].
         by destruct (bool_decide _). }
       eexists _, [_]. split; [done|]. by repeat constructor. }
  assert (t1 = t ++ [EvReadApp (ID app) (curApp, None)]) as ->.
  { destruct (binaryUpdated || restage); [|by injection Hflags].
    destruct (PackageState curApp); [|done].
    destruct (bool_decide _); by injection Hflags. }
  clear Hflags. run.
  destruct restage'; run.
  - destruct (am_RestageApp am _ _ _) as [e|]; run.
    { rewrite <- app_assoc. apply (Hend (Some e)). by repeat constructor. }
    destruct (State curApp) as [state|]; run.
    2: { eexists _, [_; _]. rewrite <- app_assoc. split; [done|].
         by repeat constructor. }
    destruct (bool_decide (state = "STARTED")); run.
    + rewrite <- !app_assoc. apply Hend. by repeat constructor.
    + rewrite <- !app_assoc. apply (Hend None). by repeat constructor.
  - destruct (restart' && negb (stopped (rdNew d))); run.
    + destruct (am_StopApp am _ _ _) as [e|]; run.
      { rewrite <- app_assoc. apply (Hend (Some e)). by repeat constructor. }
      rewrite <- !app_assoc. apply Hend. by repeat constructor.
    + apply (Hend None). by repeat constructor.
Qed.

(** X25. When the binary changed and its files have been prepared at
    [appPath], the standard update uploads them and, however the rest of
    the update ends (an error, a panic, a success), its last call removes
    [appPath], and it is the only removal. For a [file://] url the path
    removed is the local path the url names. *)
Theorem standard_update_removes_the_prepared_files_last
    (am : AppManager) (lc : Local) (d : ResourceData) (app : CCApp)
    (restart restage : bool) (t : trace) (appPath : string) (t1 : trace) :
  binaryChanged d = true →
  prepareApp lc app d t = (Done (appPath, None), t1) →
  ∃ o ures evs res,
    standardBinary am lc d app restart restage t
      = (o, t1 ++ EvUploadApp app appPath (add_content (rdNew d)) ures
               :: evs ++ [EvRemoveAll appPath res])
    ∧ Forall (fun ev => isRemoveAll ev = false) evs
    ∧ (strings_HasPrefix (url (rdNew d)) "file://" = true →
       appPath = string_drop 7 (url (rdNew d))).
Proof.
  intros Hchanged Hprepare. unfold standardBinary.
  unfold binaryChanged in Hchanged. rewrite Hchanged. run.
  rewrite Hprepare. run.
  assert (∃ o ures evs,
    (err ← UploadApp am app appPath (add_content (rdNew d));
     match err with
     | Some e => mret (d, Some e)
     | None => standardFinish am d app true restart restage
     end) t1
    = (o, t1 ++ EvUploadApp app appPath (add_content (rdNew d)) ures :: evs)
    ∧ Forall (fun ev => isRemoveAll ev = false) evs)
    as (o & ures & evs & Hrest & Hevs).
  { unfold UploadApp. run.
    destruct (am_UploadApp am t1 app appPath (add_content (rdNew d))) as [e|];
      run.
    - by eexists _, _, [].
    - destruct (standardFinish_any am d app true restart restage
                  (t1 ++ [EvUploadApp app appPath (add_content (rdNew d)) None]))
        as (o & evs & -> & Hevs).
      eexists _, _, evs. by rewrite <- app_assoc. }
  rewrite (deferRemoveAll_run lc appPath _ t1 o _ Hrest).
  eexists o, ures, evs, _. split; [reflexivity|]. split; [done|].
  intros Hfile.
  unfold prepareApp in Hprepare. rewrite Hfile in Hprepare.
  destruct (okString (url (rdNew d))) eqn:Hu.
  - by injection Hprepare as <- _.
  - by destruct (url (rdNew d)).
Qed.

(** The theorem for a url changed to [file:///tmp/web.zip]: the local path
    [/tmp/web.zip] is removed at the end. *)
Lemma standard_update_removes_the_prepared_files_last_witness :
  let am := Demo.am 1 None None None Demo.noError in
  let old := Demo.attrsWith 1 "file:///tmp/old.zip" [] [] [] [] ∅ in
  let d := Demo.data "app-old" old Demo.attrs in
  let app := Demo.reported "app-old" "web" 1 in
  ∃ o ures evs res,
    standardBinary am (Demo.lc None) d app false false []
      = (o, [] ++ EvUploadApp app "/tmp/web.zip" [] ures
               :: evs ++ [EvRemoveAll "/tmp/web.zip" res])
    ∧ Forall (fun ev => isRemoveAll ev = false) evs.
Proof.
  intros am old d app.
  destruct (standard_update_removes_the_prepared_files_last am (Demo.lc None)
              d app false false [] "/tmp/web.zip" [] eq_refl eq_refl)
    as (o & ures & evs & res & Hrun & Hevs & _).
  by exists o, ures, evs, res.
Defined.

(** ** Standard update: the service bindings *)

Lemma addServiceBindings_loop_creates id add am bindings :
  emits (fun ev => isCreateServiceBinding ev = true)
    (addServiceBindings_loop id add am bindings).
Proof.
  revert bindings. induction add as [|b add IH]; intros bindings;
    cbn [addServiceBindings_loop]; unfold CreateServiceBinding;
    repeat first [ apply IH | emits_step ].
Qed.

Lemma standardBindings_run
    (getListChangedSchemaLists :
       list ServiceBinding -> list ServiceBinding ->
       list ServiceBinding * list ServiceBinding)
    (am : AppManager) (d : ResourceData) (app : CCApp) (restage : bool)
    (t : trace) :
  HasChange service_binding d = true →
  let changes :=
    getListChangedSchemaLists (service_binding (rdOld d))
      (service_binding (rdNew d)) in
  ∃ r dels adds,
    standardBindings getListChangedSchemaLists am d app restage t
      = (Done r, t ++ bindingDeleteEvents dels ++ adds)
    ∧ deletesUpToFirst anyError (nonemptyIDs (binding_id <$> changes.1)) dels
    ∧ Forall (fun ev => isCreateServiceBinding ev = true) adds
    ∧ (∀ e, firstErrorBy anyError dels = Some e →
            adds = [] ∧ r = (d, restage, Some e))
    ∧ (r.2 = None →
       r.1.2 = true ∧ "service_binding" ∈ rdPartialKeys r.1.1).
Proof.
  intros Hchanged changes. unfold standardBindings. rewrite Hchanged.
  fold changes. destruct changes as [bindingsToDelete bindingsToAdd] eqn:Hc.
  cbn [fst]. run.
  destruct (removeServiceBindings_run bindingsToDelete am t)
    as (dels & -> & Hdels).
  destruct (firstErrorBy anyError dels) as [e|] eqn:Herr; run.
  { exists (d, restage, Some e), dels, []. rewrite app_nil_r.
    split; [done|]. split; [done|]. split; [done|].
    split; [|done]. intros e0 He0. rewrite Herr in He0. by injection He0 as <-. }
  destruct (addServiceBindings_loop_creates (ID app) bindingsToAdd am []
              (t ++ bindingDeleteEvents dels))
    as ([added aerr] & adds & Hadd & Hadds).
  unfold addServiceBindings. rewrite Hadd. run.
  destruct aerr as [e|]; run.
  - eexists _, dels, adds. rewrite <- app_assoc. split; [done|].
    split; [done|]. split; [done|]. split; [|done].
    intros e0 He0. by rewrite Herr in He0.
  - eexists _, dels, adds. rewrite <- app_assoc. split; [done|].
    split; [done|]. split; [done|].
    split; [intros e0 He0; by rewrite Herr in He0|]. intros _.
    split; [done|]. cbn. destruct (okList added); cbn;
      apply elem_of_cons; by left.
Qed.

(** X26. When the service bindings changed, the standard update removes
    bindings before it adds any: its calls are deletes of the bindings to
    remove (those with an id, in order, up to the first failure), then
    creations. When a delete fails nothing is added and the resource data
    is returned as it was, with the error. When the block succeeds a
    restage is due and [service_binding] is marked as saved. *)
Theorem standard_update_unbinds_before_it_binds
    (getListChangedSchemaLists :
       list ServiceBinding -> list ServiceBinding ->
       list ServiceBinding * list ServiceBinding)
    (am : AppManager) (d : ResourceData) (app : CCApp) (restage : bool)
    (t : trace) :
  HasChange service_binding d = true →
  let changes :=
    getListChangedSchemaLists (service_binding (rdOld d))
      (service_binding (rdNew d)) in
  ∃ r dels adds,
    standardBindings getListChangedSchemaLists am d app restage t
      = (Done r, t ++ bindingDeleteEvents dels ++ adds)
    ∧ deletesUpToFirst anyError (nonemptyIDs (binding_id <$> changes.1)) dels
    ∧ Forall (fun ev => isCreateServiceBinding ev = true) adds
    ∧ (∀ e, firstErrorBy anyError dels = Some e →
            adds = [] ∧ r = (d, restage, Some e))
    ∧ (r.2 = None →
       r.1.2 = true ∧ "service_binding" ∈ rdPartialKeys r.1.1).
Proof. apply standardBindings_run. Qed.

(** The theorem for a binding of ["mq"] replaced by a binding of ["db"]. *)
Lemma standard_update_unbinds_before_it_binds_witness :
  let am := Demo.am 1 None None None Demo.noError in
  let bound := withBindingID "binding-mq"
                 {| service_instance := "mq"; params := None; binding_id := "" |} in
  let old := Demo.attrsWith 1 "file:///tmp/web.zip" [] [bound] [] [] ∅ in
  let new := Demo.attrsWith 1 "file:///tmp/web.zip" [] [Sample.db] [] [] ∅ in
  let d := Demo.data "app-old" old new in
  let app := Demo.reported "app-old" "web" 1 in
  ∃ r dels adds,
    standardBindings Sample.changedBindings am d app false []
      = (Done r, [] ++ bindingDeleteEvents dels ++ adds)
    ∧ dels.*1 = ["binding-mq"]
    ∧ Forall (fun ev => isCreateServiceBinding ev = true) adds
    ∧ r.2 = None ∧ r.1.2 = true.
Proof.
  intros am bound old new d app.
  destruct (standard_update_unbinds_before_it_binds Sample.changedBindings am d
              app false [] eq_refl)
    as (r & dels & adds & Hrun & Hdels & Hadds & Hfail & Hok).
  exists r, dels, adds. split; [exact Hrun|].
  assert (∃ r0 t0, standardBindings Sample.changedBindings am d app false []
                   = (Done r0, t0) ∧ r0.2 = None
                   ∧ bindingDeletes t0 = [("binding-mq", None)])
    as (r0 & t0 & Hrun0 & Hnone & Ht0).
  { eexists _, _. split; [vm_compute; reflexivity|]. by split. }
  rewrite Hrun in Hrun0. injection Hrun0 as <- <-.
  cbn [app] in Ht0.
  rewrite bindingDeletes_app, bindingDeletes_of in Ht0.
  split.
  - assert (bindingDeletes adds = []) as Hnil.
    { clear -Hadds. induction Hadds as [|ev adds Hev _ IH]; [done|].
      by destruct ev. }
    rewrite Hnil, app_nil_r in Ht0. by rewrite Ht0.
  - split; [done|]. split; [done|]. by apply Hok.
Defined.

(** X27. A change of the service bindings alone makes the standard update
    restage: with no flag raised, when the block of the bindings succeeds
    and leaves the routes and the binary as the prior state has them, and
    the application is read with a package that is not pending, the
    standard update reads the application under the id of the resource
    and restages it next. *)
Theorem standard_update_restages_after_a_change_of_bindings
    (getListChangedSchemaLists :
       list ServiceBinding -> list ServiceBinding ->
       list ServiceBinding * list ServiceBinding)
    (standardLegacyRoutes standardMigrateRoutes standardRoutesSet :
       ResourceData -> Session -> CCApp -> M (ResourceData * option error))
    (d : ResourceData) (session : Session) (app : CCApp) (t : trace)
    (d1 : ResourceData) (restage1 : bool) (t1 : trace)
    (curApp : CCApp) (packageState : string) :
  let am := AppManager_ session in
  let app' := CCApp_withID (rdId d) app in
  HasChange service_binding d = true →
  standardBindings getListChangedSchemaLists am d app' false t
    = (Done (d1, restage1, None), t1) →
  HasChange route d1 = false →
  HasChange routes d1 = false →
  binaryChanged d1 = false →
  am_ReadApp am t1 (rdId d) = (curApp, None) →
  PackageState curApp = Some packageState →
  packageState ≠ "PENDING" →
  ∃ o res post,
    resourceAppStandardUpdate getListChangedSchemaLists standardLegacyRoutes
      standardMigrateRoutes standardRoutesSet d (Some session) app
      false false false t
    = (o, t1 ++ EvReadApp (rdId d) (curApp, None)
              :: EvRestageApp (rdId d) (timeout (rdNew d1)) res :: post)
    ∧ Forall (fun ev => isRestage ev = false) post.
Proof.
  intros am app' Hchanged Hbindings Hroute Hroutes Hbinary Hread Hpackage
    Hpending.
  assert (restage1 = true) as ->.
  { destruct (standardBindings_run getListChangedSchemaLists am d app' false t
                Hchanged) as (r & dels & adds & Hrun & _ & _ & _ & Hok).
    rewrite Hbindings in Hrun. injection Hrun as <- _.
    by destruct (Hok eq_refl). }
  unfold resourceAppStandardUpdate, standardPush, standardRoutes.
  cbn zeta. cbn [orb]. run.
  fold am app'. rewrite Hbindings. run. rewrite Hroute, Hroutes. run.
  unfold standardBinary. unfold binaryChanged in Hbinary. rewrite Hbinary.
  destruct (standardFinish_choice am d1 app' false false true t1 curApp
              packageState eq_refl Hread Hpackage) as (o & evs & Hrun & Hchoice).
  rewrite Hrun. rewrite bool_decide_eq_false_2 in Hchoice by done.
  destruct Hchoice as (res & post & -> & Hpost). by exists o, res, post.
Qed.

(** The theorem on the healthy platform, for a binding of ["db"] added to
    an application that had none. *)
Lemma standard_update_restages_after_a_change_of_bindings_witness :
  let old := Demo.attrsWith 1 "file:///tmp/web.zip" [] [] [] [] ∅ in
  let new := Demo.attrsWith 1 "file:///tmp/web.zip" [] [Sample.db] [] [] ∅ in
  let d := Demo.data "app-old" old new in
  let app := Demo.desired 1 in
  ∃ o t1 res post,
    resourceAppStandardUpdate Sample.changedBindings Sample.noRoutes
      Sample.noRoutes Sample.noRoutes d (Some (Demo.healthy 1)) app
      false false false []
    = (o, t1 ++ EvReadApp "app-old" (Demo.reported "app-old" "web" 1, None)
              :: EvRestageApp "app-old" 60 res :: post)
    ∧ Forall (fun ev => isRestage ev = false) post.
Proof.
  intros old new d app.
  assert (∃ d1 restage1 t1,
    standardBindings Sample.changedBindings (AppManager_ (Demo.healthy 1)) d
      (CCApp_withID (rdId d) app) false [] = (Done (d1, restage1, None), t1)
    ∧ HasChange route d1 = false
    ∧ HasChange routes d1 = false
    ∧ binaryChanged d1 = false
    ∧ am_ReadApp (AppManager_ (Demo.healthy 1)) t1 (rdId d)
      = (Demo.reported "app-old" "web" 1, None)
    ∧ timeout (rdNew d1) = 60)
    as (d1 & restage1 & t1 & Hbindings & Hroute & Hroutes & Hbinary & Hread
        & Htimeout).
  { eexists _, _, _. split; [vm_compute; reflexivity|].
    split; [vm_compute; reflexivity|]. split; [vm_compute; reflexivity|].
    split; [vm_compute; reflexivity|]. split; vm_compute; reflexivity. }
  destruct (standard_update_restages_after_a_change_of_bindings
              Sample.changedBindings Sample.noRoutes Sample.noRoutes
              Sample.noRoutes d (Demo.healthy 1) app []
              d1 restage1 t1 (Demo.reported "app-old" "web" 1) "STAGED"
              eq_refl Hbindings Hroute Hroutes Hbinary Hread eq_refl
              ltac:(discriminate))
    as (o & res & post & Hrun & Hpost).
  exists o, t1, res, post. rewrite Htimeout in Hrun. by split.
Defined.

(** ** Update: nothing to change *)

Lemma HasChange_same {A : Type} `{EqDecision A} (f : Attrs -> A)
    (d : ResourceData) :
  rdNew d = rdOld d → HasChange f d = false.
Proof.
  intros Hsame. unfold HasChange. rewrite Hsame.
  by apply bool_decide_eq_false_2; intros H'; apply H'.
Qed.

Lemma SetAttrs_set_deposed_same (d : ResourceData) :
  rdNew d = rdOld d → SetAttrs (set_deposed (deposed (rdOld d))) d = d.
Proof.
  intros Hsame. destruct d as [id old new partial keys imp]. cbn in *.
  subst new. unfold SetAttrs. cbn. by rewrite set_deposed_same.
Qed.

(** X30. An update with nothing to change: when every attribute is as the
    prior state has it (and the name and the space are set), the update,
    with the standard update as its second path, makes exactly one call,
    a read of the application under the id of the resource. It returns
    the error of that read, if any, and otherwise ends partial mode; no
    attribute is written. *)
Theorem update_without_a_change_only_reads_the_application
    (getListChangedSchemaLists :
       list ServiceBinding -> list ServiceBinding ->
       list ServiceBinding * list ServiceBinding)
    (standardLegacyRoutes standardMigrateRoutes standardRoutesSet :
       ResourceData -> Session -> CCApp -> M (ResourceData * option error))
    (d : ResourceData) (session : Session) (t : trace) :
  rdNew d = rdOld d →
  okString (name (rdNew d)) = true →
  okString (space (rdNew d)) = true →
  let answer := am_ReadApp (AppManager_ session) t (rdId d) in
  resourceAppUpdate
    (resourceAppStandardUpdate getListChangedSchemaLists standardLegacyRoutes
       standardMigrateRoutes standardRoutesSet)
    d (Some session) t
  = (Done (Partial (bool_decide (is_Some answer.2)) d, answer.2),
     t ++ [EvReadApp (rdId d) answer]).
Proof.
  intros Hsame Hname Hspace answer.
  unfold resourceAppUpdate. cbn zeta.
  rewrite (SetAttrs_set_deposed_same d Hsame).
  assert (Hsame' : rdNew (Partial true d) = rdOld (Partial true d)) by done.
  assert (Hflags : flagsOfChanges (Partial true d)
                   = {| update := false; restart := false; restage := false |}).
  { unfold flagsOfChanges. by rewrite !HasChange_same. }
  destruct (changedApp_run (Partial true d) t) as [app Hclass].
  unfold derefsNil in Hclass. rewrite !HasChange_same in Hclass by done.
  cbn [rdNew Partial orb negb] in Hclass. rewrite Hname, Hspace in Hclass.
  cbn [negb orb] in Hclass. rewrite Hflags in Hclass.
  run. rewrite Hclass. run.
  unfold updatePush. cbn [update restart restage orb]. run.
  rewrite blueGreenSelected_eq. unfold binaryOrBindingsChanged.
  rewrite !HasChange_same by done. cbn [orb]. rewrite andb_false_r.
  unfold resourceAppStandardUpdate, standardPush, standardBindings,
    standardRoutes, standardBinary, standardFinish, standardFinalState, ReadApp.
  cbn zeta. cbn [orb]. run.
  rewrite (HasChange_same service_binding) by done. run.
  rewrite (HasChange_same route), (HasChange_same routes) by done. run.
  rewrite (HasChange_same url), (HasChange_same git),
    (HasChange_same github_release), (HasChange_same add_content) by done.
  cbn [orb]. run.
  cbn [ID CCApp_withID rdId Partial]. fold answer.
  destruct answer as [curApp [e|]]; run; cbn [snd].
  - by rewrite bool_decide_eq_true_2.
  - rewrite (HasChange_same stopped) by done. run.
    rewrite bool_decide_eq_false_2; [done|]. by intros [? ?].
Qed.

(** The theorem on the healthy platform, for the attributes of [Demo] as
    prior state and as plan. *)
Lemma update_without_a_change_only_reads_the_application_witness :
  let d := Demo.data "app-old" Demo.attrs Demo.attrs in
  resourceAppUpdate
    (resourceAppStandardUpdate Sample.changedBindings Sample.noRoutes
       Sample.noRoutes Sample.noRoutes)
    d (Some (Demo.healthy 1)) []
  = (Done (Partial false d, None),
     [] ++ [EvReadApp "app-old" (Demo.reported "app-old" "web" 1, None)]).
Proof.
  intros d.
  apply (update_without_a_change_only_reads_the_application
           Sample.changedBindings Sample.noRoutes Sample.noRoutes
           Sample.noRoutes d (Demo.healthy 1) []); reflexivity.
Defined.

(** ** The checks of the acceptance tests *)

Lemma destroyedLoop_run
    (find : list (string * option findError) -> string -> string ->
            option findError)
    (spaceID : string) (names : list string)
    (asked : list (string * option findError)) :
  ∃ answers rest,
    names = answers.*1 ++ rest
    ∧ Forall (fun a => isOtherError a = true) (removelast answers)
    ∧ match last answers with
      | Some (n, None) =>
          destroyedLoop find spaceID names asked
          = (Some ("service instance with name '" +:+ n +:+
                   "' still exists in cloud foundry"), asked ++ answers)
      | Some (_, Some ModelNotFoundError) =>
          destroyedLoop find spaceID names asked = (None, asked ++ answers)
      | _ =>
          rest = []
          ∧ destroyedLoop find spaceID names asked = (None, asked ++ answers)
      end.
Proof.
  revert asked. induction names as [|n names IH]; intros asked.
  - exists [], []. cbn. by rewrite app_nil_r.
  - cbn [destroyedLoop]. cbn zeta.
    destruct (find asked n spaceID) as [[|msg]|] eqn:Hfind.
    + exists [(n, Some ModelNotFoundError)], names. by cbn.
    + destruct (IH (asked ++ [(n, Some (OtherError msg))]))
        as (answers & rest & -> & Hother & Hlast).
      exists ((n, Some (OtherError msg)) :: answers), rest.
      split; [done|]. split.
      * destruct answers; [done|]. cbn [removelast]. by constructor.
      * rewrite <- app_assoc in Hlast. cbn [app] in Hlast.
        destruct answers as [|a answers]; [done|].
        by rewrite last_cons_cons.
    + exists [(n, None)], names. by cbn.
Qed.

(** X28. [testAccCheckServiceInstanceDestroyed] looks the names up in
    order and stops at the first look-up that does not fail with an error
    other than "not found": it passes when that look-up reports "not
    found", without looking at the names after it, and fails with "still
    exists" when that look-up finds the instance. It also passes when
    every look-up fails with another error. Without the space in the
    state it fails before any look-up. *)
Theorem destroyed_check_stops_at_the_first_conclusive_lookup
    (find : list (string * option findError) -> string -> string ->
            option findError)
    (names : list string) (spaceResource : string)
    (resources : gmap string string) :
  let check :=
    testAccCheckServiceInstanceDestroyed find names spaceResource resources in
  match resources !! spaceResource with
  | None => is_Some check.1 ∧ check.2 = []
  | Some spaceID =>
      ∃ rest,
        names = check.2.*1 ++ rest
        ∧ Forall (fun a => isOtherError a = true) (removelast check.2)
        ∧ match last check.2 with
          | Some (n, None) =>
              check.1 = Some ("service instance with name '" +:+ n +:+
                              "' still exists in cloud foundry")
          | Some (_, Some ModelNotFoundError) => check.1 = None
          | _ => rest = [] ∧ check.1 = None
          end
  end.
Proof.
  unfold testAccCheckServiceInstanceDestroyed.
  destruct (resources !! spaceResource) as [spaceID|]; cbn zeta; [|by cbn].
  destruct (destroyedLoop_run find spaceID names [])
    as (answers & rest & Hnames & Hother & Hlast).
  exists rest.
  destruct (last answers) as [[n [[|msg]|]]|] eqn:Hl;
    [| destruct Hlast as [-> Hlast] | | destruct Hlast as [-> Hlast]];
    rewrite Hlast; cbn [fst snd app]; rewrite Hl; done.
Qed.

(** ** The validation functions of the schema *)

(** X29. [validateAppHealthCheckType] accepts exactly the values [port],
    [process], [http] and [none], and [validateAppDeposedMapEmpty] exactly
    the empty map; a value that is refused yields one error, which names
    the key in quotes, and neither function ever warns. *)
Theorem schema_validators_accept (value k : string) (v : gmap string string) :
  let health := validateAppHealthCheckType value k in
  let deposed := validateAppDeposedMapEmpty v k in
  health.1 = [] ∧ deposed.1 = []
  ∧ (health.2 = [] ↔ value ∈ healthCheckTypes)
  ∧ (deposed.2 = [] ↔ v = ∅)
  ∧ (length health.2 ≤ 1)%nat ∧ (length deposed.2 ≤ 1)%nat
  ∧ Forall (fun e => strings_HasPrefix e (fmt_q k) = true)
      (health.2 ++ deposed.2).
Proof.
  cbn zeta. unfold validateAppHealthCheckType, validateAppDeposedMapEmpty,
    healthCheckTypes.
  assert (Hprefix : ∀ rest, strings_HasPrefix (fmt_q k +:+ rest) (fmt_q k) = true).
  { intros rest. induction (fmt_q k) as [|c s IH]; [by destruct rest|].
    change (String c s +:+ rest) with (String c (s +:+ rest)).
    cbn. by rewrite Ascii.eqb_refl. }
  split; [by destruct (_ && _)|]. split; [by destruct (bool_decide _)|].
  split; [|split].
  - rewrite !elem_of_cons, elem_of_nil.
    destruct (bool_decide_reflect (value ≠ "port")) as [H1|H1%dec_stable];
      [|cbn; naive_solver].
    destruct (bool_decide_reflect (value ≠ "process")) as [H2|H2%dec_stable];
      [|cbn; naive_solver].
    destruct (bool_decide_reflect (value ≠ "http")) as [H3|H3%dec_stable];
      [|cbn; naive_solver].
    destruct (bool_decide_reflect (value ≠ "none")) as [H4|H4%dec_stable];
      [|cbn; naive_solver].
    cbn. split; [done|]. by intros [?|[?|[?|[?|[]]]]].
  - destruct (bool_decide_reflect (size v ≠ 0%nat)) as [H|H%dec_stable]; cbn.
    + split; [done|]. intros ->. by rewrite map_size_empty in H.
    + split; [|done]. intros _. by apply map_size_empty_inv.
  - destruct (_ && _), (bool_decide _); cbn;
      (split; [lia|split; [lia|repeat constructor; apply Hprefix]]).
Qed.
